(** * PMI extraction demo: classifiers, regex pass, source locator, chat cap

    A shallow embedding of the reproducible logic of the repository:
    - [extraction_config.py]: the pattern library, the three field
      classifiers and the colour table;
    - [streamlit_pmi_extraction.py]: the gathering of the page text, the
      regex pass, the model-backed passes with the merge call, the source
      locator, the outlines of the regex matches and the classification of
      the merged values;
    - [streamlit_datasheet_rag.py]: the chat handler with its question
      counter.

    Modelling conventions.
    - Python [str] values are byte strings ([string] at the interface,
      [list ascii] inside), a character outside ASCII being the bytes of
      its UTF-8 form. Only the ASCII letters have a case, only the ASCII
      digits are digits, only the ASCII white space is white space, and
      only ASCII letters, digits and the underscore are word characters;
      every other byte is carried unchanged.
    - Python [float] is IEEE 754 binary64, computed with the integer
      specification of [SpecFloat] (precision 53, maximal exponent 1024).
    - Python [set] is [gset string], [dict] is [gmap string _];
      [list(a_set)] is [elements].
    - [re] is a backtracking matcher over a regular-expression syntax tree
      that follows the pattern text; greedy quantifiers, ordered
      alternation, numbered capture groups. *)

From Stdlib Require Import ZArith List Ascii String Bool Lia.
From Stdlib Require Import Floats.SpecFloat.
From stdpp Require Import base gmap strings list fin_maps fin_sets sorting.
Import ListNotations.

Local Open Scope string_scope.
Local Open Scope list_scope.

(** ** Characters and strings *)

Module Str.

Definition code (c : ascii) : nat := nat_of_ascii c.

Definition between (lo hi : nat) (c : ascii) : bool :=
  (lo <=? code c)%nat && (code c <=? hi)%nat.

Definition is_upper (c : ascii) : bool := between 65 90 c.
Definition is_lower (c : ascii) : bool := between 97 122 c.
Definition is_digit (c : ascii) : bool := between 48 57 c.

(** [str.isspace] on the ASCII range: TAB..CR, FS..US and the blank. *)
Definition is_space (c : ascii) : bool :=
  between 9 13 c || between 28 32 c.

(** [\w] on the ASCII range. *)
Definition is_word (c : ascii) : bool :=
  is_upper c || is_lower c || is_digit c || (code c =? 95)%nat.

Definition upper_char (c : ascii) : ascii :=
  if is_lower c then ascii_of_nat (code c - 32) else c.

Definition lower_char (c : ascii) : ascii :=
  if is_upper c then ascii_of_nat (code c + 32) else c.

Definition upper (s : list ascii) : list ascii := map upper_char s.
Definition lower (s : list ascii) : list ascii := map lower_char s.

Definition eqb_char (a b : ascii) : bool := Ascii.eqb a b.

(** [p] is a prefix of [s]. *)
Fixpoint prefixb (p s : list ascii) : bool :=
  match p, s with
  | [], _ => true
  | _ :: _, [] => false
  | a :: p', b :: s' => eqb_char a b && prefixb p' s'
  end.

(** The [in] operator of Python on strings: [p in s]. *)
Fixpoint contains (p s : list ascii) : bool :=
  prefixb p s ||
  match s with
  | [] => false
  | _ :: s' => contains p s'
  end.

(** [str.strip()]: drop leading and trailing white space. *)
Fixpoint lstrip (s : list ascii) : list ascii :=
  match s with
  | c :: s' => if is_space c then lstrip s' else s
  | [] => []
  end.

Definition strip (s : list ascii) : list ascii :=
  rev (lstrip (rev (lstrip s))).

(** [str.split()] without argument: the maximal runs of characters that
    are not white space. [cur] is the run being read, reversed. *)
Fixpoint split_aux (cur : list ascii) (s : list ascii) : list (list ascii) :=
  match s with
  | [] => match cur with [] => [] | _ => [rev cur] end
  | c :: s' =>
      if is_space c
      then match cur with
           | [] => split_aux [] s'
           | _ => rev cur :: split_aux [] s'
           end
      else split_aux (c :: cur) s'
  end.

Definition split (s : list ascii) : list (list ascii) := split_aux [] s.

Definition of_string (s : string) : list ascii := list_ascii_of_string s.
Definition to_string (s : list ascii) : string := string_of_list_ascii s.

End Str.

Abbreviation str := (list ascii).

(** ** Binary64 floating point *)

Module F64.

Definition prec : Z := 53.
Definition emax : Z := 1024.

Abbreviation float := spec_float.

(** The float nearest to the integer [n] (ties to even). *)
Definition of_Z (n : Z) : float := binary_normalize prec emax n 0 false.

Definition div (x y : float) : float := SFdiv prec emax x y.
Definition mul (x y : float) : float := SFmul prec emax x y.
Definition leb (x y : float) : bool := SFleb x y.
Definition ltb (x y : float) : bool := SFltb x y.

(** Value of a string of decimal digits, most significant first. *)
Definition digit_val (c : ascii) : Z := Z.of_nat (Str.code c) - 48.

Definition digits_val (ds : str) : Z :=
  fold_left (fun acc c => 10 * acc + digit_val c)%Z ds 0%Z.

(** [float(s)] for a numeral [int_part] or [int_part.frac_part]: the
    correctly rounded quotient of the integer spelled by all the digits by
    the power of ten that the fraction calls for. *)
Definition pow10 (k : nat) : positive := Z.to_pos (10 ^ Z.of_nat k).

Definition of_decimal (int_part frac_part : str) : float :=
  match digits_val (int_part ++ frac_part) with
  | Zpos m =>
      SFdiv prec emax (S754_finite false m 0)
        (S754_finite false (pow10 (length frac_part)) 0)
  | _ => S754_zero false
  end.

End F64.

(** ** Regular expressions: the fragment of [re] that the patterns use *)

Module Re.

Inductive regex : Type :=
| Empty                                   (* the empty pattern *)
| Lit (c : ascii)                         (* one literal character *)
| AnyChar                                 (* .  (no DOTALL: not a newline) *)
| Digit                                   (* \d *)
| Space                                   (* \s *)
| Class (ranges : list (ascii * ascii))   (* [a-bc-d...] *)
| WordB                                   (* \b *)
| Seq (r1 r2 : regex)
| Alt (r1 r2 : regex)                     (* r1|r2, r1 tried first *)
| Star (r : regex)                        (* r*, greedy *)
| Plus (r : regex)                        (* r+, greedy *)
| Opt (r : regex)                         (* r?, greedy *)
| Group (n : nat) (r : regex).            (* the n-th capture group *)

(** A literal word, and n-ary sequence and alternation. *)
Definition word (w : string) : regex :=
  fold_right (fun c r => Seq (Lit c) r) Empty (Str.of_string w).

Definition seqs (rs : list regex) : regex := fold_right Seq Empty rs.

Fixpoint alts (rs : list regex) : regex :=
  match rs with
  | [] => Empty
  | [r] => r
  | r :: rs' => Alt r (alts rs')
  end.

(** The matcher walks the text from left to right. [prev] is the character
    just before the cursor (for [\b]), [rest] the text from the cursor on,
    [pos] the offset of the cursor, [caps] the spans of the groups that
    took part in the match so far, latest first. *)
Record mstate : Type := MState {
  prev : option ascii;
  rest : str;
  pos : nat;
  caps : list (nat * (nat * nat))
}.

Definition advance (st : mstate) : option mstate :=
  match rest st with
  | [] => None
  | c :: tl => Some (MState (Some c) tl (S (pos st)) (caps st))
  end.

Definition set_cap (n : nat) (span : nat * nat) (st : mstate) : mstate :=
  MState (prev st) (rest st) (pos st) ((n, span) :: caps st).

Fixpoint get_cap (n : nat) (cs : list (nat * (nat * nat))) : option (nat * nat) :=
  match cs with
  | [] => None
  | (m, span) :: cs' => if (m =? n)%nat then Some span else get_cap n cs'
  end.

Definition in_ranges (ranges : list (ascii * ascii)) (c : ascii) : bool :=
  existsb (fun r => Str.between (Str.code (fst r)) (Str.code (snd r)) c) ranges.

(** One-character tests; [icase] is the flag [re.I]. *)
Definition lit_matches (icase : bool) (c x : ascii) : bool :=
  if icase then Str.eqb_char (Str.lower_char c) (Str.lower_char x)
  else Str.eqb_char c x.

Definition class_matches (icase : bool) (ranges : list (ascii * ascii)) (x : ascii) : bool :=
  if icase
  then in_ranges ranges x || in_ranges ranges (Str.lower_char x)
       || in_ranges ranges (Str.upper_char x)
  else in_ranges ranges x.

Definition newline : ascii := ascii_of_nat 10.

Definition is_word_opt (o : option ascii) : bool :=
  match o with Some c => Str.is_word c | None => false end.

Definition at_boundary (st : mstate) : bool :=
  xorb (is_word_opt (prev st)) (is_word_opt (head (rest st))).

Definition step_if (test : ascii -> bool) (st : mstate)
    (k : mstate -> option mstate) : option mstate :=
  match rest st with
  | c :: tl => if test c then k (MState (Some c) tl (S (pos st)) (caps st)) else None
  | [] => None
  end.

Definition orelse (a : option mstate) (b : unit -> option mstate) : option mstate :=
  match a with
  | Some _ => a
  | None => b tt
  end.

(** Greedy repetition of [body]: try one more round (which has to consume
    something), fall back to the continuation. [n] bounds the rounds by the
    length of the text left. *)
Fixpoint repeat_greedy
    (body : mstate -> (mstate -> option mstate) -> option mstate)
    (n : nat) (st : mstate) (k : mstate -> option mstate) : option mstate :=
  match n with
  | O => k st
  | S n' =>
      orelse
        (body st (fun st' =>
           if (pos st <? pos st')%nat then repeat_greedy body n' st' k else None))
        (fun _ => k st)
  end.

(** [rmatch icase r st k]: match [r] at [st], then continue with [k];
    backtrack into [r] when [k] fails. *)
Fixpoint rmatch (icase : bool) (r : regex) (st : mstate)
    (k : mstate -> option mstate) {struct r} : option mstate :=
  match r with
  | Empty => k st
  | Lit c => step_if (lit_matches icase c) st k
  | AnyChar => step_if (fun x => negb (Str.eqb_char x newline)) st k
  | Digit => step_if Str.is_digit st k
  | Space => step_if Str.is_space st k
  | Class ranges => step_if (class_matches icase ranges) st k
  | WordB => if at_boundary st then k st else None
  | Seq r1 r2 => rmatch icase r1 st (fun st' => rmatch icase r2 st' k)
  | Alt r1 r2 => orelse (rmatch icase r1 st k) (fun _ => rmatch icase r2 st k)
  | Star r1 => repeat_greedy (rmatch icase r1) (length (rest st)) st k
  | Plus r1 =>
      rmatch icase r1 st (fun st' =>
        repeat_greedy (rmatch icase r1) (length (rest st')) st' k)
  | Opt r1 => orelse (rmatch icase r1 st k) (fun _ => k st)
  | Group n r1 =>
      rmatch icase r1 st (fun st' => k (set_cap n (pos st, pos st') st'))
  end.

(** A compiled pattern: the tree, the flag and the number of groups. *)
Record pattern : Type := Pattern {
  tree : regex;
  ignorecase : bool;
  ngroups : nat
}.

(** A match object: where it starts, the text of group 0 and of the
    numbered groups ([None] for a group that took no part). *)
Record rmatch_obj : Type := Match {
  m_start : nat;
  m_text : str;
  m_groups : list (option str)
}.

Definition slice (start : nat) (text : str) (span : nat * nat) : str :=
  firstn (snd span - fst span) (skipn (fst span - start) text).

Definition match_at (p : pattern) (pv : option ascii) (text : str) (i : nat)
    : option rmatch_obj :=
  match rmatch (ignorecase p) (tree p) (MState pv text i []) Some with
  | Some st =>
      Some (Match i (firstn (pos st - i) text)
              (map (fun n => option_map (slice i text) (get_cap n (caps st)))
                   (seq 1 (ngroups p))))
  | None => None
  end.

(** [group(n)] of a match object. *)
Definition group (m : rmatch_obj) (n : nat) : option str :=
  match n with
  | O => Some (m_text m)
  | S n' => nth n' (m_groups m) None
  end.

(** [re.search]: the leftmost match. *)
Fixpoint search_from (p : pattern) (pv : option ascii) (text : str) (i : nat)
    : option rmatch_obj :=
  match match_at p pv text i with
  | Some m => Some m
  | None =>
      match text with
      | [] => None
      | c :: tl => search_from p (Some c) tl (S i)
      end
  end.

Definition search (p : pattern) (text : str) : option rmatch_obj :=
  search_from p None text 0.

(** [re.finditer]: the successive non-overlapping matches, left to right.
    [skip] counts the characters of the previous match still to be passed.
    After an empty match the scan resumes one character further. *)
Fixpoint scan (p : pattern) (skip : nat) (pv : option ascii) (text : str) (i : nat)
    : list rmatch_obj :=
  match skip with
  | S skip' =>
      match text with
      | [] => []
      | c :: tl => scan p skip' (Some c) tl (S i)
      end
  | O =>
      match match_at p pv text i with
      | Some m =>
          m :: match text with
               | [] => []
               | c :: tl => scan p (Nat.pred (length (m_text m))) (Some c) tl (S i)
               end
      | None =>
          match text with
          | [] => []
          | c :: tl => scan p 0 (Some c) tl (S i)
          end
      end
  end.

Definition finditer (p : pattern) (text : str) : list rmatch_obj :=
  scan p 0 None text 0.

(** [re.findall]: per match, the whole text when the pattern has no group,
    the text of the group when it has one, the tuple of the texts of its
    groups when it has several; a group that took no part gives the empty
    string. *)
Inductive found : Type :=
| FStr (s : str)
| FTuple (items : list str).

Definition group_text (g : option str) : str :=
  match g with Some s => s | None => [] end.

Definition found_of (p : pattern) (m : rmatch_obj) : found :=
  match ngroups p with
  | O => FStr (m_text m)
  | S O => FStr (group_text (group m 1))
  | _ => FTuple (map group_text (m_groups m))
  end.

Definition findall (p : pattern) (text : str) : list found :=
  map (found_of p) (finditer p text).

End Re.

(** ** extraction_config.py *)

Module Config.

Import Re.

Definition s (w : string) : str := Str.of_string w.

Definition str_eqb (a b : str) : bool := bool_decide (a = b).

(** *** Pattern library.  All the patterns are compiled with [re.I]. *)

(** [\d+(\.\d+)?] with the fraction as capture group [n]. *)
Definition decimal_with_group (n : nat) : regex :=
  Seq (Plus Digit) (Opt (Group n (Seq (Lit ".") (Plus Digit)))).

(** [(μm|um|microns)] as capture group [n]. *)
Definition micron_unit (n : nat) : regex :=
  Group n (alts [word "μm"; word "um"; word "microns"]).

(**
[\b(STL|Steel|SS\s?(304|316)?|Al(?:uminum)?\s?6061|Brass|Bronze|ABS|PEEK)\b] *)
Definition material_re : regex :=
  seqs [WordB;
        Group 1 (alts [word "STL"; word "Steel";
                       seqs [word "SS"; Opt Space;
                             Opt (Group 2 (alts [word "304"; word "316"]))];
                       seqs [word "Al"; Opt (word "uminum"); Opt Space; word "6061"];
                       word "Brass"; word "Bronze"; word "ABS"; word "PEEK"]);
        WordB].

(**
[\b(Anodized|Black Oxide|Powder Coat|Zinc Plated|Hot Dip|Ra\s?\d+(\.\d+)?(\s?(μm|um|microns)?))\b] *)
Definition finish_re : regex :=
  seqs [WordB;
        Group 1 (alts [word "Anodized"; word "Black Oxide"; word "Powder Coat";
                       word "Zinc Plated"; word "Hot Dip";
                       seqs [word "Ra"; Opt Space; decimal_with_group 2;
                             Group 3 (seqs [Opt Space; Opt (micron_unit 4)])]]);
        WordB].

(** [(±|\+/-)\s?\d+(\.\d+)?(\s?(mm|in|inch)?)] *)
Definition general_tolerance_re : regex :=
  seqs [Group 1 (alts [word "±"; word "+/-"]);
        Opt Space; decimal_with_group 2;
        Group 3 (seqs [Opt Space;
                       Opt (Group 4 (alts [word "mm"; word "in"; word "inch"]))])].

(** [Ra\s?\d+(\.\d+)?\s?(μm|um|microns)?] *)
Definition surface_roughness_re : regex :=
  seqs [word "Ra"; Opt Space; decimal_with_group 1; Opt Space;
        Opt (micron_unit 2)].

(** [\b(M\d+(\.\d+)?(x\d+(\.\d+)?)?|UNC\s?\d+-\d+|UNF\s?\d+-\d+|BSPT|NPT)\b] *)
Definition threads_re : regex :=
  seqs [WordB;
        Group 1 (alts [seqs [word "M"; decimal_with_group 2;
                             Opt (Group 3 (seqs [word "x"; decimal_with_group 4]))];
                       seqs [word "UNC"; Opt Space; Plus Digit; word "-"; Plus Digit];
                       seqs [word "UNF"; Opt Space; Plus Digit; word "-"; Plus Digit];
                       word "BSPT"; word "NPT"]);
        WordB].

(** [(⌀|\bDIA\b)\s?\d+(\.\d+)?] *)
Definition diameters_re : regex :=
  seqs [Group 1 (alts [word "⌀"; seqs [WordB; word "DIA"; WordB]]);
        Opt Space; decimal_with_group 2].

(** [\bWELD(ING)?\b.*] *)
Definition weld_notes_re : regex :=
  seqs [WordB; word "WELD"; Opt (Group 1 (word "ING")); WordB; Star AnyChar].

(** [\b(AWS|ASME|ASTM|DIN|SAES|AMSS|ISO)-?[A-Z0-9]+\b] *)
Definition standards_re : regex :=
  seqs [WordB;
        Group 1 (alts [word "AWS"; word "ASME"; word "ASTM"; word "DIN";
                       word "SAES"; word "AMSS"; word "ISO"]);
        Opt (word "-");
        Plus (Class [("A"%char, "Z"%char); ("0"%char, "9"%char)]);
        WordB].

(** The dictionary [patterns], in the order of its items. *)
Definition patterns : list (string * pattern) :=
  [ ("material", Pattern material_re true 2);
    ("finish", Pattern finish_re true 4);
    ("general_tolerance", Pattern general_tolerance_re true 4);
    ("surface_roughness", Pattern surface_roughness_re true 2);
    ("threads", Pattern threads_re true 4);
    ("diameters", Pattern diameters_re true 2);
    ("weld_notes", Pattern weld_notes_re true 1);
    ("standards", Pattern standards_re true 1) ].

(** *** Classification criteria *)

(** The size pattern of both classifiers: [(\d+(?:\.\d+)?)\s*(mm|in|inch)?],
    with [re.IGNORECASE] in [classify_diameter] and without flag in
    [classify_thread]. *)
Definition number_re : regex :=
  Seq (Plus Digit) (Opt (Seq (Lit ".") (Plus Digit))).

Definition unit_re : regex := Group 2 (alts [word "mm"; word "in"; word "inch"]).

Definition size_re : regex := seqs [Group 1 number_re; Star Space; Opt unit_re].

Definition size_pattern (icase : bool) : pattern := Pattern size_re icase 2.

(** [float(text)] for a text matched by [\d+(?:\.\d+)?]. *)
Fixpoint split_point (acc : str) (text : str) : str * str :=
  match text with
  | [] => (rev acc, [])
  | c :: tl => if Str.eqb_char c "." then (rev acc, tl) else split_point (c :: acc) tl
  end.

Definition float_of_text (text : str) : F64.float :=
  let '(int_part, frac_part) := split_point [] text in
  F64.of_decimal int_part frac_part.

(** [float(match.group(1)), match.group(2) or "mm"] *)
Definition size_and_unit (m : rmatch_obj) : F64.float * str :=
  (float_of_text (group_text (group m 1)),
   match group m 2 with
   | Some u => match u with [] => s "mm" | _ => u end
   | None => s "mm"
   end).

Definition f_25_4 : F64.float := F64.of_decimal (s "25") (s "4").

(** The band of one size in inches. *)
Definition diameter_band (size : F64.float) : option string :=
  if F64.leb (F64.of_Z 6) size && F64.leb size (F64.of_Z 8)
  then Some "Class A Pipe"
  else if F64.ltb (F64.of_Z 8) size && F64.leb size (F64.of_Z 10)
  then Some "Class B Pipe"
  else if F64.ltb (F64.of_Z 10) size && F64.leb size (F64.of_Z 12)
  then Some "Class C Pipe"
  else None.

(** The size of one match in inches. *)
Definition diameter_inches (m : rmatch_obj) : F64.float :=
  let '(size, unit) := size_and_unit m in
  if existsb (str_eqb (Str.lower unit)) [s "mm"; s "millimeter"]
  then F64.div size f_25_4
  else size.

Definition add_opt (o : option string) (acc : gset string) : gset string :=
  match o with
  | Some l => acc ∪ {[ l ]}
  | None => acc
  end.

(** [list(classifications) if classifications else None] *)
Definition list_or_none (classifications : gset string) : option (list string) :=
  if decide (classifications = ∅) then None else Some (elements classifications).

Definition diameter_classes (value : string) : gset string :=
  fold_left (fun acc m => add_opt (diameter_band (diameter_inches m)) acc)
    (finditer (size_pattern true) (s value)) ∅.

Definition classify_diameter (value : string) : option (list string) :=
  list_or_none (diameter_classes value).

(** [(Stud|Anchor|Hole|Bolt)], searched with [re.I]. *)
Definition type_re : regex :=
  Group 1 (alts [word "Stud"; word "Anchor"; word "Hole"; word "Bolt"]).

Definition type_pattern : pattern := Pattern type_re true 1.

(** [type_match.group(1).lower() if type_match else "unknown"] *)
Definition thread_type (value : string) : string :=
  match search type_pattern (s value) with
  | Some m => Str.to_string (Str.lower (group_text (group m 1)))
  | None => "unknown"
  end.

(** The size of one match in millimetres. *)
Definition thread_mm (m : rmatch_obj) : F64.float :=
  let '(size, unit) := size_and_unit m in
  if existsb (str_eqb unit) [s "in"; s "inch"]
  then F64.mul size f_25_4
  else size.

Definition thread_label (thread_type : string) (size : F64.float) : option string :=
  if String.eqb thread_type "stud" then
    if F64.leb size (F64.of_Z 20) then Some "Light Duty Stud"
    else Some "Heavy Duty Stud"
  else if String.eqb thread_type "anchor" then
    if F64.leb size (F64.of_Z 25) then Some "Standard Anchor"
    else Some "Heavy Duty Anchor"
  else if String.eqb thread_type "hole" then
    if F64.leb size (F64.of_Z 20) then Some "Standard Hole"
    else Some "Large Hole"
  else None.

Definition thread_classes (value : string) : gset string :=
  let size_matches := finditer (size_pattern false) (s value) in
  let thread_type := thread_type value in
  fold_left (fun acc m => add_opt (thread_label thread_type (thread_mm m)) acc)
    size_matches ∅.

Definition classify_thread (value : string) : option (list string) :=
  list_or_none (thread_classes value).

Definition classify_material (value : string) : option string :=
  let value := Str.upper (s value) in
  if Str.contains (s "STAINLESS") value || Str.contains (s "SS") value then
    if Str.contains (s "304") value then Some "Standard Stainless"
    else if Str.contains (s "316") value then Some "Marine Grade Stainless"
    else Some "General Stainless"
  else if Str.contains (s "ALUMINUM") value || Str.contains (s "AL") value then
    if Str.contains (s "6061") value then Some "Aircraft Grade Aluminum"
    else Some "General Aluminum"
  else if Str.contains (s "BRASS") value then Some "Decorative/Corrosion Resistant"
  else if Str.contains (s "BRONZE") value then Some "High Strength/Corrosion Resistant"
  else if Str.contains (s "PEEK") value then Some "High Performance Plastic"
  else None.

(** What a classifier of [CLASSIFICATION_MAPPING] returns: a list of labels,
    one label, or [None]. *)
Inductive classified : Type :=
| CList (labels : list string)
| CStr (label : string)
| CNone.

Definition of_list_result (o : option (list string)) : classified :=
  match o with Some l => CList l | None => CNone end.

Definition of_str_result (o : option string) : classified :=
  match o with Some l => CStr l | None => CNone end.

Definition CLASSIFICATION_MAPPING : gmap string (string -> classified) :=
  list_to_map
    [ ("diameters", fun v => of_list_result (classify_diameter v));
      ("threads", fun v => of_list_result (classify_thread v));
      ("material", fun v => of_str_result (classify_material v)) ].

Definition CLASSIFICATION_COLORS : gmap string string :=
  list_to_map
    [ ("Class A Pipe", "#FF6B6B");
      ("Class B Pipe", "#4ECDC4");
      ("Class C Pipe", "#45B7D1");
      ("Light Duty Stud", "#98D8AA");
      ("Heavy Duty Stud", "#3C6255");
      ("Standard Anchor", "#FFD93D");
      ("Heavy Duty Anchor", "#FF8400");
      ("Standard Hole", "#A8DF8E");
      ("Large Hole", "#86A789");
      ("Standard Stainless", "#B2B2B2");
      ("Marine Grade Stainless", "#7D7C7C");
      ("General Stainless", "#9B9B9B");
      ("Aircraft Grade Aluminum", "#C0C0C0");
      ("General Aluminum", "#D3D3D3");
      ("Decorative/Corrosion Resistant", "#DAA520");
      ("High Strength/Corrosion Resistant", "#CD7F32");
      ("High Performance Plastic", "#E6E6FA") ].

End Config.

(** ** streamlit_pmi_extraction.py *)

(** Python exceptions: a call either returns or raises. *)
Inductive exn : Type := Exception (msg : string).

Definition str_of_exn (e : exn) : string := let 'Exception msg := e in msg.

Inductive outcome (A : Type) : Type :=
| Return (a : A)
| Raise (e : exn).
Arguments Return {A} a.
Arguments Raise {A} e.

#[global] Instance outcome_ret : MRet outcome := fun A a => Return a.

#[global] Instance outcome_bind : MBind outcome := fun A B f x =>
  match x with
  | Return a => f a
  | Raise e => Raise e
  end.

(** JSON documents as [json.loads] returns them. *)
#[local] Set Warnings "-register-all".
Inductive json : Type :=
| JNull
| JString (text : string)
| JList (items : list json)
| JDict (items : list (string * json)).

Module Extraction.

Import Re.

(** *** Regex pass *)

(** [match[0] if isinstance(match, tuple) else match] *)
Definition match_text (m : found) : str :=
  match m with
  | FTuple items => match items with x :: _ => x | [] => [] end
  | FStr x => x
  end.

(** [regex_extracted[label].add(...)] on a [defaultdict(set)]. *)
Definition add_to (label : string) (x : string)
    (d : gmap string (gset string)) : gmap string (gset string) :=
  <[ label := default ∅ (d !! label) ∪ {[ x ]} ]> d.

Definition regex_step (label : string) (d : gmap string (gset string)) (m : found)
    : gmap string (gset string) :=
  let match_text := match_text m in
  if negb (Config.str_eqb (Str.upper match_text) (Config.s "ING"))
  then add_to label (Str.to_string (Str.strip match_text)) d
  else d.

Definition regex_pass_with (patterns : list (string * pattern)) (text_blob : string)
    : gmap string (gset string) :=
  fold_left
    (fun d '(label, pattern) =>
       fold_left (regex_step label) (findall pattern (Config.s text_blob)) d)
    patterns ∅.

Definition regex_extracted (text_blob : string) : gmap string (gset string) :=
  regex_pass_with Config.patterns text_blob.

(** The set collected for a field; empty when the field has no key. *)
Definition extracted_for (label : string) (text_blob : string) : gset string :=
  default ∅ (regex_extracted text_blob !! label).

(** *** Model-backed passes and merge *)

Record request : Type := Request {
  req_model : string;
  req_input : list (string * string);     (* role, content *)
  req_format_name : string                (* json_schema format, shared_schema, strict *)
}.

Definition nl : string := String (ascii_of_nat 10) "".

Section Pipeline.

(** The hosted service and the [json] module are outside the repository:
    [responses_create] stands for [client.responses.create(...)] followed by
    reading [output_text]; [system_prompt] is the fixed instruction text of
    [llm_pass]. *)
Variable responses_create : request -> outcome string.
Variable json_loads : string -> outcome json.
Variable json_dumps : json -> string.
Variable system_prompt : string.

Definition gpt_model : string := "gpt-4o-2024-08-06".

Definition error_object (e : exn) : json :=
  JDict [("error", JString (str_of_exn e))].

(** [llm_pass]: the whole body sits in [try: ... except Exception as e]. *)
Definition llm_pass (prompt_text name : string) : json :=
  match
    (output_text ← responses_create
       (Request gpt_model [("system", system_prompt); ("user", prompt_text)] name);
     json_loads output_text)
  with
  | Return data => data
  | Raise e => error_object e
  end.

Definition regex_json (d : gmap string (gset string)) : json :=
  JDict (map (fun '(k, v) => (k, JList (map JString (elements v)))) (map_to_list d)).

Definition merge_prompt (doc_data notes_data : json)
    (regex : gmap string (gset string)) : string * string :=
  ("user",
   "Merge field-level extractions from document-wide LLM, notes-only LLM, and regex. "
   +:+ "Return final values only, deduplicated and domain-cleaned." +:+ nl +:+ nl
   +:+ "Rules:" +:+ nl
   +:+ "1. Standardize and normalize all values" +:+ nl
   +:+ "2. Remove duplicates and similar values" +:+ nl
   +:+ "3. Group related values that represent alternatives" +:+ nl
   +:+ "4. Move contextual details to notes" +:+ nl
   +:+ "5. Keep values concise and filterable" +:+ nl +:+ nl
   +:+ "Document LLM:" +:+ nl +:+ json_dumps doc_data +:+ nl +:+ nl
   +:+ "Notes LLM:" +:+ nl +:+ json_dumps notes_data +:+ nl +:+ nl
   +:+ "Regex:" +:+ nl +:+ json_dumps (regex_json regex)).

Definition merge_system : string :=
  "Return the most complete and accurate merged manufacturing information in JSON. "
  +:+ "Ensure values are standardized and normalized, with contextual details in notes.".

(** What the upload handler has computed once the merge is through. *)
Record extraction : Type := Extracted {
  notes_data : json;
  doc_data : json;
  merged_fields : json
}.

(** From the two text blobs to [merged_fields]: the regex pass, the two
    [llm_pass] calls, then the merge call and [json.loads] of its answer,
    neither of which is inside a [try]. *)
Definition extract (text_blob notes_blob : string) : outcome extraction :=
  let regex := regex_extracted text_blob in
  let notes := llm_pass notes_blob "notes_extraction" in
  let doc := llm_pass text_blob "doc_extraction" in
  output_text ← responses_create
    (Request gpt_model [("system", merge_system); merge_prompt doc notes regex]
       "merged_fields");
  merged ← json_loads output_text;
  mret (Extracted notes doc merged).

End Pipeline.

(** *** Source locator *)

Section Locator.

(** Page coordinates are carried through untouched. *)
Variable coord : Type.

(** One entry of [page.extract_words()]. *)
Record pdf_word : Type := Word {
  w_text : string;
  w_x0 : coord;
  w_top : coord;
  w_x1 : coord;
  w_bottom : coord
}.

Record bbox : Type := BBox { x0 : coord; y0 : coord; x1 : coord; y1 : coord }.

Definition box_of (w : pdf_word) : bbox :=
  BBox (w_x0 w) (w_top w) (w_x1 w) (w_bottom w).

(** [part.lower() in word["text"].lower()] *)
Definition occurs_in (part : str) (w : pdf_word) : bool :=
  Str.contains (Str.lower part) (Str.lower (Config.s (w_text w))).

(** [sum(1 for part in text.split() if part.lower() in word["text"].lower())] *)
Definition score (text : string) (w : pdf_word) : nat :=
  length (filter (fun part => occurs_in part w = true) (Str.split (Config.s text))).

(** One round of the fuzzy loop on [(best_score, best_match)]. *)
Definition fuzzy_step (text : string) (acc : nat * option pdf_word) (w : pdf_word)
    : nat * option pdf_word :=
  if existsb (fun part => occurs_in part w) (Str.split (Config.s text))
  then if (fst acc <? score text w)%nat then (score text w, Some w) else acc
  else acc.

Definition fuzzy_pass (words : list pdf_word) (text : string) : option pdf_word :=
  snd (fold_left (fuzzy_step text) words (0%nat, None)).

(** The first word that holds the whole snippet. *)
Definition exact_pass (words : list pdf_word) (text : string) : option pdf_word :=
  List.find (occurs_in (Config.s text)) words.

Definition find_text_locations (words : list pdf_word) (text context : string)
    : option bbox :=
  match exact_pass words text with
  | Some w => Some (box_of w)
  | None =>
      let best_match :=
        if negb (String.eqb context "") then fuzzy_pass words text else None in
      match best_match with
      | Some w => Some (box_of w)
      | None => None
      end
  end.

End Locator.

Arguments Word {coord}.
Arguments BBox {coord}.
Arguments w_text {coord}.
Arguments box_of {coord}.
Arguments occurs_in {coord}.
Arguments score {coord}.
Arguments fuzzy_step {coord}.
Arguments fuzzy_pass {coord}.
Arguments exact_pass {coord}.
Arguments find_text_locations {coord}.

(** *** Classification of the merged values *)

Definition str_le (a b : string) : Prop := String.leb a b = true.

#[local] Instance str_le_dec a b : Decision (str_le a b).
Proof. unfold str_le. apply _. Defined.

(** [get_classifications(field_name, values)] *)
Definition get_classifications (field_name : string) (values : list string)
    : list string :=
  match Config.CLASSIFICATION_MAPPING !! field_name with
  | None => []
  | Some classifier =>
      let classifications :=
        fold_left
          (fun (acc : gset string) value =>
             match classifier value with
             | Config.CList labels =>
                 match labels with [] => acc | _ => acc ∪ list_to_set labels end
             | Config.CStr label =>
                 if String.eqb label "" then acc else acc ∪ {[ label ]}
             | Config.CNone => acc
             end)
          values ∅ in
      merge_sort str_le (elements classifications)
  end.

(** [CLASSIFICATION_COLORS.get(classification, "#f8f9fa")] *)
Definition fallback_color : string := "#f8f9fa".

Definition chip_color (classification : string) : string :=
  default fallback_color (Config.CLASSIFICATION_COLORS !! classification).

End Extraction.

(** ** streamlit_datasheet_rag.py *)

Module Chat.

Section Session.

(** The index and its query engine live in a library; [index_documents]
    stands for the function of that name (writing the files, reading and
    indexing them), [query] for [query_engine.query(prompt)] followed by
    reading [response.response]. Either may raise. *)
Variable uploaded_file : Type.
Variable engine : Type.
Variable index_documents : list uploaded_file -> outcome engine.
Variable query : engine -> string -> outcome string.

Record message : Type := Message { role : string; content : string }.

(** [st.session_state] once its three keys are initialised. *)
Record session_state : Type := Session {
  messages : list message;
  query_engine : option engine;
  question_count : nat
}.

Definition initial : session_state := Session [] None 0.

(** What one run of the script shows and calls, in order. *)
Inductive effect : Type :=
| Indexed (files : list uploaded_file)      (* index_documents(uploaded_files) *)
| Success (count : nat)                     (* st.success, with len(uploaded_files) *)
| ShowMessage (role text : string)          (* st.chat_message(role): st.markdown *)
| ShowError (role text : string)            (* st.chat_message(role): st.error *)
| Queried (prompt : string).                (* query_engine.query(prompt) *)

Definition limit : nat := 15.

Definition limit_message : string :=
  "You've reached the limit of 15 questions. Please refresh the page to start a new session.".

Definition upload_first_message : string :=
  "Please upload a document first to ask questions about it.".

(** The outcome of a run: the session state it leaves, what it did, and
    the exception that cut it short, if any. *)
Record run_result : Type := Ran {
  state : session_state;
  effects : list effect;
  raised : option exn
}.

(** [if uploaded_files and st.session_state.query_engine is None: ...] *)
Definition upload_part (st : session_state) (uploaded_files : list uploaded_file)
    : run_result :=
  match uploaded_files, query_engine st with
  | _ :: _, None =>
      match index_documents uploaded_files with
      | Return e =>
          Ran (Session (messages st) (Some e) (question_count st))
              [Indexed uploaded_files; Success (length uploaded_files)]
              None
      | Raise e => Ran st [Indexed uploaded_files] (Some e)
      end
  | _, _ => Ran st [] None
  end.

(** [for message in st.session_state.messages: ...] *)
Definition display_part (st : session_state) : list effect :=
  map (fun m => ShowMessage (role m) (content m)) (messages st).

(** [if prompt := st.chat_input(...): ...] *)
Definition prompt_part (st : session_state) (prompt : string) : run_result :=
  if (limit <=? question_count st)%nat then
    Ran st [ShowError "assistant" limit_message] None
  else
    let msgs := messages st ++ [Message "user" prompt] in
    match query_engine st with
    | Some e =>
        match query e prompt with
        | Return response =>
            Ran (Session (msgs ++ [Message "assistant" response])
                   (query_engine st) (S (question_count st)))
                [ShowMessage "user" prompt; Queried prompt;
                 ShowMessage "assistant" response]
                None
        | Raise ex =>
            Ran (Session msgs (query_engine st) (question_count st))
                [ShowMessage "user" prompt; Queried prompt]
                (Some ex)
        end
    | None =>
        Ran (Session msgs (query_engine st) (question_count st))
            [ShowMessage "user" prompt; ShowError "assistant" upload_first_message]
            None
    end.

(** One run of the script: the files in the uploader and what the chat
    input returned ([None] or the text; an empty text counts as no prompt). *)
Definition run (st : session_state) (uploaded_files : list uploaded_file)
    (prompt : option string) : run_result :=
  let up := upload_part st uploaded_files in
  match raised up with
  | Some _ => up
  | None =>
      let shown := effects up ++ display_part (state up) in
      match prompt with
      | Some p =>
          if String.eqb p "" then Ran (state up) shown None
          else
            let pr := prompt_part (state up) p in
            Ran (state pr) (shown ++ effects pr) (raised pr)
      | None => Ran (state up) shown None
      end
  end.

(** The states a session can be in: the initial one and whatever a run
    leaves behind. *)
Inductive reachable : session_state -> Prop :=
| reach_initial : reachable initial
| reach_run st files prompt :
    reachable st -> reachable (state (run st files prompt)).

Definition is_query (e : effect) : Prop :=
  match e with Queried _ => True | _ => False end.

End Session.

Arguments Session {engine}.
Arguments messages {engine}.
Arguments query_engine {engine}.
Arguments question_count {engine}.
Arguments initial {engine}.
Arguments Indexed {uploaded_file}.
Arguments Success {uploaded_file}.
Arguments ShowMessage {uploaded_file}.
Arguments ShowError {uploaded_file}.
Arguments Queried {uploaded_file}.
Arguments Ran {uploaded_file engine}.
Arguments state {uploaded_file engine}.
Arguments effects {uploaded_file engine}.
Arguments raised {uploaded_file engine}.
Arguments upload_part {uploaded_file engine}.
Arguments display_part {uploaded_file engine}.
Arguments prompt_part {uploaded_file engine}.
Arguments run {uploaded_file engine}.
Arguments reachable {uploaded_file engine}.
Arguments is_query {uploaded_file}.

End Chat.

(** ** streamlit_pmi_extraction.py: the text of the pages *)

Module Gather.

(** [text.split("\n")]: the pieces between newlines, at least one. *)
Fixpoint split_lines (text : str) : list str :=
  match text with
  | [] => [[]]
  | c :: text' =>
      if Str.eqb_char c Re.newline then [] :: split_lines text'
      else match split_lines text' with
           | line :: lines => (c :: line) :: lines
           | [] => [[c]]
           end
  end.

(** ["\n".join(lines)] *)
Fixpoint join_lines (lines : list str) : str :=
  match lines with
  | [] => []
  | [line] => line
  | line :: lines' => line ++ Re.newline :: join_lines lines'
  end.

Definition note_keywords : list str :=
  [Config.s "NOTE"; Config.s "WELD"; Config.s "COATING"; Config.s "SURFACE"].

(** [any(k in line.upper() for k in ["NOTE", "WELD", "COATING", "SURFACE"])] *)
Definition is_note_line (line : str) : bool :=
  existsb (fun k => Str.contains k (Str.upper line)) note_keywords.

(** One round of the loop over the pages, on [(all_text, note_lines)];
    [text] is what [page.extract_text()] returned. *)
Definition gather_page (acc : list str * list str) (text : option str)
    : list str * list str :=
  match text with
  | None => acc
  | Some [] => acc
  | Some text =>
      let lines := split_lines text in
      (fst acc ++ lines,
       fold_left
         (fun notes line => if is_note_line line then notes ++ [Str.strip line] else notes)
         lines (snd acc))
  end.

Definition gather (pages : list (option str)) : list str * list str :=
  fold_left gather_page pages ([], []).

Definition all_text (pages : list (option str)) : list str := fst (gather pages).
Definition note_lines (pages : list (option str)) : list str := snd (gather pages).

Definition text_blob (pages : list (option str)) : str := join_lines (all_text pages).
Definition notes_blob (pages : list (option str)) : str := join_lines (note_lines pages).

End Gather.

(** ** streamlit_pmi_extraction.py: the outlines of the regex matches *)

Module Annotate.

Import Extraction.

Definition rgb : Type := (Z * Z * Z)%type.

Definition category_colors : gmap string rgb :=
  list_to_map
    [ ("material", (255, 0, 0));
      ("finish", (0, 255, 0));
      ("general_tolerance", (0, 0, 255));
      ("threads", (255, 165, 0));
      ("diameters", (128, 0, 128));
      ("standards", (255, 192, 203));
      ("weld_requirements", (0, 128, 128)) ]%Z.

(** [category_colors.get(category, (128, 128, 128))] *)
Definition grey : rgb := (128, 128, 128)%Z.

Definition color_of (category : string) : rgb :=
  default grey (category_colors !! category).

(** The loop over [patterns.items()] with its [break]: the first category
    whose pattern is found in [text]. *)
Definition first_category (text : str) : option string :=
  option_map fst
    (List.find (fun item => match Re.search (snd item) text with
                            | Some _ => true
                            | None => false
                            end)
               Config.patterns).

Section Draw.

Variable coord : Type.

(** [x - padding] and [x + padding] on page coordinates. *)
Variables minus plus : coord -> Z -> coord.

(** One call of [draw.rectangle]. *)
Record rectangle : Type := Rectangle {
  corners : bbox coord;
  outline : rgb;
  width : Z
}.

Definition padding : Z := 6.

(** One round of the loop over the words of the page. *)
Definition draw_word (w : pdf_word coord) : option rectangle :=
  match first_category (Str.upper (Config.s (w_text w))) with
  | Some category =>
      Some (Rectangle
              (BBox (minus (w_x0 coord w) padding) (minus (w_top coord w) padding)
                    (plus (w_x1 coord w) padding) (plus (w_bottom coord w) padding))
              (color_of category) 6)
  | None => None
  end.

Definition regex_outlines (words : list (pdf_word coord)) : list rectangle :=
  omap draw_word words.

End Draw.

Arguments Rectangle {coord}.
Arguments corners {coord}.
Arguments outline {coord}.
Arguments width {coord}.
Arguments draw_word {coord}.
Arguments regex_outlines {coord}.

End Annotate.

(** * Vocabulary of the statements

    Predicates, specification-level functions and sample inputs that the
    properties below are stated and proved with. *)

Section StrVocabulary.

Import Str.

(** Characters that are not letters; [upper] and [lower] leave them alone. *)
Definition caseless (c : ascii) : Prop := is_lower c = false /\ is_upper c = false.

(** The text does not go on with a character that passes [test]. *)
Definition stops (test : ascii -> bool) (tl : str) : Prop :=
  match tl with
  | c :: _ => test c = false
  | [] => True
  end.

Definition digit_or_point (c : ascii) : bool := is_digit c || eqb_char c ".".

(** A numeral [\d+(\.\d+)?] with its integer and fraction digits. *)
Inductive numeral : str -> str -> str -> Prop :=
| numeral_int (ds : str) :
    ds <> [] -> forallb is_digit ds = true -> numeral ds ds []
| numeral_dec (ds fs : str) :
    ds <> [] -> forallb is_digit ds = true ->
    fs <> [] -> forallb is_digit fs = true ->
    numeral (ds ++ "."%char :: fs) ds fs.

End StrVocabulary.

Section MatcherVocabulary.

Import Str Re Config.

(** The state once [read] has been passed and [tl] is left. *)
Definition moved (st : mstate) (read tl : str) : mstate :=
  MState (match last read with Some c => Some c | None => prev st end)
         tl (length read + pos st) (caps st).

(** The literal characters [l] match at the head of the text. *)
Fixpoint lits_prefix (icase : bool) (l text : str) : bool :=
  match l, text with
  | [], _ => true
  | _ :: _, [] => false
  | c :: l', x :: text' => lit_matches icase c x && lits_prefix icase l' text'
  end.

Definition lits (l : str) : regex := fold_right (fun c r => Seq (Lit c) r) Empty l.

(** The duty keyword, in lower case, that starts the lower-cased text. *)
Definition kw_at (t : str) : option string :=
  if prefixb (s "stud") t then Some "stud"
  else if prefixb (s "anchor") t then Some "anchor"
  else if prefixb (s "hole") t then Some "hole"
  else if prefixb (s "bolt") t then Some "bolt"
  else None.

(** The leftmost duty keyword of the lower-cased text. *)
Fixpoint first_kw (t : str) : option string :=
  match kw_at t with
  | Some k => Some k
  | None =>
      match t with
      | [] => None
      | _ :: t' => first_kw t'
      end
  end.

(** The duty type that a match of the type pattern stands for. *)
Definition duty_of (m : rmatch_obj) : string :=
  to_string (lower (group_text (group m 1))).

(** The unit that the size pattern reads at the head of the text. *)
Definition unit_at (icase : bool) (tl : str) : option str :=
  if lits_prefix icase (s "mm") tl then Some (take 2 tl)
  else if lits_prefix icase (s "in") tl then Some (take 2 tl)
  else if lits_prefix icase (s "inch") tl then Some (take 4 tl)
  else None.

(** After the number and the white space: the optional unit. *)
Definition with_unit (icase : bool) (st : mstate) : mstate :=
  match unit_at icase (rest st) with
  | Some u => set_cap 2 (pos st, (length u + pos st)%nat)
                (moved st u (drop (length u) (rest st)))
  | None => st
  end.


End MatcherVocabulary.

Section LabelVocabulary.

Import Config.

Definition diameter_labels : list string :=
  ["Class A Pipe"; "Class B Pipe"; "Class C Pipe"].

Definition thread_labels : list string :=
  ["Light Duty Stud"; "Heavy Duty Stud"; "Standard Anchor"; "Heavy Duty Anchor";
   "Standard Hole"; "Large Hole"].

Definition material_labels : list string :=
  ["Standard Stainless"; "Marine Grade Stainless"; "General Stainless";
   "Aircraft Grade Aluminum"; "General Aluminum"; "Decorative/Corrosion Resistant";
   "High Strength/Corrosion Resistant"; "High Performance Plastic"].

(** The labels that one of the three classifiers returns on some input. *)
Inductive produced_label (l : string) : Prop :=
| by_classify_diameter (v : string) (ls : list string) :
    classify_diameter v = Some ls -> l ∈ ls -> produced_label l
| by_classify_thread (v : string) (ls : list string) :
    classify_thread v = Some ls -> l ∈ ls -> produced_label l
| by_classify_material (v : string) :
    classify_material v = Some l -> produced_label l.

End LabelVocabulary.

Section LocatorVocabulary.

Import Extraction.

(** What the fuzzy loop holds after reading [words]: nothing while every
    score is zero, otherwise the first word with the highest score. *)
Definition fuzzy_inv {coord : Type} (text : string) (words : list (pdf_word coord))
    (acc : nat * option (pdf_word coord)) : Prop :=
  match snd acc with
  | None => fst acc = 0%nat /\ Forall (fun u => score text u = 0%nat) words
  | Some w =>
      fst acc = score text w /\ (0 < score text w)%nat /\
      exists before after,
        words = before ++ w :: after
        /\ Forall (fun u => (score text u < score text w)%nat) before
        /\ Forall (fun u => (score text u <= score text w)%nat) after
  end.

End LocatorVocabulary.

Section PipelineVocabulary.

Import Extraction.

(** A service that answers the two extraction passes and fails on the
    merge. *)
Definition quota_error : exn := Exception "insufficient_quota".

Definition demo_service (req : request) : outcome string :=
  if String.eqb (req_format_name req) "merged_fields"
  then Raise quota_error
  else Return "{}".

Definition demo_loads (text : string) : outcome json := Return (JDict []).
Definition demo_dumps (j : json) : string := "{}".

End PipelineVocabulary.

Section ChatVocabulary.

Import Chat.

(** What every run preserves: the counter stays within the limit, and it
    has only moved when an engine is there. *)
Definition session_ok {engine : Type} (st : session_state engine) : Prop :=
  (question_count st <= limit)%nat
  /\ ((0 < question_count st)%nat -> query_engine st <> None).

(** A session for illustration: files are names, the engine answers every
    question with the question itself. *)
Definition demo_index (files : list string) : outcome unit := Return tt.
Definition demo_query (e : unit) (p : string) : outcome string := Return p.

Definition demo_session (n : nat) : session_state unit :=
  Nat.iter n
    (fun st => state (run demo_index demo_query st ["datasheet.pdf"] (Some "How long?")))
    initial.

End ChatVocabulary.

Section SizeVocabulary.

Import Str Re Config.

(** The text after a numeral with fraction digits [fp] does not prolong it:
    it does not go on with a digit, nor, after a numeral without fraction,
    with a point and a digit. *)
Definition numeral_ends (fp tl : str) : Prop :=
  stops is_digit tl
  /\ (fp = [] ->
      match tl with
      | c0 :: c :: _ => eqb_char c0 "." = true -> is_digit c = false
      | _ => True
      end).

(** The shape of a match of the size pattern: a numeral as group 1, then
    white space, then the unit read at the head of what follows. *)
Definition size_shaped (icase : bool) (m : rmatch_obj) : Prop :=
  exists n ip fp sp tl,
    numeral n ip fp /\ forallb is_space sp = true
    /\ m_text m = n ++ sp ++ group_text (unit_at icase tl)
    /\ m_groups m = [Some n; unit_at icase tl].

End SizeVocabulary.

Section ClassificationVocabulary.

Import Config Extraction.

(** What one value contributes to the classifications of a field. *)
Definition yields (classifier : string -> classified) (v c : string) : Prop :=
  match classifier v with
  | CList labels => c ∈ labels
  | CStr label => c = label /\ label <> ""
  | CNone => False
  end.

End ClassificationVocabulary.

Section RegexPassVocabulary.

Import Str Re Config Extraction.

(** The match is kept: its first item is not "ING" in any letter case. *)
Definition kept (m : found) : Prop := upper (match_text m) <> s "ING".

(** What a kept match adds to the set of its field. *)
Definition stored_text (m : found) : string := to_string (strip (match_text m)).

(** No key of the dictionary holds an empty set. *)
Definition no_empty_set (d : gmap string (gset string)) : Prop :=
  forall l S, d !! l = Some S -> S <> ∅.

End RegexPassVocabulary.

Section ChatMoreVocabulary.

Import Chat.

(** The messages of one role in a transcript. *)
Definition count_role (r : string) (msgs : list message) : nat :=
  length (List.filter (fun m => String.eqb (role m) r) msgs).

Definition is_queryb {uploaded_file : Type} (e : effect uploaded_file) : bool :=
  match e with Queried _ => true | _ => false end.

Definition is_indexedb {uploaded_file : Type} (e : effect uploaded_file) : bool :=
  match e with Indexed _ => true | _ => false end.

End ChatMoreVocabulary.

Section GatherVocabulary.

Import Gather.

(** The texts of the pages that have one. *)
Definition page_texts (pages : list (option str)) : list str :=
  flat_map (fun text => match text with
                        | Some (c :: t) => [c :: t]
                        | _ => []
                        end) pages.

End GatherVocabulary.

(** * Properties *)

(** ** Strings *)

Section StrFacts.

Import Str.

Lemma eqb_char_eq (a b : ascii) : eqb_char a b = true <-> a = b.
Proof. apply Ascii.eqb_eq. Qed.

Lemma prefixb_spec (p x : str) :
  prefixb p x = true <-> exists r, x = p ++ r.
Proof.
  revert x. induction p as [|a p IH]; intros x; simpl.
  - split; [intros _; exists x; reflexivity | reflexivity].
  - destruct x as [|b x]; simpl.
    + split; [discriminate | intros [r Hr]; discriminate].
    + rewrite andb_true_iff, eqb_char_eq, IH. split.
      * intros [-> [r ->]]. exists r. reflexivity.
      * intros [r Hr]. injection Hr as -> ->. split; [reflexivity | exists r; reflexivity].
Qed.

(** [p in x] holds exactly when [x] is [l ++ p ++ r] for some [l], [r]. *)
Lemma contains_spec (p x : str) :
  contains p x = true <-> exists l r, x = l ++ p ++ r.
Proof.
  induction x as [|b x IH].
  - simpl. rewrite orb_false_r, prefixb_spec. split.
    + intros [r Hr]. exists [], r. exact Hr.
    + intros [l [r Hr]]. destruct l as [|c l]; [|discriminate].
      exists r. exact Hr.
  - cbn [contains]. rewrite orb_true_iff, prefixb_spec, IH. split.
    + intros [[r Hr] | [l [r Hr]]].
      * exists [], r. exact Hr.
      * exists (b :: l), r. rewrite Hr. reflexivity.
    + intros [l [r Hr]]. destruct l as [|c l].
      * left. exists r. exact Hr.
      * right. injection Hr as _ Hr. exists l, r. exact Hr.
Qed.

Lemma contains_mid (a p c x : str) :
  contains (a ++ p ++ c) x = true -> contains p x = true.
Proof.
  rewrite !contains_spec. intros [l [r ->]].
  exists (l ++ a), (c ++ r). rewrite <- !app_assoc. reflexivity.
Qed.

Lemma upper_app (a b : str) : upper (a ++ b) = upper a ++ upper b.
Proof. apply map_app. Qed.

Lemma lower_app (a b : str) : lower (a ++ b) = lower a ++ lower b.
Proof. apply map_app. Qed.

(** Changing the case of the text keeps every occurrence, with the case of
    the occurrence changed alike. *)
Lemma contains_upper (p x : str) :
  contains p x = true -> contains (upper p) (upper x) = true.
Proof.
  rewrite !contains_spec. intros [l [r ->]].
  exists (upper l), (upper r). rewrite !upper_app. reflexivity.
Qed.

Lemma is_upper_upper_char (b : ascii) : is_lower b = true -> is_upper (upper_char b) = true.
Proof. destruct b as [[] [] [] [] [] [] [] []]; vm_compute; congruence. Qed.

Lemma is_lower_lower_char (b : ascii) : is_upper b = true -> is_lower (lower_char b) = true.
Proof. destruct b as [[] [] [] [] [] [] [] []]; vm_compute; congruence. Qed.

Lemma eqb_char_false (a b : ascii) : a <> b -> eqb_char a b = false.
Proof.
  intros H. destruct (eqb_char a b) eqn:E; [|reflexivity].
  apply eqb_char_eq in E. contradiction.
Qed.

Lemma eqb_char_upper_caseless (c b : ascii) :
  caseless c -> eqb_char c (upper_char b) = eqb_char c b.
Proof.
  intros [Hl Hu]. destruct (is_lower b) eqn:E.
  - rewrite !eqb_char_false; [reflexivity | |].
    + intros ->. congruence.
    + intros ->. apply is_upper_upper_char in E. congruence.
  - unfold upper_char. rewrite E. reflexivity.
Qed.

Lemma prefixb_upper_caseless (p x : str) :
  Forall caseless p -> prefixb p (upper x) = prefixb p x.
Proof.
  intros Hp. revert x. induction Hp as [|a p Ha Hp IH]; intros x; [reflexivity|].
  destruct x as [|b x]; [reflexivity|]. simpl.
  rewrite IH, eqb_char_upper_caseless by exact Ha. reflexivity.
Qed.

(** A pattern without letters occurs in [upper x] exactly when it occurs
    in [x]. *)
Lemma contains_upper_caseless (p x : str) :
  Forall caseless p -> contains p (upper x) = contains p x.
Proof.
  intros Hp. induction x as [|b x IH].
  - reflexivity.
  - change (upper (b :: x)) with (upper_char b :: upper x).
    cbn [contains]. rewrite IH. f_equal.
    apply (prefixb_upper_caseless p (b :: x) Hp).
Qed.

End StrFacts.

(** ** Material classifier *)

Section MaterialFacts.

Import Str Config.

Lemma brass_has_ss (x : str) :
  contains (s "BRASS") x = true -> contains (s "SS") x = true.
Proof. apply (contains_mid (s "BRA") (s "SS") []). Qed.

Lemma stainless_upper (v : string) :
  contains (s "STAINLESS") (s v) = true ->
  contains (s "STAINLESS") (upper (s v)) = true.
Proof. intros H. apply contains_upper in H. exact H. Qed.

Lemma digits_caseless_304 : Forall caseless (s "304").
Proof. repeat constructor. Qed.

Lemma digits_caseless_316 : Forall caseless (s "316").
Proof. repeat constructor. Qed.

(** C3 (the code departs from the claim). [classify_material "Brass"] is
    "General Stainless", not "Decorative/Corrosion Resistant": the upper-cased
    input "BRASS" contains "SS", so the stainless branch is taken. Since every
    text that contains "BRASS" contains "SS", no input at all is ever
    classified "Decorative/Corrosion Resistant". *)
Theorem classify_material_brass_shadowed :
  classify_material "Brass" = Some "General Stainless"
  /\ forall v : string,
       classify_material v <> Some "Decorative/Corrosion Resistant".
Proof.
  split; [reflexivity|].
  intros v. unfold classify_material.
  destruct (contains (s "STAINLESS") (upper (s v)) || contains (s "SS") (upper (s v)))
    eqn:Ess.
  - destruct (contains (s "304") _); [discriminate|].
    destruct (contains (s "316") _); discriminate.
  - destruct (contains (s "ALUMINUM") (upper (s v)) || contains (s "AL") (upper (s v))).
    + destruct (contains (s "6061") _); discriminate.
    + destruct (contains (s "BRASS") (upper (s v))) eqn:Eb.
      * apply brass_has_ss in Eb. rewrite Eb, orb_true_r in Ess. discriminate.
      * destruct (contains (s "BRONZE") _); [discriminate|].
        destruct (contains (s "PEEK") _); discriminate.
Qed.

(** C5, as stated, fails: a text with "STAINLESS" and "316" that also holds
    "304" is classified "Standard Stainless", since grade 304 is tested
    first. *)
Lemma marine_grade_counterexample :
  ~ (forall v : string,
       contains (s "STAINLESS") (s v) = true ->
       contains (s "316") (s v) = true ->
       classify_material v = Some "Marine Grade Stainless").
Proof.
  intros H. specialize (H "STAINLESS 304/316" eq_refl eq_refl). discriminate H.
Qed.

(** C5 (amended). Every input that contains "STAINLESS" and "316" and does
    not contain "304" is classified exactly "Marine Grade Stainless". *)
Theorem classify_material_marine (v : string) :
  contains (s "STAINLESS") (s v) = true ->
  contains (s "316") (s v) = true ->
  contains (s "304") (s v) = false ->
  classify_material v = Some "Marine Grade Stainless".
Proof.
  intros Hst H316 H304. unfold classify_material.
  rewrite (stainless_upper v Hst). cbn [orb].
  rewrite (contains_upper_caseless _ _ digits_caseless_304), H304.
  rewrite (contains_upper_caseless _ _ digits_caseless_316), H316.
  reflexivity.
Qed.

Lemma classify_material_marine_witness :
  contains (s "STAINLESS") (s "STAINLESS STEEL 316L") = true
  /\ contains (s "316") (s "STAINLESS STEEL 316L") = true
  /\ contains (s "304") (s "STAINLESS STEEL 316L") = false
  /\ classify_material "STAINLESS STEEL 316L" = Some "Marine Grade Stainless".
Proof.
  split; [reflexivity|]. split; [reflexivity|]. split; [reflexivity|].
  apply (classify_material_marine "STAINLESS STEEL 316L"); reflexivity.
Defined.

End MaterialFacts.

(** ** Label sets of the classifiers *)

Section LabelFacts.

Import Config.

Lemma elem_of_add_opt (o : option string) (acc : gset string) (l : string) :
  l ∈ add_opt o acc <-> l ∈ acc \/ o = Some l.
Proof.
  destruct o as [l'|]; simpl.
  - rewrite elem_of_union, elem_of_singleton. split.
    + intros [H | ->]; [left; exact H | right; reflexivity].
    + intros [H | H]; [left; exact H | right; congruence].
  - split; [intros H; left; exact H | intros [H | H]; [exact H | discriminate]].
Qed.

(** The labels gathered by a loop that adds [f m] for every match [m]. *)
Lemma elem_of_fold_add_opt {A : Type} (f : A -> option string) (ms : list A)
    (acc : gset string) (l : string) :
  l ∈ fold_left (fun acc m => add_opt (f m) acc) ms acc
  <-> l ∈ acc \/ exists m, m ∈ ms /\ f m = Some l.
Proof.
  revert acc. induction ms as [|m ms IH]; intros acc; simpl.
  - split; [intros H; left; exact H|].
    intros [H | [m [Hm _]]]; [exact H|]. apply elem_of_nil in Hm. contradiction.
  - rewrite IH, elem_of_add_opt. split.
    + intros [[H | H] | [m' [Hm' Hf]]].
      * left. exact H.
      * right. exists m. split; [apply list_elem_of_here | exact H].
      * right. exists m'. split; [apply list_elem_of_further; exact Hm' | exact Hf].
    + intros [H | [m' [Hm' Hf]]].
      * left. left. exact H.
      * apply elem_of_cons in Hm'. destruct Hm' as [-> | Hm'].
        -- left. right. exact Hf.
        -- right. exists m'. split; assumption.
Qed.

Lemma elem_of_list_or_none (c : gset string) (ls : list string) (l : string) :
  list_or_none c = Some ls -> (l ∈ ls <-> l ∈ c).
Proof.
  unfold list_or_none. destruct (decide (c = ∅)); [discriminate|].
  intros [= <-]. apply elem_of_elements.
Qed.

Lemma list_or_none_None (c : gset string) : list_or_none c = None <-> c = ∅.
Proof.
  unfold list_or_none. destruct (decide (c = ∅)) as [E | E].
  - split; [intros _; exact E | reflexivity].
  - split; [discriminate | intros H; contradiction].
Qed.

(** A label is in the result of [classify_diameter] exactly when the band
    of some match of the size pattern is that label. *)
Lemma elem_of_diameter_classes (value l : string) :
  l ∈ diameter_classes value
  <-> exists m, m ∈ Re.finditer (size_pattern true) (s value)
                /\ diameter_band (diameter_inches m) = Some l.
Proof.
  unfold diameter_classes.
  rewrite (elem_of_fold_add_opt (fun m => diameter_band (diameter_inches m))).
  split; [intros [H | H]; [|exact H] | intros H; right; exact H].
  apply not_elem_of_empty in H. contradiction.
Qed.

Lemma elem_of_thread_classes (value l : string) :
  l ∈ thread_classes value
  <-> exists m, m ∈ Re.finditer (size_pattern false) (s value)
                /\ thread_label (thread_type value) (thread_mm m) = Some l.
Proof.
  unfold thread_classes.
  rewrite (elem_of_fold_add_opt (fun m => thread_label (thread_type value) (thread_mm m))).
  split; [intros [H | H]; [|exact H] | intros H; right; exact H].
  apply not_elem_of_empty in H. contradiction.
Qed.

Lemma diameter_band_label (x : F64.float) (l : string) :
  diameter_band x = Some l -> l ∈ diameter_labels.
Proof.
  unfold diameter_band, diameter_labels.
  repeat (match goal with |- context [if ?b then _ else _] => destruct b end);
    intros [= <-]; set_solver.
Qed.

Lemma thread_label_label (t : string) (x : F64.float) (l : string) :
  thread_label t x = Some l -> l ∈ thread_labels.
Proof.
  unfold thread_label, thread_labels.
  repeat (match goal with |- context [if ?b then _ else _] => destruct b end);
    intros [= <-]; set_solver.
Qed.

Lemma classify_material_label (v l : string) :
  classify_material v = Some l -> l ∈ material_labels.
Proof.
  unfold classify_material, material_labels.
  repeat (match goal with |- context [if ?b then _ else _] => destruct b end);
    intros [= <-]; set_solver.
Qed.

Lemma all_labels_colored (l : string) :
  l ∈ diameter_labels ++ thread_labels ++ material_labels ->
  CLASSIFICATION_COLORS !! l = Some (Extraction.chip_color l).
Proof.
  intros H. unfold diameter_labels, thread_labels, material_labels in H.
  cbn [app] in H.
  repeat (apply elem_of_cons in H; destruct H as [-> | H]; [vm_compute; reflexivity|]).
  apply elem_of_nil in H. contradiction.
Qed.

End LabelFacts.

(** ** Colours of the labels *)

Section ColorFacts.

Import Config.

Lemma produced_label_known (l : string) :
  produced_label l -> l ∈ diameter_labels ++ thread_labels ++ material_labels.
Proof.
  intros [v ls Hv Hl | v ls Hv Hl | v Hv].
  - apply (elem_of_list_or_none _ _ l) in Hv. apply Hv in Hl.
    apply elem_of_diameter_classes in Hl. destruct Hl as [m [_ Hm]].
    apply diameter_band_label in Hm. apply elem_of_app. left. exact Hm.
  - apply (elem_of_list_or_none _ _ l) in Hv. apply Hv in Hl.
    apply elem_of_thread_classes in Hl. destruct Hl as [m [_ Hm]].
    apply thread_label_label in Hm. apply elem_of_app. right.
    apply elem_of_app. left. exact Hm.
  - apply classify_material_label in Hv. apply elem_of_app. right.
    apply elem_of_app. right. exact Hv.
Qed.

(** C10. Every label that [classify_diameter], [classify_thread] or
    [classify_material] returns on any input is a key of
    [CLASSIFICATION_COLORS]; the colour shown for it is the entry of the
    table, never the fallback of [.get]. *)
Theorem produced_label_has_color (l : string) :
  produced_label l ->
  CLASSIFICATION_COLORS !! l = Some (Extraction.chip_color l).
Proof. intros H. apply all_labels_colored, produced_label_known, H. Qed.

(** The same for the labels that the page shows: [get_classifications]
    only returns labels of the classifier of the field. *)
Lemma get_classifications_produced (field_name : string) (values : list string)
    (c : string) :
  c ∈ Extraction.get_classifications field_name values -> produced_label c.
Proof.
  unfold Extraction.get_classifications.
  destruct (CLASSIFICATION_MAPPING !! field_name) as [classifier|] eqn:E.
  2: { intros H. apply elem_of_nil in H. contradiction. }
  intros H. rewrite merge_sort_Permutation, elem_of_elements in H.
  assert (forall v, match classifier v with
                    | CList labels => forall l, l ∈ labels -> produced_label l
                    | CStr label => produced_label label
                    | CNone => True
                    end) as Hcl.
  { unfold CLASSIFICATION_MAPPING in E. cbn [list_to_map foldr uncurry fst snd] in E.
    apply lookup_insert_Some in E. destruct E as [[_ <-] | [_ E]].
    { intros v. unfold of_list_result. destruct (classify_diameter v) as [ls|] eqn:Ev; [|exact I].
      intros l Hl. exact (by_classify_diameter l v ls Ev Hl). }
    apply lookup_insert_Some in E. destruct E as [[_ <-] | [_ E]].
    { intros v. unfold of_list_result. destruct (classify_thread v) as [ls|] eqn:Ev; [|exact I].
      intros l Hl. exact (by_classify_thread l v ls Ev Hl). }
    apply lookup_insert_Some in E. destruct E as [[_ <-] | [_ E]].
    { intros v. unfold of_str_result. destruct (classify_material v) as [l|] eqn:Ev; [|exact I].
      exact (by_classify_material l v Ev). }
    rewrite lookup_empty in E. discriminate. }
  revert H.
  assert (forall acc : gset string,
            (forall x, x ∈ acc -> produced_label x) ->
            c ∈ fold_left
                  (fun (acc : gset string) value =>
                     match classifier value with
                     | CList labels =>
                         match labels with [] => acc | _ => acc ∪ list_to_set labels end
                     | CStr label =>
                         if String.eqb label "" then acc else acc ∪ {[ label ]}
                     | CNone => acc
                     end) values acc ->
            produced_label c) as Hfold.
  { induction values as [|v values IH]; intros acc Hacc; cbn [fold_left].
    - apply Hacc.
    - apply IH. specialize (Hcl v). destruct (classifier v) as [labels | label |].
      + destruct labels as [|l0 labels]; [exact Hacc|].
        intros x Hx. apply elem_of_union in Hx. destruct Hx as [Hx | Hx]; [apply Hacc, Hx|].
        apply elem_of_list_to_set in Hx. apply Hcl, Hx.
      + destruct (String.eqb label ""); [exact Hacc|].
        intros x Hx. apply elem_of_union in Hx. destruct Hx as [Hx | Hx]; [apply Hacc, Hx|].
        apply elem_of_singleton in Hx. subst x. exact Hcl.
      + exact Hacc. }
  intros H. apply (Hfold ∅); [|exact H].
  intros x Hx. apply not_elem_of_empty in Hx. contradiction.
Qed.

Lemma get_classifications_colored (field_name : string) (values : list string)
    (c : string) :
  c ∈ Extraction.get_classifications field_name values ->
  Extraction.chip_color c <> Extraction.fallback_color
  /\ CLASSIFICATION_COLORS !! c = Some (Extraction.chip_color c).
Proof.
  intros H. apply get_classifications_produced, produced_label_known in H.
  split; [|apply all_labels_colored, H].
  unfold diameter_labels, thread_labels, material_labels in H. cbn [app] in H.
  repeat (apply elem_of_cons in H; destruct H as [-> | H]; [vm_compute; discriminate|]).
  apply elem_of_nil in H. contradiction.
Qed.

Lemma produced_label_has_color_witness :
  produced_label "Light Duty Stud"
  /\ CLASSIFICATION_COLORS !! "Light Duty Stud"
     = Some (Extraction.chip_color "Light Duty Stud").
Proof.
  assert (produced_label "Light Duty Stud") as H.
  { apply (by_classify_thread _ "M8x1.25 stud" ["Light Duty Stud"]).
    - vm_compute. reflexivity.
    - apply list_elem_of_here. }
  split; [exact H|].
  apply (produced_label_has_color "Light Duty Stud" H).
Defined.

End ColorFacts.

(** ** Source locator *)

Section LocatorFacts.

Import Extraction.

Context {coord : Type}.
Implicit Types (w u : pdf_word coord) (words : list (pdf_word coord)).

Lemma existsb_false_score (text : string) w :
  existsb (fun part => occurs_in part w) (Str.split (Config.s text)) = false ->
  score text w = 0%nat.
Proof.
  unfold score. induction (Str.split (Config.s text)) as [|p ps IH]; simpl.
  - reflexivity.
  - intros H. apply orb_false_iff in H. destruct H as [Hp Hps].
    rewrite filter_cons_False by (rewrite Hp; discriminate). apply IH, Hps.
Qed.

(** The round of the fuzzy loop keeps the better of the two: the word just
    read wins only with a strictly larger score. *)
Lemma fuzzy_step_eq (text : string) (acc : nat * option (pdf_word coord)) w :
  fuzzy_step text acc w
  = if (fst acc <? score text w)%nat then (score text w, Some w) else acc.
Proof.
  unfold fuzzy_step.
  destruct (existsb _ _) eqn:E; [reflexivity|].
  rewrite (existsb_false_score _ _ E).
  destruct (fst acc <? 0)%nat eqn:E'; [|reflexivity].
  apply Nat.ltb_lt in E'. lia.
Qed.

Lemma fuzzy_inv_step (text : string) words acc w :
  fuzzy_inv text words acc ->
  fuzzy_inv text (words ++ [w]) (fuzzy_step text acc w).
Proof.
  rewrite fuzzy_step_eq. unfold fuzzy_inv.
  destruct acc as [b [m|]]; cbn [fst snd].
  - intros [-> [Hpos [before [after [-> [Hb Ha]]]]]].
    destruct (score text m <? score text w)%nat eqn:E; cbn [fst snd].
    + apply Nat.ltb_lt in E. split; [reflexivity|]. split; [lia|].
      exists (before ++ m :: after), []. split; [reflexivity|]. split; [|constructor].
      apply Forall_app. split.
      * eapply Forall_impl; [exact Hb|]. intros u Hu. simpl in Hu. lia.
      * constructor; [exact E|].
        eapply Forall_impl; [exact Ha|]. intros u Hu. simpl in Hu. lia.
    + apply Nat.ltb_ge in E. split; [reflexivity|]. split; [exact Hpos|].
      exists before, (after ++ [w]). split; [rewrite <- app_assoc; reflexivity|].
      split; [exact Hb|]. apply Forall_app. split; [exact Ha|].
      constructor; [exact E | constructor].
  - intros [-> Hall].
    destruct (0 <? score text w)%nat eqn:E; cbn [fst snd].
    + apply Nat.ltb_lt in E. split; [reflexivity|]. split; [exact E|].
      exists words, []. split; [reflexivity|]. split; [|constructor].
      eapply Forall_impl; [exact Hall|]. intros u Hu. simpl in Hu. lia.
    + apply Nat.ltb_ge in E. split; [reflexivity|].
      apply Forall_app. split; [exact Hall|]. constructor; [lia | constructor].
Qed.

Lemma fuzzy_inv_fold (text : string) (done todo : list (pdf_word coord)) acc :
  fuzzy_inv text done acc ->
  fuzzy_inv text (done ++ todo) (fold_left (fuzzy_step text) todo acc).
Proof.
  revert done acc. induction todo as [|w todo IH]; intros done acc H; simpl.
  - rewrite app_nil_r. exact H.
  - replace (done ++ w :: todo) with ((done ++ [w]) ++ todo)
      by (rewrite <- app_assoc; reflexivity).
    apply IH, fuzzy_inv_step, H.
Qed.

(** The fuzzy pass returns the first word with the highest score when some
    score is positive, and nothing when every score is zero. *)
Lemma fuzzy_pass_spec (text : string) words :
  match fuzzy_pass words text with
  | Some w =>
      (0 < score text w)%nat /\
      exists before after,
        words = before ++ w :: after
        /\ Forall (fun u => (score text u < score text w)%nat) before
        /\ Forall (fun u => (score text u <= score text w)%nat) after
  | None => Forall (fun u => score text u = 0%nat) words
  end.
Proof.
  pose proof (fuzzy_inv_fold text [] words (0%nat, None)) as H.
  unfold fuzzy_pass. cbn [app] in H.
  unfold fuzzy_inv in H.
  destruct (snd (fold_left (fuzzy_step text) words (0%nat, None))) as [w|].
  - apply H. cbn. split; [reflexivity | constructor].
  - apply H. cbn. split; [reflexivity | constructor].
Qed.

(** The exact pass returns the first word that holds the snippet. *)
Lemma exact_pass_None (text : string) words :
  exact_pass words text = None
  <-> Forall (fun u => occurs_in (Config.s text) u = false) words.
Proof.
  unfold exact_pass. induction words as [|w words IH]; simpl.
  - split; [constructor | reflexivity].
  - destruct (occurs_in (Config.s text) w) eqn:E.
    + split; [discriminate|]. intros H. inversion H; subst. congruence.
    + rewrite IH. split.
      * intros H. constructor; assumption.
      * intros H. inversion H; subst. assumption.
Qed.

End LocatorFacts.

Section LocatorClaims.

Import Extraction.

(** C4, as stated, fails: with an empty context the fuzzy pass is skipped.
    The page word "M8x1.25" does not hold the snippet "M8 bolt" but scores 1
    on it, and yet nothing is located. *)
Lemma empty_context_counterexample :
  exact_pass [Word "M8x1.25" 1 2 3 4]%Z "M8 bolt" = None
  /\ score "M8 bolt" (Word "M8x1.25" 1 2 3 4)%Z = 1%nat
  /\ find_text_locations [Word "M8x1.25" 1 2 3 4]%Z "M8 bolt" "" = None
  /\ find_text_locations [Word "M8x1.25" 1 2 3 4]%Z "M8 bolt" "flange"
     = Some (BBox 1 2 3 4)%Z.
Proof. vm_compute. repeat split. Qed.

(** C4 (amended). When no page word holds the snippet as a case-insensitive
    substring and the context is not empty, the fuzzy pass decides: the
    result is the box of the first word with the highest count of snippet
    words, provided some count is positive, and nothing otherwise. When the
    context is empty the fuzzy pass does not run and nothing is located. *)
Theorem find_text_locations_fallback {coord : Type}
    (words : list (pdf_word coord)) (text context : string) :
  exact_pass words text = None ->
  (context = "" -> find_text_locations words text context = None)
  /\ (context <> "" ->
      match find_text_locations words text context with
      | Some box =>
          exists before w after,
            words = before ++ w :: after /\ box = box_of w
            /\ (0 < score text w)%nat
            /\ Forall (fun u => (score text u < score text w)%nat) before
            /\ Forall (fun u => (score text u <= score text w)%nat) after
      | None => Forall (fun u => score text u = 0%nat) words
      end).
Proof.
  intros Hexact. unfold find_text_locations. rewrite Hexact. split.
  - intros ->. reflexivity.
  - intros Hctx. apply String.eqb_neq in Hctx. rewrite Hctx. cbn [negb].
    pose proof (fuzzy_pass_spec text words) as H.
    destruct (fuzzy_pass words text) as [w|]; [|exact H].
    destruct H as [Hpos [before [after [Hw [Hb Ha]]]]].
    exists before, w, after. repeat split; assumption.
Qed.

Lemma find_text_locations_fallback_witness :
  exact_pass [Word "FLANGE" 0 0 5 1; Word "M8x1.25" 1 2 3 4]%Z "M8 bolt" = None
  /\ find_text_locations [Word "FLANGE" 0 0 5 1; Word "M8x1.25" 1 2 3 4]%Z
       "M8 bolt" "" = None.
Proof.
  assert (exact_pass [Word "FLANGE" 0 0 5 1; Word "M8x1.25" 1 2 3 4]%Z "M8 bolt"
          = None) as H by (vm_compute; reflexivity).
  split; [exact H|].
  exact (proj1 (find_text_locations_fallback _ "M8 bolt" "" H) eq_refl).
Defined.

End LocatorClaims.

(** ** Chat session *)

Section ChatFacts.

Import Chat.

Context {uploaded_file engine : Type}.
Variable index_documents : list uploaded_file -> outcome engine.
Variable query : engine -> string -> outcome string.

Implicit Types (st : session_state engine) (files : list uploaded_file).

Lemma upload_part_ok st files :
  session_ok st -> session_ok (state (upload_part index_documents st files)).
Proof.
  intros H. unfold upload_part.
  destruct files as [|f files]; [exact H|].
  destruct (query_engine st) eqn:E; [exact H|].
  destruct (index_documents (f :: files)); cbn; [|exact H].
  destruct H as [Hle _]. split; [exact Hle | discriminate].
Qed.

Lemma prompt_part_ok st p :
  session_ok st -> session_ok (state (prompt_part (uploaded_file := uploaded_file) query st p)).
Proof.
  intros H. unfold prompt_part.
  destruct (limit <=? question_count st)%nat eqn:E; [exact H|].
  apply Nat.leb_gt in E. destruct H as [Hle Heng].
  destruct (query_engine st) as [e|] eqn:Ee.
  - destruct (query e p); cbn.
    + split; [cbn; lia | cbn; discriminate].
    + split; [exact Hle | cbn; discriminate].
  - cbn. split; [exact Hle | exact Heng].
Qed.

Lemma run_ok st files prompt :
  session_ok st -> session_ok (state (run index_documents query st files prompt)).
Proof.
  intros H. unfold run.
  pose proof (upload_part_ok st files H) as Hup.
  destruct (raised (upload_part index_documents st files)); [exact Hup|].
  destruct prompt as [p|]; [|exact Hup].
  destruct (String.eqb p ""); [exact Hup|].
  cbn. apply prompt_part_ok, Hup.
Qed.

Lemma reachable_ok st : reachable index_documents query st -> session_ok st.
Proof.
  induction 1 as [|st files prompt _ IH].
  - split; cbn; [unfold limit; lia | lia].
  - apply run_ok, IH.
Qed.

(** C7. In every reachable state of the session the counter of accepted
    questions is at most 15. In a reachable state where it is 15, a run with
    a prompt leaves the state as it is (so the counter does not move), shows
    the transcript followed by the limit message, and does not call the
    query engine, whatever files are in the uploader. *)
Theorem question_count_capped st :
  reachable index_documents query st ->
  (question_count st <= 15)%nat
  /\ ((question_count st = 15)%nat ->
      forall files (p : string), p <> "" ->
        run index_documents query st files (Some p)
        = Ran st (display_part st ++ [ShowError "assistant" limit_message]) None
        /\ Forall (fun e => ~ is_query e)
             (effects (run index_documents query st files (Some p)))).
Proof.
  intros Hreach. destruct (reachable_ok st Hreach) as [Hle Heng].
  split; [exact Hle|].
  intros H15 files p Hp.
  assert (run index_documents query st files (Some p)
          = Ran st (display_part st ++ [ShowError "assistant" limit_message]) None)
    as Hrun.
  { unfold run, upload_part.
    assert (query_engine st <> None) as Hsome by (apply Heng; lia).
    destruct (query_engine st) as [e|] eqn:Ee; [|contradiction].
    assert (match files with
            | [] => Ran (uploaded_file := uploaded_file) st [] None
            | _ :: _ => Ran st [] None
            end = Ran st [] None) as -> by (destruct files; reflexivity).
    cbn [raised state effects app].
    apply String.eqb_neq in Hp. rewrite Hp.
    unfold prompt_part. rewrite H15. cbn. reflexivity. }
  split; [exact Hrun|].
  rewrite Hrun. cbn [effects]. apply Forall_app. split.
  - unfold display_part. apply Forall_forall. intros e He.
    apply list_elem_of_fmap in He. destruct He as [m [-> _]]. cbn. tauto.
  - constructor; [cbn; tauto | constructor].
Qed.

End ChatFacts.

Section ChatDemo.

Import Chat.

Lemma demo_session_reachable (n : nat) :
  reachable demo_index demo_query (demo_session n).
Proof.
  induction n as [|n IH]; [apply reach_initial|].
  apply (reach_run _ _ _ _ (demo_session n)), IH.
Qed.

Lemma question_count_capped_witness :
  reachable demo_index demo_query (demo_session 20)
  /\ (question_count (demo_session 20) <= 15)%nat.
Proof.
  split; [apply demo_session_reachable|].
  exact (proj1 (question_count_capped demo_index demo_query (demo_session 20)
                  (demo_session_reachable 20))).
Defined.

End ChatDemo.

(** ** Model-backed passes *)

Section PipelineFacts.

Import Extraction.

Variable responses_create : request -> outcome string.
Variable json_loads : string -> outcome json.
Variable json_dumps : json -> string.
Variable system_prompt : string.

(** [llm_pass] turns a failure of the service, or of decoding its answer,
    into the error object of that pass. *)
Lemma llm_pass_service_failure (prompt_text name : string) (e : exn) :
  responses_create
    (Request gpt_model [("system", system_prompt); ("user", prompt_text)] name)
  = Raise e ->
  llm_pass responses_create json_loads system_prompt prompt_text name
  = JDict [("error", JString (str_of_exn e))].
Proof. intros H. unfold llm_pass. rewrite H. reflexivity. Qed.

Lemma llm_pass_decode_failure (prompt_text name output_text : string) (e : exn) :
  responses_create
    (Request gpt_model [("system", system_prompt); ("user", prompt_text)] name)
  = Return output_text ->
  json_loads output_text = Raise e ->
  llm_pass responses_create json_loads system_prompt prompt_text name
  = JDict [("error", JString (str_of_exn e))].
Proof. intros H1 H2. unfold llm_pass. rewrite H1. cbn. rewrite H2. reflexivity. Qed.

(** C2 (the code departs from the claim). The merge call is not guarded:
    when the service fails on the request named "merged_fields", the
    exception leaves [extract], whatever the two earlier passes returned; no
    error object is produced for the merge and nothing after it runs. *)
Theorem merge_failure_escapes (text_blob notes_blob : string) (e : exn) :
  (forall req, req_format_name req = "merged_fields" -> responses_create req = Raise e) ->
  extract responses_create json_loads json_dumps system_prompt text_blob notes_blob
  = Raise e.
Proof. intros H. unfold extract. rewrite H by reflexivity. reflexivity. Qed.

End PipelineFacts.

Section PipelineDemo.

Import Extraction.

Lemma merge_failure_escapes_witness :
  (forall req, req_format_name req = "merged_fields" ->
               demo_service req = Raise quota_error)
  /\ llm_pass demo_service demo_loads "" "NOTE: WELD ALL AROUND" "notes_extraction"
     = JDict []
  /\ extract demo_service demo_loads demo_dumps "" "M8x1.25 stud" "NOTE: WELD ALL AROUND"
     = Raise quota_error.
Proof.
  assert (forall req, req_format_name req = "merged_fields" ->
                      demo_service req = Raise quota_error) as H.
  { intros req Hreq. unfold demo_service. rewrite Hreq. reflexivity. }
  split; [exact H|]. split; [reflexivity|].
  exact (merge_failure_escapes demo_service demo_loads demo_dumps ""
           "M8x1.25 stud" "NOTE: WELD ALL AROUND" quota_error H).
Defined.

End PipelineDemo.

(** ** Regex pass *)

Section RegexPassFacts.

Import Extraction.

(** C1 (the code departs from the claim). The regex pass stores what
    [findall] returns, and for a pattern with groups that is the text of
    group 1, not the matched substring: the tolerance "±0.5mm" is stored as
    "±", the diameter "DIA 20" as "DIA", the standard "ASTM-A36" as "ASTM", the
    roughness "Ra 3.2 um" as ".2", and a weld note as the empty string ("ING"
    being dropped). Only where group 1 spans the whole pattern (material,
    finish, threads) is the matched substring stored. *)
Theorem regex_pass_keeps_first_group :
  extracted_for "general_tolerance" "±0.5mm" = {[ "±" ]}
  /\ extracted_for "diameters" "DIA 20" = {[ "DIA" ]}
  /\ extracted_for "standards" "ASTM-A36" = {[ "ASTM" ]}
  /\ extracted_for "surface_roughness" "Ra 3.2 um" = {[ ".2" ]}
  /\ extracted_for "weld_notes" "WELD ALL AROUND" = {[ "" ]}
  /\ extracted_for "weld_notes" "WELDING REQUIRED" = ∅
  /\ extracted_for "threads" "M8x1.25 stud" = {[ "M8x1.25" ]}
  /\ extracted_for "material" "SS316 flange" = {[ "SS316" ]}.
Proof. repeat split; vm_compute; reflexivity. Qed.

End RegexPassFacts.

(** ** The matcher on literal words and on runs of one character class *)

Section MatcherFacts.

Import Re.

Lemma word_lits (w : string) : word w = lits (Str.of_string w).
Proof. reflexivity. Qed.

Lemma moved_nil (st : mstate) : moved st [] (rest st) = st.
Proof. destruct st as [pv tx i cs]. reflexivity. Qed.

Lemma moved_cons (pv : option ascii) (x : ascii) (text : str) (i : nat)
    (cs : list (nat * (nat * nat))) (read tl : str) :
  moved (MState (Some x) text (S i) cs) read tl = moved (MState pv (x :: text) i cs) (x :: read) tl.
Proof.
  unfold moved. cbn [prev pos caps]. f_equal.
  - destruct read as [|c read]; [reflexivity|].
    change (last (x :: c :: read)) with (last (c :: read)).
    destruct (last (c :: read)) eqn:E; [reflexivity|].
    apply last_None in E. discriminate.
  - cbn [length]. lia.
Qed.

(** A sequence of literals either matches as a whole and moves past it, or
    fails. *)
Lemma rmatch_lits (icase : bool) (l : str) (st : mstate)
    (k : mstate -> option mstate) :
  rmatch icase (lits l) st k
  = if lits_prefix icase l (rest st)
    then k (moved st (take (length l) (rest st)) (drop (length l) (rest st)))
    else None.
Proof.
  revert st. induction l as [|c l IH]; intros st.
  - cbn. rewrite moved_nil. reflexivity.
  - destruct st as [pv text i cs]. cbn [lits fold_right rmatch].
    unfold step_if. cbn [rest].
    destruct text as [|x text]; [reflexivity|].
    cbn [lits_prefix length take drop pos caps].
    destruct (lit_matches icase c x); [|reflexivity]. cbn [andb].
    fold (lits l). rewrite IH. cbn [rest].
    destruct (lits_prefix icase l text); [|reflexivity].
    rewrite (moved_cons pv). reflexivity.
Qed.

(** A greedy repetition of a one-character test passes the whole run of
    characters that satisfy the test, when what follows succeeds there. *)
Lemma repeat_greedy_run (test : ascii -> bool) (read tl : str) :
  forallb test read = true ->
  match tl with c :: _ => test c = false | [] => True end ->
  forall (n : nat) (st : mstate) (k : mstate -> option mstate),
    rest st = read ++ tl ->
    (length (rest st) <= n)%nat ->
    is_Some (k (moved st read tl)) ->
    repeat_greedy (step_if test) n st k = k (moved st read tl).
Proof.
  intros Hread Htl. induction read as [|x read IH]; intros n st k Hrest Hn Hk.
  - cbn [app] in Hrest. rewrite <- Hrest, moved_nil in *.
    destruct n as [|n]; [reflexivity|]. cbn [repeat_greedy].
    assert (step_if test st
              (fun st' => if (pos st <? pos st')%nat
                          then repeat_greedy (step_if test) n st' k else None)
            = None) as ->.
    { unfold step_if. destruct (rest st) as [|c tl']; [reflexivity|].
      rewrite Htl. reflexivity. }
    reflexivity.
  - cbn [forallb] in Hread. apply andb_true_iff in Hread. destruct Hread as [Hx Hread].
    destruct st as [pv text i cs]. cbn [rest] in Hrest, Hn. subst text.
    cbn [app] in Hk.
    destruct n as [|n]; [cbn [app length] in Hn; lia|].
    cbn [repeat_greedy]. unfold step_if at 1. cbn [rest app pos caps].
    rewrite Hx. rewrite (proj2 (Nat.ltb_lt i (S i))) by lia.
    rewrite (IH Hread n (MState (Some x) (read ++ tl) (S i) cs) k eq_refl).
    + rewrite (moved_cons pv). destruct Hk as [r Hr]. rewrite Hr. reflexivity.
    + cbn [rest]. cbn [app length] in Hn. lia.
    + rewrite (moved_cons pv). exact Hk.
Qed.

End MatcherFacts.

(** ** Duty type of a thread *)

Section DutyTypeFacts.

Import Str Re Config.

Lemma lit_matches_icase (c x : ascii) :
  lit_matches true c x = eqb_char (lower_char c) (lower_char x).
Proof. reflexivity. Qed.

(** With [re.I] a literal word matches where its lower-case form is a prefix
    of the lower-cased text. *)
Lemma lits_prefix_icase (l text : str) :
  lits_prefix true l text = prefixb (lower l) (lower text).
Proof.
  revert text. induction l as [|c l IH]; intros text; [reflexivity|].
  destruct text as [|x text]; [reflexivity|].
  cbn [lits_prefix lower map prefixb]. rewrite IH. reflexivity.
Qed.

Lemma lits_prefix_length (icase : bool) (l text : str) :
  lits_prefix icase l text = true -> length (take (length l) text) = length l.
Proof.
  revert text. induction l as [|c l IH]; intros text H; [reflexivity|].
  destruct text as [|x text]; [discriminate|].
  cbn [lits_prefix] in H. apply andb_true_iff in H. destruct H as [_ H].
  cbn [length take]. rewrite (IH _ H). reflexivity.
Qed.

Lemma prefixb_take (p t : str) : prefixb p t = true -> take (length p) t = p.
Proof.
  intros H. apply prefixb_spec in H. destruct H as [r ->].
  rewrite take_app_length. reflexivity.
Qed.

Lemma lits_prefix_lower_take (l text : str) :
  lits_prefix true l text = true -> lower (take (length l) text) = lower l.
Proof.
  rewrite lits_prefix_icase. intros H. apply prefixb_take in H.
  unfold lower in *. rewrite length_map, firstn_map in H. exact H.
Qed.

Lemma slice_from_start (i n : nat) (text : str) :
  slice i text (i, (n + i)%nat) = take n text.
Proof.
  unfold slice. cbn [fst snd].
  replace (n + i - i)%nat with n by lia. replace (i - i)%nat with 0%nat by lia.
  reflexivity.
Qed.

Lemma match_at_type (pv : option ascii) (text : str) (i : nat) :
  option_map duty_of (match_at type_pattern pv text i) = kw_at (lower text).
Proof.
  unfold match_at, type_pattern, type_re, kw_at. cbn [tree ignorecase ngroups alts rmatch].
  rewrite !word_lits, !rmatch_lits. cbn [rest].
  change (s "stud") with (lower (of_string "Stud")).
  change (s "anchor") with (lower (of_string "Anchor")).
  change (s "hole") with (lower (of_string "Hole")).
  change (s "bolt") with (lower (of_string "Bolt")).
  rewrite <- !(lits_prefix_icase _ text).
  assert (forall w : string,
            lits_prefix true (of_string w) text = true ->
            option_map duty_of
              (match
                 Some (set_cap 1
                         (pos (MState pv text i []),
                          pos (moved (MState pv text i [])
                                 (take (length (of_string w)) text)
                                 (drop (length (of_string w)) text)))
                         (moved (MState pv text i [])
                            (take (length (of_string w)) text)
                            (drop (length (of_string w)) text)))
               with
               | Some st =>
                   Some (Match i (take (pos st - i) text)
                           (map (fun n => option_map (slice i text) (get_cap n (caps st)))
                              (seq 1 1)))
               | None => None
               end)
            = Some (to_string (lower (of_string w)))) as Hword.
  { intros w Hw. cbn [option_map seq map set_cap caps pos moved get_cap Nat.eqb].
    rewrite (lits_prefix_length _ _ _ Hw). rewrite slice_from_start.
    unfold duty_of. cbn [group m_groups nth group_text option_map].
    rewrite (lits_prefix_lower_take _ _ Hw). reflexivity. }
  destruct (lits_prefix true (of_string "Stud") text) eqn:E1.
  { cbn [orelse]. apply (Hword "Stud" E1). }
  cbn [orelse].
  destruct (lits_prefix true (of_string "Anchor") text) eqn:E2.
  { cbn [orelse]. apply (Hword "Anchor" E2). }
  cbn [orelse].
  destruct (lits_prefix true (of_string "Hole") text) eqn:E3.
  { cbn [orelse]. apply (Hword "Hole" E3). }
  cbn [orelse].
  destruct (lits_prefix true (of_string "Bolt") text) eqn:E4.
  { apply (Hword "Bolt" E4). }
  reflexivity.
Qed.

Lemma search_from_type (pv : option ascii) (text : str) (i : nat) :
  option_map duty_of (search_from type_pattern pv text i) = first_kw (lower text).
Proof.
  revert pv i. induction text as [|c text IH]; intros pv i.
  - pose proof (match_at_type pv [] i) as H. cbn [lower map] in H.
    cbn [search_from lower map first_kw]. rewrite <- H.
    destruct (match_at type_pattern pv [] i); reflexivity.
  - pose proof (match_at_type pv (c :: text) i) as H. cbn [lower map] in H.
    cbn [search_from lower map first_kw]. rewrite <- H.
    destruct (match_at type_pattern pv (c :: text) i); [reflexivity|].
    apply IH.
Qed.

(** The search for [(Stud|Anchor|Hole|Bolt)] with [re.I] finds the leftmost
    duty keyword of the lower-cased value. *)
Lemma thread_type_first_kw (v : string) :
  thread_type v = default "unknown" (first_kw (lower (s v))).
Proof.
  unfold thread_type. fold type_pattern.
  rewrite <- (search_from_type None (s v) 0). unfold search.
  destruct (search_from type_pattern None (s v) 0); reflexivity.
Qed.

Lemma kw_at_Some (t : str) (k : string) :
  kw_at t = Some k ->
  k ∈ ["stud"; "anchor"; "hole"; "bolt"] /\ prefixb (s k) t = true.
Proof.
  unfold kw_at.
  destruct (prefixb (s "stud") t) eqn:E1; [intros [= <-]; split; [set_solver | exact E1]|].
  destruct (prefixb (s "anchor") t) eqn:E2; [intros [= <-]; split; [set_solver | exact E2]|].
  destruct (prefixb (s "hole") t) eqn:E3; [intros [= <-]; split; [set_solver | exact E3]|].
  destruct (prefixb (s "bolt") t) eqn:E4; [intros [= <-]; split; [set_solver | exact E4]|].
  discriminate.
Qed.

Lemma first_kw_Some (t : str) (k : string) :
  first_kw t = Some k ->
  k ∈ ["stud"; "anchor"; "hole"; "bolt"] /\ contains (s k) t = true.
Proof.
  induction t as [|c t IH]; cbn [first_kw contains].
  - destruct (kw_at []) eqn:E; [|discriminate].
    intros [= ->]. apply kw_at_Some in E. destruct E as [Hk Hp].
    split; [exact Hk | rewrite Hp; reflexivity].
  - destruct (kw_at (c :: t)) eqn:E.
    + intros [= ->]. apply kw_at_Some in E. destruct E as [Hk Hp].
      split; [exact Hk | rewrite Hp; reflexivity].
    + intros H. apply IH in H. destruct H as [Hk Hc].
      split; [exact Hk | rewrite Hc; apply orb_true_r].
Qed.

Lemma first_kw_None (t : str) :
  contains (s "stud") t = false -> contains (s "anchor") t = false ->
  contains (s "hole") t = false -> contains (s "bolt") t = false ->
  first_kw t = None.
Proof.
  intros H1 H2 H3 H4. destruct (first_kw t) as [k|] eqn:E; [|reflexivity].
  apply first_kw_Some in E. destruct E as [Hk Hc].
  repeat (apply elem_of_cons in Hk; destruct Hk as [-> | Hk]; [congruence|]).
  apply elem_of_nil in Hk. contradiction.
Qed.

(** A duty type other than stud, anchor and hole gives no label. *)
Lemma thread_classes_other (v : string) :
  thread_type v <> "stud" -> thread_type v <> "anchor" -> thread_type v <> "hole" ->
  classify_thread v = None.
Proof.
  intros H1 H2 H3. unfold classify_thread. apply list_or_none_None.
  apply set_eq. intros l. rewrite elem_of_thread_classes. split.
  - intros [m [_ Hm]]. exfalso. revert Hm. unfold thread_label.
    apply String.eqb_neq in H1, H2, H3. rewrite H1, H2, H3. discriminate.
  - intros H. apply not_elem_of_empty in H. contradiction.
Qed.

End DutyTypeFacts.

Section DutyTypeClaims.

Import Str Config.

(** C8, as stated, fails on the duty type: the type pattern also knows
    "Bolt", so a value without stud, anchor and hole can have the duty type
    "bolt" instead of "unknown". *)
Lemma duty_type_counterexample :
  ~ (forall v : string,
       contains (s "stud") (lower (s v)) = false ->
       contains (s "anchor") (lower (s v)) = false ->
       contains (s "hole") (lower (s v)) = false ->
       thread_type v = "unknown" /\ classify_thread v = None).
Proof.
  intros H. destruct (H "M8 Bolt" eq_refl eq_refl eq_refl) as [Ht _].
  vm_compute in Ht. discriminate Ht.
Qed.

(** C8 (amended). Duty-type extraction is case-insensitive: two values with
    the same lower-case form have the same duty type. A value in which none
    of stud, anchor, hole occurs (in any letter case) has the duty type
    "unknown", or "bolt" when that keyword occurs, and [classify_thread]
    returns [None] for it; the duty type is "unknown" when bolt does not
    occur either. In particular [classify_thread "M8x1.25"] is [None]. *)
Theorem duty_type_extraction :
  (forall v w : string, lower (s v) = lower (s w) -> thread_type v = thread_type w)
  /\ (forall v : string,
        contains (s "stud") (lower (s v)) = false ->
        contains (s "anchor") (lower (s v)) = false ->
        contains (s "hole") (lower (s v)) = false ->
        (thread_type v = "unknown" \/ thread_type v = "bolt")
        /\ (contains (s "bolt") (lower (s v)) = false -> thread_type v = "unknown")
        /\ classify_thread v = None)
  /\ thread_type "M8x1.25" = "unknown"
  /\ classify_thread "M8x1.25" = None.
Proof.
  split; [|split; [|split; reflexivity]].
  - intros v w H. rewrite !thread_type_first_kw, H. reflexivity.
  - intros v H1 H2 H3.
    assert (thread_type v = "unknown" \/ thread_type v = "bolt") as Ht.
    { rewrite thread_type_first_kw.
      destruct (first_kw (lower (s v))) as [k|] eqn:E; [|left; reflexivity].
      apply first_kw_Some in E. destruct E as [Hk Hc]. cbn [default].
      repeat (apply elem_of_cons in Hk; destruct Hk as [-> | Hk];
              [first [congruence | right; reflexivity]|]).
      apply elem_of_nil in Hk. contradiction. }
    split; [exact Ht|]. split.
    + intros H4. rewrite thread_type_first_kw, first_kw_None by assumption. reflexivity.
    + apply thread_classes_other; destruct Ht as [-> | ->]; discriminate.
Qed.

Lemma duty_type_extraction_witness :
  lower (s "m8 STUD") = lower (s "M8 stud")
  /\ thread_type "m8 STUD" = thread_type "M8 stud"
  /\ contains (s "stud") (lower (s "UNC 1/4-20 Bolt")) = false
  /\ contains (s "anchor") (lower (s "UNC 1/4-20 Bolt")) = false
  /\ contains (s "hole") (lower (s "UNC 1/4-20 Bolt")) = false
  /\ classify_thread "UNC 1/4-20 Bolt" = None.
Proof.
  split; [reflexivity|].
  split; [exact (proj1 duty_type_extraction "m8 STUD" "M8 stud" eq_refl)|].
  split; [reflexivity|]. split; [reflexivity|]. split; [reflexivity|].
  exact (proj2 (proj2 (proj1 (proj2 duty_type_extraction) "UNC 1/4-20 Bolt"
                         eq_refl eq_refl eq_refl))).
Defined.

End DutyTypeClaims.

(** ** Size bands *)

Section BandFacts.

Import Config.








End BandFacts.

(** ** The size pattern on numerals *)

Section SizeFacts.

Import Str Re Config.

Lemma moved_moved (st : mstate) (a x b c : str) :
  moved (moved st a x) b c = moved st (a ++ b) c.
Proof.
  unfold moved. cbn [prev pos caps]. f_equal.
  - rewrite last_app. destruct (last b); reflexivity.
  - rewrite length_app. lia.
Qed.

Lemma step_if_ok (test : ascii -> bool) (st : mstate) (c : ascii) (tl : str)
    (k : mstate -> option mstate) :
  rest st = c :: tl -> test c = true -> step_if test st k = k (moved st [c] tl).
Proof. intros Hr Hc. unfold step_if. rewrite Hr, Hc. reflexivity. Qed.

Lemma step_if_stops (test : ascii -> bool) (st : mstate)
    (k : mstate -> option mstate) :
  stops test (rest st) -> step_if test st k = None.
Proof.
  unfold step_if, stops. destruct (rest st) as [|c tl]; [reflexivity|].
  intros ->. reflexivity.
Qed.

(** [\d+] passes a whole run of digits when what follows succeeds there. *)
Lemma plus_digit_run (icase : bool) (ds tl : str) (st : mstate)
    (k : mstate -> option mstate) :
  ds <> [] -> forallb is_digit ds = true -> stops is_digit tl ->
  rest st = ds ++ tl ->
  is_Some (k (moved st ds tl)) ->
  rmatch icase (Plus Digit) st k = k (moved st ds tl).
Proof.
  intros Hne Hds Htl Hrest Hk. destruct ds as [|d ds]; [contradiction|].
  cbn [forallb] in Hds. apply andb_true_iff in Hds. destruct Hds as [Hd Hds].
  cbn [rmatch]. change (rmatch icase Digit) with (step_if is_digit).
  rewrite (step_if_ok _ st d (ds ++ tl)) by assumption.
  change (d :: ds) with ([d] ++ ds) in *. rewrite <- moved_moved with (x := ds ++ tl) in *.
  apply (repeat_greedy_run is_digit ds tl Hds Htl); [reflexivity | cbn [rest moved]; lia | exact Hk].
Qed.

(** [\s*] passes a whole run of white space. *)
Lemma star_space_run (icase : bool) (sp tl : str) (st : mstate)
    (k : mstate -> option mstate) :
  forallb is_space sp = true -> stops is_space tl ->
  rest st = sp ++ tl ->
  is_Some (k (moved st sp tl)) ->
  rmatch icase (Star Space) st k = k (moved st sp tl).
Proof.
  intros Hsp Htl Hrest Hk. cbn [rmatch].
  change (rmatch icase Space) with (step_if is_space).
  apply (repeat_greedy_run is_space sp tl Hsp Htl); [exact Hrest | lia | exact Hk].
Qed.

Lemma point_matches (icase : bool) : lit_matches icase "." "." = true.
Proof. destruct icase; reflexivity. Qed.

Lemma point_only (icase : bool) (c : ascii) :
  eqb_char c "." = false -> lit_matches icase "." c = false.
Proof.
  destruct icase, c as [[] [] [] [] [] [] [] []]; vm_compute; congruence.
Qed.

Lemma stops_digit_or_point (tl : str) :
  stops digit_or_point tl ->
  stops is_digit tl /\ forall icase, stops (lit_matches icase ".") tl.
Proof.
  unfold stops, digit_or_point. destruct tl as [|c tl]; [intros _; split; trivial|].
  intros H. apply orb_false_iff in H. destruct H as [Hd Hp].
  split; [exact Hd | intros icase; apply point_only, Hp].
Qed.

(** The number part of the size pattern passes a whole numeral. *)
Lemma number_run (icase : bool) (n ip fp tl : str) (st : mstate)
    (k : mstate -> option mstate) :
  numeral n ip fp -> stops digit_or_point tl ->
  rest st = n ++ tl ->
  is_Some (k (moved st n tl)) ->
  rmatch icase number_re st k = k (moved st n tl).
Proof.
  intros Hn Htl Hrest Hk. apply stops_digit_or_point in Htl. destruct Htl as [Hd Hp].
  unfold number_re. cbn [rmatch]. destruct Hn as [ds Hne Hds | ds fs Hne Hds Hnf Hfs].
  - assert ((orelse
               (step_if (lit_matches icase ".") (moved st ds tl)
                  (fun st' => rmatch icase (Plus Digit) st' k))
               (fun _ => k (moved st ds tl))) = k (moved st ds tl)) as Hopt.
    { rewrite step_if_stops by apply Hp. reflexivity. }
    change (rmatch icase (Plus Digit) st
              (fun st' => orelse
                 (step_if (lit_matches icase ".") st'
                    (fun st'0 => rmatch icase (Plus Digit) st'0 k))
                 (fun _ => k st')) = k (moved st ds tl)).
    rewrite (plus_digit_run icase ds tl st); try assumption.
    rewrite Hopt. exact Hk.
  - rewrite <- app_assoc in Hrest. cbn [app] in Hrest.
    assert (moved st (ds ++ "."%char :: fs) tl
            = moved (moved (moved st ds ("."%char :: fs ++ tl)) ["."%char] (fs ++ tl)) fs tl)
      as Hm.
    { rewrite !moved_moved. reflexivity. }
    rewrite Hm in *.
    assert ((orelse
               (step_if (lit_matches icase ".") (moved st ds ("."%char :: fs ++ tl))
                  (fun st' => rmatch icase (Plus Digit) st' k))
               (fun _ => k (moved st ds ("."%char :: fs ++ tl))))
            = k (moved (moved (moved st ds ("."%char :: fs ++ tl)) ["."%char] (fs ++ tl)) fs tl))
      as Hopt.
    { rewrite (step_if_ok _ _ "."%char (fs ++ tl)); [|reflexivity | apply point_matches].
      rewrite (plus_digit_run icase fs tl); try assumption; [|reflexivity].
      destruct Hk as [r Hr]. rewrite Hr. reflexivity. }
    change (rmatch icase (Plus Digit) st
              (fun st' => orelse
                 (step_if (lit_matches icase ".") st'
                    (fun st'0 => rmatch icase (Plus Digit) st'0 k))
                 (fun _ => k st'))
            = k (moved (moved (moved st ds ("."%char :: fs ++ tl)) ["."%char] (fs ++ tl)) fs tl)).
    rewrite (plus_digit_run icase ds ("."%char :: fs ++ tl) st); try assumption.
    + reflexivity.
    + rewrite Hopt. exact Hk.
Qed.

Lemma unit_at_split (icase : bool) (tl u : str) :
  unit_at icase tl = Some u -> exists tail, tl = u ++ tail.
Proof.
  unfold unit_at. intros H.
  destruct (lits_prefix icase (s "mm") tl);
    [injection H as <-; exists (drop 2 tl); symmetry; apply take_drop|].
  destruct (lits_prefix icase (s "in") tl);
    [injection H as <-; exists (drop 2 tl); symmetry; apply take_drop|].
  destruct (lits_prefix icase (s "inch") tl);
    [injection H as <-; exists (drop 4 tl); symmetry; apply take_drop|].
  discriminate.
Qed.

Lemma unit_run (icase : bool) (st : mstate) :
  rmatch icase (Seq (Opt unit_re) Empty) st Some = Some (with_unit icase st).
Proof.
  unfold unit_re, with_unit, unit_at, s. cbn [rmatch alts].
  rewrite !word_lits, !rmatch_lits.
  destruct (lits_prefix icase (of_string "mm") (rest st)) eqn:E1.
  { pose proof (lits_prefix_length _ _ _ E1) as L. cbn in L.
    cbn. rewrite L. reflexivity. }
  cbn [orelse].
  destruct (lits_prefix icase (of_string "in") (rest st)) eqn:E2.
  { pose proof (lits_prefix_length _ _ _ E2) as L. cbn in L.
    cbn. rewrite L. reflexivity. }
  cbn [orelse].
  destruct (lits_prefix icase (of_string "inch") (rest st)) eqn:E3.
  { pose proof (lits_prefix_length _ _ _ E3) as L. cbn in L.
    cbn. rewrite L. reflexivity. }
  reflexivity.
Qed.

Lemma size_tail_run (icase : bool) (sp tl : str) (st : mstate) :
  forallb is_space sp = true -> stops is_space tl ->
  rest st = sp ++ tl ->
  rmatch icase (Seq (Star Space) (Seq (Opt unit_re) Empty)) st Some
  = Some (with_unit icase (moved st sp tl)).
Proof.
  intros Hsp Htl Hrest.
  change (rmatch icase (Star Space) st
            (fun st' => rmatch icase (Seq (Opt unit_re) Empty) st' Some)
          = Some (with_unit icase (moved st sp tl))).
  rewrite (star_space_run icase sp tl st); try assumption.
  - apply unit_run.
  - rewrite unit_run. eexists. reflexivity.
Qed.

Lemma size_run (icase : bool) (n ip fp sp tl : str) (st : mstate) :
  numeral n ip fp ->
  forallb is_space sp = true -> stops is_space tl ->
  stops digit_or_point (sp ++ tl) ->
  rest st = n ++ sp ++ tl ->
  rmatch icase size_re st Some
  = Some (with_unit icase
            (moved (set_cap 1 (pos st, (length n + pos st)%nat) (moved st n (sp ++ tl)))
               sp tl)).
Proof.
  intros Hn Hsp Htl Hstop Hrest.
  change (rmatch icase number_re st
            (fun st' =>
               rmatch icase (Seq (Star Space) (Seq (Opt unit_re) Empty))
                 (set_cap 1 (pos st, pos st') st') Some)
          = Some (with_unit icase
                    (moved (set_cap 1 (pos st, (length n + pos st)%nat)
                              (moved st n (sp ++ tl))) sp tl))).
  rewrite (number_run icase n ip fp (sp ++ tl) st); try assumption.
  - apply size_tail_run; [assumption | assumption | reflexivity].
  - rewrite (size_tail_run icase sp tl); [eexists; reflexivity | assumption | assumption | reflexivity].
Qed.

(** What the size pattern matches at a numeral followed by white space
    and, possibly, a unit: the numeral as group 1, the unit as group 2. *)
Lemma match_at_size (icase : bool) (pv : option ascii) (n ip fp sp tl : str) (i : nat) :
  numeral n ip fp ->
  forallb is_space sp = true -> stops is_space tl ->
  stops digit_or_point (sp ++ tl) ->
  match_at (size_pattern icase) pv (n ++ sp ++ tl) i
  = Some (Match i (n ++ sp ++ group_text (unit_at icase tl))
            [Some n; unit_at icase tl]).
Proof.
  intros Hn Hsp Htl Hstop. unfold match_at, size_pattern. cbn [tree ignorecase ngroups].
  rewrite (size_run icase n ip fp sp tl) by (assumption || reflexivity).
  unfold with_unit. cbn [moved set_cap rest pos caps].
  destruct (unit_at icase tl) as [u|] eqn:Eu.
  - destruct (unit_at_split _ _ _ Eu) as [tail ->].
    cbn [moved set_cap rest pos caps seq map get_cap Nat.eqb option_map group_text].
    f_equal. f_equal.
    + replace (length u + (length sp + (length n + i)) - i)%nat
        with (length (n ++ sp ++ u)) by (rewrite !length_app; lia).
      replace (n ++ sp ++ u ++ tail) with ((n ++ sp ++ u) ++ tail)
        by (rewrite <- !app_assoc; reflexivity).
      apply take_app_length.
    + f_equal; [|f_equal].
      * f_equal. rewrite slice_from_start. apply take_app_length.
      * f_equal. unfold slice. cbn [fst snd].
        replace (length u + (length sp + (length n + i)) - (length sp + (length n + i)))%nat
          with (length u) by lia.
        replace (length sp + (length n + i) - i)%nat with (length (n ++ sp))
          by (rewrite length_app; lia).
        replace (n ++ sp ++ u ++ tail) with ((n ++ sp) ++ u ++ tail)
          by (rewrite <- !app_assoc; reflexivity).
        rewrite drop_app_length. apply take_app_length.
  - cbn [moved set_cap rest pos caps seq map get_cap Nat.eqb option_map group_text].
    rewrite app_nil_r.
    f_equal. f_equal.
    + replace (length sp + (length n + i) - i)%nat with (length (n ++ sp))
        by (rewrite length_app; lia).
      replace (n ++ sp ++ tl) with ((n ++ sp) ++ tl)
        by (rewrite <- !app_assoc; reflexivity).
      apply take_app_length.
    + f_equal. f_equal. rewrite slice_from_start. apply take_app_length.
Qed.

Lemma match_at_size_none (icase : bool) (pv : option ascii) (text : str) (i : nat) :
  stops is_digit text -> match_at (size_pattern icase) pv text i = None.
Proof.
  intros H. unfold match_at, size_pattern. cbn [tree ignorecase].
  change (rmatch icase size_re (MState pv text i []) Some)
    with (step_if is_digit (MState pv text i [])
            (fun st' =>
               repeat_greedy (rmatch icase Digit) (length (rest st')) st'
                 (fun st'' =>
                    rmatch icase (Opt (Seq (Lit ".") (Plus Digit))) st''
                      (fun st3 =>
                         rmatch icase (Seq (Star Space) (Seq (Opt unit_re) Empty))
                           (set_cap 1 (i, pos st3) st3) Some)))).
  rewrite step_if_stops by exact H. reflexivity.
Qed.

(** A text without digits has no match of the size pattern. *)
Lemma scan_no_digit (icase : bool) (text : str) (pv : option ascii) (i : nat) :
  forallb (fun c => negb (is_digit c)) text = true ->
  scan (size_pattern icase) 0 pv text i = [].
Proof.
  revert pv i. induction text as [|c text IH]; intros pv i H.
  - cbn [scan]. rewrite match_at_size_none by exact I. reflexivity.
  - cbn [forallb] in H. apply andb_true_iff in H. destruct H as [Hc H].
    cbn [scan]. rewrite match_at_size_none by (apply negb_true_iff, Hc).
    apply IH, H.
Qed.

(** The scan passes the characters of the previous match. *)
Lemma scan_skip (p : pattern) (read tl : str) (pv : option ascii) (i : nat) :
  scan p (length read) pv (read ++ tl) i
  = scan p 0 (match last read with Some c => Some c | None => pv end) tl
      (length read + i).
Proof.
  revert pv i. induction read as [|c read IH]; intros pv i; [reflexivity|].
  cbn [length app scan]. rewrite IH. f_equal.
  - destruct read as [|c' read]; [reflexivity|].
    change (last (c :: c' :: read)) with (last (c' :: read)).
    destruct (last (c' :: read)) eqn:E; [reflexivity|].
    apply last_None in E. discriminate.
  - lia.
Qed.

Lemma numeral_cons (n ip fp : str) :
  numeral n ip fp -> exists c n', n = c :: n'.
Proof.
  intros [ds Hne _ | ds fs Hne _ _ _]; destruct ds as [|d ds]; try contradiction;
    eexists _, _; reflexivity.
Qed.

(** The one match of the size pattern in a numeral followed by white space,
    possibly a unit, and text without digits. *)
Lemma finditer_size_one (icase : bool) (n ip fp sp tl : str) :
  numeral n ip fp ->
  forallb is_space sp = true -> stops is_space tl ->
  stops digit_or_point (sp ++ tl) ->
  forallb (fun c => negb (is_digit c))
    (drop (length (group_text (unit_at icase tl))) tl) = true ->
  finditer (size_pattern icase) (n ++ sp ++ tl)
  = [Match 0 (n ++ sp ++ group_text (unit_at icase tl)) [Some n; unit_at icase tl]].
Proof.
  intros Hn Hsp Htl Hstop Htail. unfold finditer.
  assert (exists tail, tl = group_text (unit_at icase tl) ++ tail
                       /\ forallb (fun c => negb (is_digit c)) tail = true)
    as [tail [Htl' Hnodigit]].
  { exists (drop (length (group_text (unit_at icase tl))) tl). split; [|exact Htail].
    destruct (unit_at icase tl) as [u|] eqn:Eu; [|reflexivity].
    destruct (unit_at_split _ _ _ Eu) as [tail' ->]. cbn [group_text].
    rewrite drop_app_length. reflexivity. }
  pose proof (match_at_size icase None n ip fp sp tl 0 Hn Hsp Htl Hstop) as Hm.
  destruct (numeral_cons _ _ _ Hn) as [c [n' ->]].
  cbn [app] in *. cbn [scan]. rewrite Hm. cbn [m_text length Nat.pred]. f_equal.
  set (u := group_text (unit_at icase tl)) in *. clearbody u. subst tl.
  replace (n' ++ sp ++ u ++ tail) with ((n' ++ sp ++ u) ++ tail)
    by (rewrite <- !app_assoc; reflexivity).
  rewrite scan_skip. apply scan_no_digit, Hnodigit.
Qed.

End SizeFacts.

(** ** Classifiers on numerals *)

Section NumeralFacts.

Import Str Re Config.

Lemma of_string_app (a b : string) :
  of_string (a +:+ b) = of_string a ++ of_string b.
Proof.
  unfold of_string. induction a as [|c a IH]; [reflexivity|].
  simpl. f_equal. exact IH.
Qed.

Lemma digit_not_point (c : ascii) : is_digit c = true -> eqb_char c "." = false.
Proof. destruct c as [[] [] [] [] [] [] [] []]; vm_compute; congruence. Qed.

Lemma split_point_digits (ds acc tl : str) :
  forallb is_digit ds = true ->
  split_point acc (ds ++ tl) = split_point (rev ds ++ acc) tl.
Proof.
  revert acc. induction ds as [|d ds IH]; intros acc H; [reflexivity|].
  cbn [forallb] in H. apply andb_true_iff in H. destruct H as [Hd H].
  cbn [app split_point]. rewrite (digit_not_point d Hd), (IH _ H).
  cbn [rev]. rewrite <- app_assoc. reflexivity.
Qed.

(** [float] of a numeral is the rounded quotient of its digits. *)
Lemma float_of_text_numeral (n ip fp : str) :
  numeral n ip fp -> float_of_text n = F64.of_decimal ip fp.
Proof.
  intros [ds _ Hds | ds fs _ Hds _ _]; unfold float_of_text.
  - rewrite <- (app_nil_r ds) at 1. rewrite split_point_digits by exact Hds.
    cbn [split_point]. rewrite app_nil_r, rev_involutive. reflexivity.
  - rewrite split_point_digits by exact Hds. cbn [split_point].
    change (eqb_char "." ".") with true. cbn iota.
    rewrite app_nil_r, rev_involutive. reflexivity.
Qed.

Lemma list_or_none_add_opt (o : option string) :
  list_or_none (add_opt o ∅) = option_map (fun l => [l]) o.
Proof.
  destruct o as [l|]; cbn [add_opt option_map].
  - rewrite union_empty_l_L. unfold list_or_none.
    destruct (decide ({[l]} = (∅ : gset string))) as [E | _].
    + exfalso. assert (l ∈ (∅ : gset string)) as H by (rewrite <- E; set_solver).
      set_solver.
    + rewrite elements_singleton. reflexivity.
  - unfold list_or_none. destruct (decide ((∅ : gset string) = ∅)); [reflexivity | contradiction].
Qed.


(** A numeral alone: no unit, taken as millimetres. *)
Lemma classify_diameter_numeral (n : string) (ip fp : str) :
  numeral (s n) ip fp ->
  classify_diameter n
  = option_map (fun l => [l])
      (diameter_band (F64.div (F64.of_decimal ip fp) f_25_4)).
Proof.
  intros Hn. unfold classify_diameter, diameter_classes. fold (size_pattern true).
  rewrite <- (app_nil_r (s n)) at 1. rewrite <- (app_nil_l []) at 1.
  rewrite (finditer_size_one true (s n) ip fp [] [] Hn); try reflexivity; try exact I.
  cbn [fold_left]. rewrite list_or_none_add_opt. f_equal. f_equal.
  unfold diameter_inches, size_and_unit. cbn [group m_groups nth group_text unit_at].
  rewrite (float_of_text_numeral _ _ _ Hn). reflexivity.
Qed.

Lemma kw_at_digit_or_point (c : ascii) (t : str) :
  digit_or_point c = true -> kw_at (lower_char c :: t) = None.
Proof.
  intros H.
  assert (eqb_char "s" (lower_char c) = false /\ eqb_char "a" (lower_char c) = false
          /\ eqb_char "h" (lower_char c) = false /\ eqb_char "b" (lower_char c) = false)
    as [Hs [Ha [Hh Hb]]].
  { revert H. destruct c as [[] [] [] [] [] [] [] []]; vm_compute; intros H;
      repeat split; congruence. }
  unfold kw_at, s. cbn [of_string list_ascii_of_string prefixb].
  rewrite Hs, Ha, Hh, Hb. reflexivity.
Qed.

Lemma first_kw_after (pre t : str) :
  forallb digit_or_point pre = true ->
  first_kw (lower (pre ++ t)) = first_kw (lower t).
Proof.
  induction pre as [|c pre IH]; intros H; [reflexivity|].
  cbn [forallb] in H. apply andb_true_iff in H. destruct H as [Hc H].
  cbn [app lower map first_kw]. rewrite (kw_at_digit_or_point c _ Hc).
  apply IH, H.
Qed.

Lemma forallb_digit_or_point (ds : str) :
  forallb is_digit ds = true -> forallb digit_or_point ds = true.
Proof.
  induction ds as [|d ds IH]; [reflexivity|]. cbn [forallb].
  intros H. apply andb_true_iff in H. destruct H as [Hd H].
  unfold digit_or_point at 1. rewrite Hd, (IH H). reflexivity.
Qed.

Lemma numeral_digit_or_point (n ip fp : str) :
  numeral n ip fp -> forallb digit_or_point n = true.
Proof.
  intros [ds _ Hds | ds fs _ Hds _ Hfs].
  - apply forallb_digit_or_point, Hds.
  - rewrite forallb_app. cbn [forallb].
    rewrite !forallb_digit_or_point by assumption. reflexivity.
Qed.

(** A numeral followed by " stud": the millimetre threshold of studs is
    applied to the number as it stands. *)
Lemma classify_thread_numeral_stud (n : string) (ip fp : str) :
  numeral (s n) ip fp ->
  classify_thread (n +:+ " stud")
  = Some [if F64.leb (F64.of_decimal ip fp) (F64.of_Z 20)
          then "Light Duty Stud" else "Heavy Duty Stud"].
Proof.
  intros Hn. unfold classify_thread, thread_classes.
  assert (thread_type (n +:+ " stud") = "stud") as ->.
  { rewrite thread_type_first_kw. unfold s at 1. rewrite of_string_app. fold (s n).
    rewrite first_kw_after by (eapply numeral_digit_or_point, Hn). reflexivity. }
  unfold s at 1. rewrite of_string_app. fold (s n). fold (size_pattern false).
  change (of_string " stud") with ([" "%char] ++ of_string "stud").
  rewrite (finditer_size_one false (s n) ip fp [" "%char] (of_string "stud") Hn);
    try reflexivity; try exact I.
  cbn [fold_left]. rewrite list_or_none_add_opt.
  unfold thread_mm, size_and_unit. cbn [group m_groups nth group_text].
  rewrite (float_of_text_numeral _ _ _ Hn).
  change (unit_at false (of_string "stud")) with (@None str). cbn iota.
  change (existsb (str_eqb (s "mm")) [s "in"; s "inch"]) with false. cbn iota.
  unfold thread_label. cbn [String.eqb Ascii.eqb Bool.eqb].
  destruct (F64.leb (F64.of_decimal ip fp) (F64.of_Z 20)); reflexivity.
Qed.

End NumeralFacts.

(** ** Sizes and units: the claims *)

Section SizeClaims.

Import Str Re Config.



Lemma sizes_without_unit (m : rmatch_obj) :
  group m 2 = None ->
  diameter_inches m = F64.div (float_of_text (group_text (group m 1))) f_25_4
  /\ thread_mm m = float_of_text (group_text (group m 1)).
Proof.
  intros Hg. unfold diameter_inches, thread_mm, size_and_unit. rewrite Hg.
  split; reflexivity.
Qed.



(** C9. A match of the size pattern without unit is taken as millimetres:
    [classify_diameter] divides it by 25.4 before bucketing, [classify_thread]
    compares it with its millimetre thresholds as it stands. Both classifiers
    label exactly the sizes of their matches. For every numeral n,
    [classify_diameter n] is the band of n / 25.4 (so "8" gives [None]) and
    [classify_thread (n ++ " stud")] is the stud label of n itself. The size
    pattern of [classify_thread] is case-sensitive, so "INCH" is no unit
    there. *)
Theorem unitless_sizes_are_millimetres :
  (forall m : rmatch_obj,
     group m 2 = None ->
     diameter_inches m = F64.div (float_of_text (group_text (group m 1))) f_25_4
     /\ thread_mm m = float_of_text (group_text (group m 1)))
  /\ (forall value l : string,
        l ∈ diameter_classes value
        <-> exists m, m ∈ finditer (size_pattern true) (s value)
                      /\ diameter_band (diameter_inches m) = Some l)
  /\ (forall value l : string,
        l ∈ thread_classes value
        <-> exists m, m ∈ finditer (size_pattern false) (s value)
                      /\ thread_label (thread_type value) (thread_mm m) = Some l)
  /\ (forall (n : string) (ip fp : str),
        numeral (s n) ip fp ->
        classify_diameter n
        = option_map (fun l => [l])
            (diameter_band (F64.div (F64.of_decimal ip fp) f_25_4))
        /\ classify_thread (n +:+ " stud")
           = Some [if F64.leb (F64.of_decimal ip fp) (F64.of_Z 20)
                   then "Light Duty Stud" else "Heavy Duty Stud"])
  /\ classify_diameter "8" = None
  /\ classify_thread "1 INCH stud" = Some ["Light Duty Stud"]
  /\ classify_thread "1 inch stud" = Some ["Heavy Duty Stud"].
Proof.
  split; [exact sizes_without_unit|].
  split; [exact elem_of_diameter_classes|].
  split; [exact elem_of_thread_classes|].
  split.
  { intros n ip fp Hn. split.
    - apply classify_diameter_numeral, Hn.
    - apply classify_thread_numeral_stud, Hn. }
  repeat split; vm_compute; reflexivity.
Qed.

Lemma unitless_sizes_are_millimetres_witness :
  numeral (s "25.4") (s "25") (s "4")
  /\ classify_diameter "25.4" = None
  /\ classify_thread ("25.4" +:+ " stud") = Some ["Heavy Duty Stud"].
Proof.
  assert (numeral (s "25.4") (s "25") (s "4")) as Hn.
  { apply (numeral_dec (s "25") (s "4")); (discriminate || reflexivity). }
  split; [exact Hn|].
  destruct (proj1 (proj2 (proj2 (proj2 unitless_sizes_are_millimetres))) "25.4" _ _ Hn)
    as [Hd Ht].
  split.
  - rewrite Hd. vm_compute. reflexivity.
  - rewrite Ht. vm_compute. reflexivity.
Defined.

End SizeClaims.

(** * Further properties *)

(** ** Source locator: the exact pass, and where a box comes from *)

Section LocatorMore.

Import Str Extraction.

Context {coord : Type}.
Implicit Types (w u : pdf_word coord) (words : list (pdf_word coord)).

Lemma exact_pass_first (before after : list (pdf_word coord)) w (text : string) :
  Forall (fun u => occurs_in (Config.s text) u = false) before ->
  occurs_in (Config.s text) w = true ->
  exact_pass (before ++ w :: after) text = Some w.
Proof.
  intros Hb Hw. unfold exact_pass.
  induction Hb as [|u before Hu _ IH]; cbn [app List.find].
  - rewrite Hw. reflexivity.
  - rewrite Hu. exact IH.
Qed.

Lemma exact_pass_Some words (text : string) w :
  exact_pass words text = Some w -> w ∈ words /\ occurs_in (Config.s text) w = true.
Proof.
  unfold exact_pass. intros H. apply find_some in H. destruct H as [Hin Hocc].
  split; [apply list_elem_of_In, Hin | exact Hocc].
Qed.

(** The first page word that holds the snippet, in any letter case, is the
    one whose box is returned, whatever the context and whatever the words
    after it. *)
Theorem exact_match_wins (before after : list (pdf_word coord)) w
    (text context : string) :
  Forall (fun u => occurs_in (Config.s text) u = false) before ->
  occurs_in (Config.s text) w = true ->
  find_text_locations (before ++ w :: after) text context = Some (box_of w).
Proof.
  intros Hb Hw. unfold find_text_locations.
  rewrite (exact_pass_first before after w text Hb Hw). reflexivity.
Qed.

(** A box is never made up: whatever is returned is the box of a word of
    the page, and that word holds the snippet or, with a context given, at
    least one of the snippet's words. On a page without words nothing is
    located. *)
Theorem located_box_is_a_page_word words (text context : string) (box : bbox coord) :
  find_text_locations words text context = Some box ->
  exists w, w ∈ words /\ box = box_of w
            /\ (occurs_in (Config.s text) w = true
                \/ (context <> "" /\ (0 < score text w)%nat)).
Proof.
  unfold find_text_locations.
  destruct (exact_pass words text) as [w|] eqn:E.
  - intros [= <-]. apply exact_pass_Some in E. destruct E as [Hin Hocc].
    exists w. split; [exact Hin|]. split; [reflexivity | left; exact Hocc].
  - destruct (String.eqb context "") eqn:Ec; cbn [negb]; [discriminate|].
    apply String.eqb_neq in Ec.
    pose proof (fuzzy_pass_spec text words) as H.
    destruct (fuzzy_pass words text) as [w|]; [|discriminate].
    intros [= <-]. destruct H as [Hpos [before [after [-> _]]]].
    exists w. split; [apply elem_of_app; right; apply list_elem_of_here|].
    split; [reflexivity | right; split; assumption].
Qed.

Lemma is_space_lower_char (c : ascii) : is_space (lower_char c) = is_space c.
Proof. destruct c as [[] [] [] [] [] [] [] []]; reflexivity. Qed.

Lemma lower_rev (t : list ascii) : lower (rev t) = rev (lower t).
Proof. unfold lower. apply map_rev. Qed.

(** Splitting on white space commutes with lower-casing. *)
Lemma split_aux_lower (cur t : list ascii) :
  split_aux (lower cur) (lower t) = map lower (split_aux cur t).
Proof.
  revert cur. induction t as [|c t IH]; intros cur.
  - cbn [lower map split_aux]. destruct cur as [|x cur]; [reflexivity|].
    cbn [map]. fold (lower cur). change (lower_char x :: lower cur) with (lower (x :: cur)).
    rewrite <- lower_rev. reflexivity.
  - change (lower (c :: t)) with (lower_char c :: lower t). cbn [split_aux].
    rewrite is_space_lower_char. destruct (is_space c).
    + destruct cur as [|x cur].
      * cbn [lower map]. apply (IH []).
      * change (lower (x :: cur)) with (lower_char x :: lower cur).
        cbn [map]. change (lower_char x :: lower cur) with (lower (x :: cur)).
        rewrite <- lower_rev. f_equal. apply (IH []).
    + apply (IH (c :: cur)).
Qed.

Lemma split_lower (t : list ascii) : split (lower t) = map lower (split t).
Proof. apply (split_aux_lower [] t). Qed.

Lemma score_lowered (text : string) w :
  score text w
  = length (filter (fun p => contains p (lower (Config.s (w_text w))) = true)
              (split (lower (Config.s text)))).
Proof.
  unfold score, occurs_in. rewrite split_lower.
  induction (split (Config.s text)) as [|p ps IH]; [reflexivity|].
  cbn [map]. destruct (contains (lower p) (lower (Config.s (w_text w)))) eqn:E.
  - rewrite !filter_cons_True by exact E. cbn [length]. rewrite IH. reflexivity.
  - rewrite !filter_cons_False by (rewrite E; discriminate). exact IH.
Qed.

Lemma any_part_lowered (text : string) w :
  existsb (fun part => occurs_in part w) (split (Config.s text))
  = existsb (fun p => contains p (lower (Config.s (w_text w))))
      (split (lower (Config.s text))).
Proof.
  unfold occurs_in. rewrite split_lower.
  induction (split (Config.s text)) as [|p ps IH]; [reflexivity|].
  cbn [map existsb]. rewrite IH. reflexivity.
Qed.

(** Locating is case-insensitive in the snippet: two snippets with the same
    lower-case form are located alike, in the exact pass and in the fuzzy
    pass. *)
Theorem find_text_locations_snippet_case words (text text' context : string) :
  lower (Config.s text) = lower (Config.s text') ->
  find_text_locations words text context = find_text_locations words text' context.
Proof.
  intros H. unfold find_text_locations.
  assert (exact_pass words text = exact_pass words text') as ->.
  { unfold exact_pass, occurs_in. rewrite H. reflexivity. }
  assert (fuzzy_pass words text = fuzzy_pass words text') as ->; [|reflexivity].
  unfold fuzzy_pass. f_equal.
  generalize (0%nat, @None (pdf_word coord)) as acc.
  induction words as [|w words IH]; intros acc; [reflexivity|].
  cbn [fold_left].
  assert (fuzzy_step text acc w = fuzzy_step text' acc w) as ->; [|apply IH].
  unfold fuzzy_step. rewrite !any_part_lowered, !score_lowered, H. reflexivity.
Qed.

End LocatorMore.

Section LocatorMoreWitness.

Import Str Extraction.

Lemma exact_match_wins_witness :
  find_text_locations
    [Word "FLANGE" 0 0 5 1; Word "SS316" 6 0 9 1; Word "ss316L" 1 2 3 4]%Z
    "ss316" "" = Some (BBox 6 0 9 1)%Z.
Proof.
  apply (exact_match_wins [Word "FLANGE" 0 0 5 1]%Z [Word "ss316L" 1 2 3 4]%Z
           (Word "SS316" 6 0 9 1)%Z "ss316" "").
  - repeat constructor.
  - reflexivity.
Defined.

Lemma located_box_is_a_page_word_witness :
  exists w, w ∈ [Word "FLANGE" 0 0 5 1; Word "M8x1.25" 1 2 3 4]%Z
            /\ (BBox 1 2 3 4)%Z = box_of w
            /\ (occurs_in (Config.s "M8 bolt") w = true
                \/ ("near M8" <> "" /\ (0 < score "M8 bolt" w)%nat)).
Proof.
  apply (located_box_is_a_page_word
           [Word "FLANGE" 0 0 5 1; Word "M8x1.25" 1 2 3 4]%Z "M8 bolt" "near M8").
  vm_compute. reflexivity.
Defined.

Lemma find_text_locations_snippet_case_witness :
  lower (Config.s "m8 BOLT") = lower (Config.s "M8 bolt")
  /\ find_text_locations [Word "M8x1.25" 1 2 3 4]%Z "m8 BOLT" "ctx"
     = find_text_locations [Word "M8x1.25" 1 2 3 4]%Z "M8 bolt" "ctx".
Proof.
  split; [reflexivity|].
  apply (find_text_locations_snippet_case [Word "M8x1.25" 1 2 3 4]%Z
           "m8 BOLT" "M8 bolt" "ctx"). reflexivity.
Defined.

End LocatorMoreWitness.

(** ** Classifications of a field's values *)

Section GetClassificationsFacts.

Import Config Extraction.

Lemma elem_of_classification_fold (classifier : string -> classified)
    (values : list string) (acc : gset string) (c : string) :
  c ∈ fold_left
        (fun (acc : gset string) value =>
           match classifier value with
           | CList labels =>
               match labels with [] => acc | _ => acc ∪ list_to_set labels end
           | CStr label =>
               if String.eqb label "" then acc else acc ∪ {[ label ]}
           | CNone => acc
           end) values acc
  <-> c ∈ acc \/ exists v, v ∈ values /\ yields classifier v c.
Proof.
  revert acc. induction values as [|v values IH]; intros acc; cbn [fold_left].
  - split; [intros H; left; exact H|].
    intros [H | [v [Hv _]]]; [exact H|]. apply elem_of_nil in Hv. contradiction.
  - rewrite IH. clear IH.
    assert (c ∈ match classifier v with
                | CList labels =>
                    match labels with [] => acc | _ => acc ∪ list_to_set labels end
                | CStr label =>
                    if String.eqb label "" then acc else acc ∪ {[ label ]}
                | CNone => acc
                end
            <-> c ∈ acc \/ yields classifier v c) as Hstep.
    { unfold yields. destruct (classifier v) as [labels | label |].
      - destruct labels as [|l0 labels].
        + split; [intros H; left; exact H|]. intros [H | H]; [exact H|].
          apply elem_of_nil in H. contradiction.
        + rewrite elem_of_union, elem_of_list_to_set. reflexivity.
      - destruct (String.eqb label "") eqn:E.
        + apply String.eqb_eq in E. split; [intros H; left; exact H|].
          intros [H | [_ H]]; [exact H | contradiction].
        + apply String.eqb_neq in E. rewrite elem_of_union, elem_of_singleton.
          split; (intros [H | H]; [left; exact H | right]).
          * split; assumption.
          * destruct H as [H _]. exact H.
      - split; [intros H; left; exact H | intros [H | []]; exact H]. }
    rewrite Hstep. split.
    + intros [[H | H] | [v' [Hv' Hy]]].
      * left. exact H.
      * right. exists v. split; [apply list_elem_of_here | exact H].
      * right. exists v'. split; [apply list_elem_of_further, Hv' | exact Hy].
    + intros [H | [v' [Hv' Hy]]].
      * left. left. exact H.
      * apply elem_of_cons in Hv'. destruct Hv' as [-> | Hv'].
        -- left. right. exact Hy.
        -- right. exists v'. split; assumption.
Qed.

(** A label is shown for a field exactly when the classifier of the field
    gives it for one of the values; the order of the values and their
    repetitions do not matter. A field without classifier shows none. *)
Theorem get_classifications_spec (field_name : string) (values : list string)
    (c : string) :
  match CLASSIFICATION_MAPPING !! field_name with
  | Some classifier =>
      c ∈ get_classifications field_name values
      <-> exists v, v ∈ values /\ yields classifier v c
  | None => get_classifications field_name values = []
  end.
Proof.
  unfold get_classifications.
  destruct (CLASSIFICATION_MAPPING !! field_name) as [classifier|]; [|reflexivity].
  rewrite merge_sort_Permutation, elem_of_elements, elem_of_classification_fold.
  split; [intros [H | H]; [|exact H] | intros H; right; exact H].
  apply not_elem_of_empty in H. contradiction.
Qed.

Lemma str_le_total : Total str_le.
Proof. intros a b. unfold str_le. apply String.leb_total. Qed.

(** The labels come out in ascending order and without repetition. *)
Theorem get_classifications_sorted (field_name : string) (values : list string) :
  Sorted str_le (get_classifications field_name values)
  /\ NoDup (get_classifications field_name values).
Proof.
  unfold get_classifications.
  destruct (CLASSIFICATION_MAPPING !! field_name) as [classifier|].
  - split; [apply Sorted_merge_sort, str_le_total|].
    rewrite merge_sort_Permutation. apply NoDup_elements.
  - split; constructor.
Qed.

End GetClassificationsFacts.

(** ** Regex pass: what the sets hold *)

Section RegexPassMore.

Import Str Re Config Extraction.

Lemma regex_step_lookup (label l : string) (d : gmap string (gset string))
    (m : found) (x : string) :
  x ∈ default ∅ (regex_step label d m !! l)
  <-> x ∈ default ∅ (d !! l) \/ (l = label /\ kept m /\ x = stored_text m).
Proof.
  unfold regex_step, kept, stored_text, str_eqb.
  destruct (bool_decide (upper (match_text m) = s "ING")) eqn:E; cbn [negb].
  - apply bool_decide_eq_true in E. split; [intros H; left; exact H|].
    intros [H | [_ [H _]]]; [exact H | contradiction].
  - apply bool_decide_eq_false in E. unfold add_to.
    destruct (decide (label = l)) as [-> | Hne].
    + rewrite lookup_insert_eq. cbn [from_option id].
      rewrite elem_of_union, elem_of_singleton. split.
      * intros [H | H]; [left; exact H | right; repeat split; assumption].
      * intros [H | [_ [_ H]]]; [left; exact H | right; exact H].
    + rewrite lookup_insert_ne by exact Hne. split; [intros H; left; exact H|].
      intros [H | [H _]]; [exact H | congruence].
Qed.

Lemma regex_steps_lookup (label l : string) (ms : list found)
    (d : gmap string (gset string)) (x : string) :
  x ∈ default ∅ (fold_left (regex_step label) ms d !! l)
  <-> x ∈ default ∅ (d !! l)
      \/ (l = label /\ exists m, m ∈ ms /\ kept m /\ x = stored_text m).
Proof.
  revert d. induction ms as [|m ms IH]; intros d; cbn [fold_left].
  - split; [intros H; left; exact H|].
    intros [H | [_ [m [Hm _]]]]; [exact H|]. apply elem_of_nil in Hm. contradiction.
  - rewrite IH, regex_step_lookup. split.
    + intros [[H | [Hl [Hk Hx]]] | [Hl [m' [Hm' H]]]].
      * left. exact H.
      * right. split; [exact Hl|]. exists m. split; [apply list_elem_of_here|].
        split; assumption.
      * right. split; [exact Hl|]. exists m'.
        split; [apply list_elem_of_further, Hm' | exact H].
    + intros [H | [Hl [m' [Hm' H]]]].
      * left. left. exact H.
      * apply elem_of_cons in Hm'. destruct Hm' as [-> | Hm'].
        -- left. right. split; [exact Hl | exact H].
        -- right. split; [exact Hl|]. exists m'. split; assumption.
Qed.

Lemma regex_pass_with_lookup (ps : list (string * pattern)) (text_blob l x : string)
    (d : gmap string (gset string)) :
  x ∈ default ∅
        (fold_left
           (fun d '(label, pattern) =>
              fold_left (regex_step label) (findall pattern (s text_blob)) d)
           ps d !! l)
  <-> x ∈ default ∅ (d !! l)
      \/ exists p, (l, p) ∈ ps
                   /\ exists m, m ∈ findall p (s text_blob)
                                /\ kept m /\ x = stored_text m.
Proof.
  revert d. induction ps as [|[label p] ps IH]; intros d; cbn [fold_left].
  - split; [intros H; left; exact H|].
    intros [H | [p [Hp _]]]; [exact H|]. apply elem_of_nil in Hp. contradiction.
  - rewrite IH, regex_steps_lookup. split.
    + intros [[H | [-> H]] | [p' [Hp' H]]].
      * left. exact H.
      * right. exists p. split; [apply list_elem_of_here | exact H].
      * right. exists p'. split; [apply list_elem_of_further, Hp' | exact H].
    + intros [H | [p' [Hp' H]]].
      * left. left. exact H.
      * apply elem_of_cons in Hp'. destruct Hp' as [[= -> ->] | Hp'].
        -- left. right. split; [reflexivity | exact H].
        -- right. exists p'. split; assumption.
Qed.

Lemma elem_of_extracted_for (label text_blob x : string) :
  x ∈ extracted_for label text_blob
  <-> exists p, (label, p) ∈ patterns
                /\ exists m, m ∈ findall p (s text_blob)
                             /\ kept m /\ x = stored_text m.
Proof.
  unfold extracted_for, regex_extracted, regex_pass_with.
  rewrite regex_pass_with_lookup. rewrite lookup_empty. cbn [from_option].
  split; [intros [H | H]; [|exact H] | intros H; right; exact H].
  apply not_elem_of_empty in H. contradiction.
Qed.

(** The set of a field holds exactly the stripped first items of the
    matches of the field's pattern in the text, those that read "ING" in some
    letter case left out. *)
Theorem regex_extracted_spec (label text_blob x : string) :
  x ∈ extracted_for label text_blob
  <-> exists p, (label, p) ∈ patterns
                /\ exists m, m ∈ findall p (s text_blob)
                             /\ kept m /\ x = stored_text m.
Proof. apply elem_of_extracted_for. Qed.

Lemma regex_step_no_empty_set (label : string) (d : gmap string (gset string))
    (m : found) :
  no_empty_set d -> no_empty_set (regex_step label d m).
Proof.
  intros Hd. unfold regex_step.
  destruct (negb (str_eqb (upper (match_text m)) (s "ING"))); [|exact Hd].
  intros l S. unfold add_to. destruct (decide (label = l)) as [-> | Hne].
  - rewrite lookup_insert_eq. intros [= <-]. set_solver.
  - rewrite lookup_insert_ne by exact Hne. apply Hd.
Qed.

Lemma regex_pass_no_empty_set (text_blob : string) :
  no_empty_set (regex_extracted text_blob).
Proof.
  unfold regex_extracted, regex_pass_with.
  assert (no_empty_set (∅ : gmap string (gset string))) as H0.
  { intros l S H. rewrite lookup_empty in H. discriminate. }
  revert H0. generalize (∅ : gmap string (gset string)) as d.
  induction patterns as [|[label p] ps IH]; intros d Hd; cbn [fold_left]; [exact Hd|].
  apply IH. clear IH. revert d Hd.
  induction (findall p (s text_blob)) as [|m ms IHm]; intros d Hd; cbn [fold_left];
    [exact Hd|].
  apply IHm, regex_step_no_empty_set, Hd.
Qed.

(** The dictionary of the regex pass has a key for a field exactly when a
    match of the field's pattern is kept, and no key holds an empty set: a
    field whose pattern finds nothing, or only "ING", is absent. *)
Theorem regex_extracted_keys (label text_blob : string) :
  (is_Some (regex_extracted text_blob !! label)
   <-> exists p m, (label, p) ∈ patterns /\ m ∈ findall p (s text_blob) /\ kept m)
  /\ (forall S, regex_extracted text_blob !! label = Some S -> S <> ∅).
Proof.
  split; [|apply regex_pass_no_empty_set].
  split.
  - intros [S HS].
    assert (exists x, x ∈ S) as [x Hx].
    { apply set_choose_L. eapply regex_pass_no_empty_set, HS. }
    assert (x ∈ extracted_for label text_blob) as H.
    { unfold extracted_for. rewrite HS. exact Hx. }
    apply elem_of_extracted_for in H. destruct H as [p [Hp [m [Hm [Hk _]]]]].
    exists p, m. repeat split; assumption.
  - intros [p [m [Hp [Hm Hk]]]].
    assert (stored_text m ∈ extracted_for label text_blob) as H.
    { apply elem_of_extracted_for. exists p. split; [exact Hp|].
      exists m. repeat split; assumption. }
    unfold extracted_for in H.
    destruct (regex_extracted text_blob !! label) as [S|]; [eexists; reflexivity|].
    apply not_elem_of_empty in H. contradiction.
Qed.

Lemma lstrip_spec (t : list ascii) :
  exists pre, t = pre ++ lstrip t /\ forallb is_space pre = true
              /\ stops is_space (lstrip t).
Proof.
  induction t as [|c t IH]; cbn [lstrip].
  - exists []. repeat split.
  - destruct (is_space c) eqn:E.
    + destruct IH as [pre [Ht [Hpre Hs]]]. exists (c :: pre).
      split; [cbn [app]; f_equal; exact Ht|].
      split; [cbn [forallb]; rewrite E, Hpre; reflexivity | exact Hs].
    + exists []. split; [reflexivity|]. split; [reflexivity | exact E].
Qed.

(** [strip] leaves no white space at either end. *)
Lemma strip_stops (t : list ascii) :
  stops is_space (strip t) /\ stops is_space (rev (strip t)).
Proof.
  unfold strip. destruct (lstrip_spec t) as [pre [_ [_ Ha]]].
  set (a := lstrip t) in *. clearbody a. clear t pre.
  destruct (lstrip_spec (rev a)) as [pre [Hra [Hpre Hb]]].
  set (b := lstrip (rev a)) in *. clearbody b.
  split; [|rewrite rev_involutive; exact Hb].
  assert (a = rev b ++ rev pre) as ->.
  { rewrite <- (rev_involutive a), Hra, rev_app_distr. reflexivity. }
  destruct (rev b) as [|c rb] eqn:Erb; [exact I|].
  exact Ha.
Qed.

Lemma of_string_to_string (t : list ascii) : of_string (to_string t) = t.
Proof. apply list_ascii_of_string_of_list_ascii. Qed.

(** Whatever the regex pass stores carries no white space at its ends. *)
Theorem regex_extracted_stripped (label text_blob x : string) :
  x ∈ extracted_for label text_blob ->
  stops is_space (s x) /\ stops is_space (rev (s x)).
Proof.
  intros H. apply elem_of_extracted_for in H.
  destruct H as [p [_ [m [_ [_ ->]]]]]. unfold stored_text, s.
  rewrite of_string_to_string. apply strip_stops.
Qed.

End RegexPassMore.

Section RegexPassMoreWitness.

Import Str Re Config Extraction.

Lemma regex_extracted_stripped_witness :
  "SS" ∈ extracted_for "material" "SS flange"
  /\ stops is_space (s "SS") /\ stops is_space (rev (s "SS")).
Proof.
  assert ("SS" ∈ extracted_for "material" "SS flange") as H.
  { vm_compute. reflexivity. }
  split; [exact H|].
  exact (regex_extracted_stripped "material" "SS flange" "SS" H).
Defined.

End RegexPassMoreWitness.

(** ** The size pattern on any text *)

Section SizeGeneral.

Import Str Re Config.

Lemma point_needed (icase : bool) (c : ascii) :
  lit_matches icase "." c = true -> eqb_char c "." = true.
Proof.
  intros H. destruct (eqb_char c ".") eqn:E; [reflexivity|].
  rewrite (point_only icase c E) in H. discriminate.
Qed.

Lemma plus_digit_stops (icase : bool) (st : mstate) (k : mstate -> option mstate) :
  stops is_digit (rest st) -> rmatch icase (Plus Digit) st k = None.
Proof.
  intros H. cbn [rmatch]. change (rmatch icase Digit) with (step_if is_digit).
  apply step_if_stops, H.
Qed.

(** The number part passes a whole numeral, whatever follows it. *)
Lemma number_run_gen (icase : bool) (n ip fp tl : str) (st : mstate)
    (k : mstate -> option mstate) :
  numeral n ip fp -> numeral_ends fp tl ->
  rest st = n ++ tl ->
  is_Some (k (moved st n tl)) ->
  rmatch icase number_re st k = k (moved st n tl).
Proof.
  intros Hn [Hd Hp] Hrest Hk.
  unfold number_re. cbn [rmatch]. destruct Hn as [ds Hne Hds | ds fs Hne Hds Hnf Hfs].
  - assert ((orelse
               (step_if (lit_matches icase ".") (moved st ds tl)
                  (fun st' => rmatch icase (Plus Digit) st' k))
               (fun _ => k (moved st ds tl))) = k (moved st ds tl)) as Hopt.
    { specialize (Hp eq_refl). unfold step_if. cbn [moved rest].
      destruct tl as [|c0 tl1]; [reflexivity|].
      destruct (lit_matches icase "." c0) eqn:E0; [|reflexivity].
      apply point_needed in E0.
      rewrite plus_digit_stops; [reflexivity|]. cbn [rest].
      destruct tl1 as [|c tl2]; [exact I | exact (Hp E0)]. }
    change (rmatch icase (Plus Digit) st
              (fun st' => orelse
                 (step_if (lit_matches icase ".") st'
                    (fun st'0 => rmatch icase (Plus Digit) st'0 k))
                 (fun _ => k st')) = k (moved st ds tl)).
    rewrite (plus_digit_run icase ds tl st); try assumption.
    rewrite Hopt. exact Hk.
  - rewrite <- app_assoc in Hrest. cbn [app] in Hrest.
    assert (moved st (ds ++ "."%char :: fs) tl
            = moved (moved (moved st ds ("."%char :: fs ++ tl)) ["."%char] (fs ++ tl)) fs tl)
      as Hm.
    { rewrite !moved_moved. reflexivity. }
    rewrite Hm in *.
    assert ((orelse
               (step_if (lit_matches icase ".") (moved st ds ("."%char :: fs ++ tl))
                  (fun st' => rmatch icase (Plus Digit) st' k))
               (fun _ => k (moved st ds ("."%char :: fs ++ tl))))
            = k (moved (moved (moved st ds ("."%char :: fs ++ tl)) ["."%char] (fs ++ tl)) fs tl))
      as Hopt.
    { rewrite (step_if_ok _ _ "."%char (fs ++ tl)); [|reflexivity | apply point_matches].
      rewrite (plus_digit_run icase fs tl); try assumption; [|reflexivity].
      destruct Hk as [r Hr]. rewrite Hr. reflexivity. }
    change (rmatch icase (Plus Digit) st
              (fun st' => orelse
                 (step_if (lit_matches icase ".") st'
                    (fun st'0 => rmatch icase (Plus Digit) st'0 k))
                 (fun _ => k st'))
            = k (moved (moved (moved st ds ("."%char :: fs ++ tl)) ["."%char] (fs ++ tl)) fs tl)).
    rewrite (plus_digit_run icase ds ("."%char :: fs ++ tl) st); try assumption.
    + reflexivity.
    + rewrite Hopt. exact Hk.
Qed.

Lemma size_run_gen (icase : bool) (n ip fp sp tl : str) (st : mstate) :
  numeral n ip fp ->
  forallb is_space sp = true -> stops is_space tl ->
  numeral_ends fp (sp ++ tl) ->
  rest st = n ++ sp ++ tl ->
  rmatch icase size_re st Some
  = Some (with_unit icase
            (moved (set_cap 1 (pos st, (length n + pos st)%nat) (moved st n (sp ++ tl)))
               sp tl)).
Proof.
  intros Hn Hsp Htl Hstop Hrest.
  change (rmatch icase number_re st
            (fun st' =>
               rmatch icase (Seq (Star Space) (Seq (Opt unit_re) Empty))
                 (set_cap 1 (pos st, pos st') st') Some)
          = Some (with_unit icase
                    (moved (set_cap 1 (pos st, (length n + pos st)%nat)
                              (moved st n (sp ++ tl))) sp tl))).
  rewrite (number_run_gen icase n ip fp (sp ++ tl) st); try assumption.
  - apply size_tail_run; [assumption | assumption | reflexivity].
  - rewrite (size_tail_run icase sp tl); [eexists; reflexivity | assumption | assumption | reflexivity].
Qed.

(** What the size pattern matches at a numeral, whatever follows: the
    numeral as group 1, the white space after it, and the unit read there
    as group 2. *)
Lemma match_at_size_gen (icase : bool) (pv : option ascii) (n ip fp sp tl : str)
    (i : nat) :
  numeral n ip fp ->
  forallb is_space sp = true -> stops is_space tl ->
  numeral_ends fp (sp ++ tl) ->
  match_at (size_pattern icase) pv (n ++ sp ++ tl) i
  = Some (Match i (n ++ sp ++ group_text (unit_at icase tl))
            [Some n; unit_at icase tl]).
Proof.
  intros Hn Hsp Htl Hstop. unfold match_at, size_pattern. cbn [tree ignorecase ngroups].
  rewrite (size_run_gen icase n ip fp sp tl) by (assumption || reflexivity).
  unfold with_unit. cbn [moved set_cap rest pos caps].
  destruct (unit_at icase tl) as [u|] eqn:Eu.
  - destruct (unit_at_split _ _ _ Eu) as [tail ->].
    cbn [moved set_cap rest pos caps seq map get_cap Nat.eqb option_map group_text].
    f_equal. f_equal.
    + replace (length u + (length sp + (length n + i)) - i)%nat
        with (length (n ++ sp ++ u)) by (rewrite !length_app; lia).
      replace (n ++ sp ++ u ++ tail) with ((n ++ sp ++ u) ++ tail)
        by (rewrite <- !app_assoc; reflexivity).
      apply take_app_length.
    + f_equal; [|f_equal].
      * f_equal. rewrite slice_from_start. apply take_app_length.
      * f_equal. unfold slice. cbn [fst snd].
        replace (length u + (length sp + (length n + i)) - (length sp + (length n + i)))%nat
          with (length u) by lia.
        replace (length sp + (length n + i) - i)%nat with (length (n ++ sp))
          by (rewrite length_app; lia).
        replace (n ++ sp ++ u ++ tail) with ((n ++ sp) ++ u ++ tail)
          by (rewrite <- !app_assoc; reflexivity).
        rewrite drop_app_length. apply take_app_length.
  - cbn [moved set_cap rest pos caps seq map get_cap Nat.eqb option_map group_text].
    rewrite app_nil_r.
    f_equal. f_equal.
    + replace (length sp + (length n + i) - i)%nat with (length (n ++ sp))
        by (rewrite length_app; lia).
      replace (n ++ sp ++ tl) with ((n ++ sp) ++ tl)
        by (rewrite <- !app_assoc; reflexivity).
      apply take_app_length.
    + f_equal. f_equal. rewrite slice_from_start. apply take_app_length.
Qed.

(** Every text splits into its longest head run of characters that pass
    [test] and the rest. *)
Lemma run_split (test : ascii -> bool) (t : str) :
  exists a b, t = a ++ b /\ forallb test a = true /\ stops test b.
Proof.
  induction t as [|c t IH].
  - exists [], []. repeat split.
  - destruct (test c) eqn:E.
    + destruct IH as [a [b [-> [Ha Hb]]]]. exists (c :: a), b.
      split; [reflexivity|]. split; [cbn [forallb]; rewrite E, Ha; reflexivity | exact Hb].
    + exists [], (c :: t). split; [reflexivity|]. split; [reflexivity | exact E].
Qed.

(** A text that starts with a digit starts with a numeral, white space and
    a rest, laid out as the size pattern reads them. *)
Lemma numeral_split (c : ascii) (t : str) :
  is_digit c = true ->
  exists n ip fp sp tl,
    c :: t = n ++ sp ++ tl /\ numeral n ip fp
    /\ forallb is_space sp = true /\ stops is_space tl
    /\ numeral_ends fp (sp ++ tl).
Proof.
  intros Hc.
  destruct (run_split is_digit (c :: t)) as [ds [r [Ht [Hds Hr]]]].
  assert (ds <> []) as Hne.
  { intros ->. cbn [app] in Ht. subst r. cbn [stops] in Hr. congruence. }
  assert (forall n ip fp rest0,
            c :: t = n ++ rest0 -> numeral n ip fp -> numeral_ends fp rest0 ->
            exists n ip fp sp tl,
              c :: t = n ++ sp ++ tl /\ numeral n ip fp
              /\ forallb is_space sp = true /\ stops is_space tl
              /\ numeral_ends fp (sp ++ tl)) as Hfin.
  { intros n ip fp rest0 Hn0 Hnum Hend.
    destruct (run_split is_space rest0) as [sp [tl [-> [Hsp Htl]]]].
    exists n, ip, fp, sp, tl.
    split; [exact Hn0|]. split; [exact Hnum|]. split; [exact Hsp|].
    split; [exact Htl | exact Hend]. }
  destruct r as [|c0 r'].
  { apply (Hfin ds ds [] []); [exact Ht | apply numeral_int; assumption|].
    split; [exact I | intros _; exact I]. }
  destruct (eqb_char c0 ".") eqn:E0.
  - apply eqb_char_eq in E0. subst c0.
    destruct (run_split is_digit r') as [fs [r'' [-> [Hfs Hr'']]]].
    destruct fs as [|f fs].
    + cbn [app] in *. apply (Hfin ds ds [] ("."%char :: r''));
        [exact Ht | apply numeral_int; assumption|].
      split; [reflexivity|]. intros _. destruct r'' as [|c1 r3]; [exact I|].
      intros _. exact Hr''.
    + apply (Hfin (ds ++ "."%char :: f :: fs) ds (f :: fs) r'').
      * rewrite Ht, <- app_assoc. reflexivity.
      * apply numeral_dec; [assumption | assumption | discriminate | assumption].
      * split; [exact Hr'' | discriminate].
  - apply (Hfin ds ds [] (c0 :: r')); [exact Ht | apply numeral_int; assumption|].
    split; [exact Hr|]. intros _. destruct r' as [|c1 r3]; [exact I|].
    intros H. congruence.
Qed.

(** Every match of the size pattern has the shape numeral, white space,
    unit. *)
Lemma match_at_size_shaped (icase : bool) (pv : option ascii) (t : str) (i : nat)
    (m : rmatch_obj) :
  match_at (size_pattern icase) pv t i = Some m -> size_shaped icase m.
Proof.
  destruct t as [|c t].
  { rewrite match_at_size_none by exact I. discriminate. }
  destruct (is_digit c) eqn:Hc.
  2: { rewrite match_at_size_none by exact Hc. discriminate. }
  destruct (numeral_split c t Hc) as [n [ip [fp [sp [tl [-> [Hn [Hsp [Htl Hend]]]]]]]]].
  rewrite (match_at_size_gen icase pv n ip fp sp tl i Hn Hsp Htl Hend).
  intros [= <-]. exists n, ip, fp, sp, tl.
  split; [exact Hn|]. split; [exact Hsp|]. split; reflexivity.
Qed.

Lemma scan_size_shaped (icase : bool) (t : str) (skip : nat) (pv : option ascii)
    (i : nat) (m : rmatch_obj) :
  m ∈ scan (size_pattern icase) skip pv t i -> size_shaped icase m.
Proof.
  revert skip pv i. induction t as [|c t IH]; intros skip pv i.
  - destruct skip as [|skip]; cbn [scan].
    + destruct (match_at (size_pattern icase) pv [] i) as [m'|] eqn:E.
      * intros H. apply elem_of_cons in H. destruct H as [-> | H].
        -- eapply match_at_size_shaped, E.
        -- apply elem_of_nil in H. contradiction.
      * intros H. apply elem_of_nil in H. contradiction.
    + intros H. apply elem_of_nil in H. contradiction.
  - destruct skip as [|skip]; cbn [scan].
    + destruct (match_at (size_pattern icase) pv (c :: t) i) as [m'|] eqn:E.
      * intros H. apply elem_of_cons in H. destruct H as [-> | H].
        -- eapply match_at_size_shaped, E.
        -- eapply IH, H.
      * apply IH.
    + apply IH.
Qed.

(** A text with a digit has a match of the size pattern. *)
Lemma scan_size_digit (icase : bool) (t : str) (pv : option ascii) (i : nat) :
  existsb is_digit t = true -> scan (size_pattern icase) 0 pv t i <> [].
Proof.
  revert pv i. induction t as [|c t IH]; intros pv i; [discriminate|].
  cbn [existsb scan]. destruct (is_digit c) eqn:Hc.
  - intros _.
    destruct (numeral_split c t Hc) as [n [ip [fp [sp [tl [-> [Hn [Hsp [Htl Hend]]]]]]]]].
    rewrite (match_at_size_gen icase pv n ip fp sp tl i Hn Hsp Htl Hend). discriminate.
  - cbn [orb]. intros H. rewrite match_at_size_none by exact Hc. apply IH, H.
Qed.

Lemma no_digit_forallb (t : str) :
  existsb is_digit t = false -> forallb (fun c => negb (is_digit c)) t = true.
Proof.
  induction t as [|c t IH]; [reflexivity|]. cbn [existsb forallb].
  intros H. apply orb_false_iff in H. destruct H as [Hc H].
  rewrite Hc, (IH H). reflexivity.
Qed.

(** The size pattern has a match in a text exactly when the text has a
    digit. *)
Lemma finditer_size_nil (icase : bool) (t : str) :
  finditer (size_pattern icase) t = [] <-> existsb is_digit t = false.
Proof.
  unfold finditer. split.
  - intros H. destruct (existsb is_digit t) eqn:E; [|reflexivity].
    exfalso. exact (scan_size_digit icase t None 0 E H).
  - intros H. apply scan_no_digit, no_digit_forallb, H.
Qed.

End SizeGeneral.

(** ** Sizes, units and duty types on any value *)

Section SizeMore.

Import Str Re Config.

Lemma lits_prefix_lower (icase : bool) (l t : str) :
  lits_prefix icase l t = true -> lower (take (length l) t) = lower l.
Proof.
  destruct icase; [apply lits_prefix_lower_take|].
  revert t. induction l as [|c l IH]; intros t H; [reflexivity|].
  destruct t as [|x t]; [discriminate|].
  cbn [lits_prefix] in H. apply andb_true_iff in H. destruct H as [Hc H].
  apply eqb_char_eq in Hc. subst x. cbn [length take].
  change (lower (c :: take (length l) t)) with (lower_char c :: lower (take (length l) t)).
  rewrite (IH _ H). reflexivity.
Qed.

Lemma lits_prefix_exact (l t : str) :
  lits_prefix false l t = true -> take (length l) t = l.
Proof.
  revert t. induction l as [|c l IH]; intros t H; [reflexivity|].
  destruct t as [|x t]; [discriminate|].
  cbn [lits_prefix] in H. apply andb_true_iff in H. destruct H as [Hc H].
  apply eqb_char_eq in Hc. subst x. cbn [length take]. rewrite (IH _ H). reflexivity.
Qed.

(** The unit read by the size pattern is "mm" or "in", in the letter case of
    the text: the alternative "inch" is never the one that matches, since
    "in" comes before it. *)
Lemma unit_at_Some (icase : bool) (tl u : str) :
  unit_at icase tl = Some u ->
  (lower u = s "mm" \/ lower u = s "in")
  /\ (icase = false -> u = s "mm" \/ u = s "in").
Proof.
  unfold unit_at.
  destruct (lits_prefix icase (s "mm") tl) eqn:E1.
  { intros [= <-]. split.
    - left. apply (lits_prefix_lower icase (s "mm") tl E1).
    - intros ->. left. apply (lits_prefix_exact (s "mm") tl E1). }
  destruct (lits_prefix icase (s "in") tl) eqn:E2.
  { intros [= <-]. split.
    - right. apply (lits_prefix_lower icase (s "in") tl E2).
    - intros ->. right. apply (lits_prefix_exact (s "in") tl E2). }
  destruct (lits_prefix icase (s "inch") tl) eqn:E3; [|discriminate].
  exfalso. unfold s in E2, E3.
  cbn [of_string list_ascii_of_string] in E2, E3.
  destruct tl as [|a tl]; [discriminate E3|].
  destruct tl as [|b tl].
  { cbn [lits_prefix] in E3. rewrite andb_false_r in E3. discriminate E3. }
  cbn [lits_prefix] in E2, E3.
  destruct (lit_matches icase "i" a), (lit_matches icase "n" b);
    cbn [andb] in E2, E3; discriminate.
Qed.

(** Every match of the size pattern, in any value, carries a numeral as
    group 1, so that [float] of it is defined, and as group 2 nothing or a
    unit that reads "mm" or "in"; the sizes that the classifiers compare are
    then: the number divided by 25.4 unless the unit reads "in"
    ([classify_diameter]), the number multiplied by 25.4 when the unit is
    "in" ([classify_thread], whose pattern is case-sensitive). *)
Theorem size_match_well_formed (icase : bool) (value : string) (m : rmatch_obj) :
  m ∈ finditer (size_pattern icase) (s value) ->
  exists n ip fp,
    group m 1 = Some n /\ numeral n ip fp
    /\ (group m 2 = None
        \/ exists u, group m 2 = Some u
                     /\ (lower u = s "mm" \/ lower u = s "in")
                     /\ (icase = false -> u = s "mm" \/ u = s "in"))
    /\ diameter_inches m
       = (if bool_decide (option_map lower (group m 2) = Some (s "in"))
          then F64.of_decimal ip fp
          else F64.div (F64.of_decimal ip fp) f_25_4)
    /\ (icase = false ->
        thread_mm m
        = (if bool_decide (group m 2 = Some (s "in"))
           then F64.mul (F64.of_decimal ip fp) f_25_4
           else F64.of_decimal ip fp)).
Proof.
  intros Hm. apply scan_size_shaped in Hm.
  destruct Hm as [n [ip [fp [sp [tl [Hn [_ [_ Hg]]]]]]]].
  exists n, ip, fp. unfold group, diameter_inches, thread_mm, size_and_unit, group.
  rewrite Hg. cbn [nth group_text]. rewrite (float_of_text_numeral _ _ _ Hn).
  split; [reflexivity|]. split; [exact Hn|].
  destruct (unit_at icase tl) as [u|] eqn:Eu.
  - destruct (unit_at_Some _ _ _ Eu) as [Hl Hx].
    split; [right; exists u; repeat split; assumption|].
    assert (u <> []) as Hne by (intros ->; destruct Hl; discriminate).
    destruct u as [|c u]; [contradiction|]. cbn [option_map].
    split.
    + destruct Hl as [Hl | Hl]; rewrite Hl; reflexivity.
    + intros Hi. destruct (Hx Hi) as [-> | ->]; reflexivity.
  - split; [left; reflexivity|]. split; [reflexivity | intros _; reflexivity].
Qed.

(** A value without a digit is classified by neither size classifier; the
    empty value in particular. *)
Theorem no_digit_no_classification (v : string) :
  existsb is_digit (s v) = false ->
  classify_diameter v = None /\ classify_thread v = None.
Proof.
  intros H. unfold classify_diameter, classify_thread, diameter_classes, thread_classes.
  rewrite !(proj2 (finditer_size_nil _ (s v)) H). cbn [fold_left].
  split; apply list_or_none_None; reflexivity.
Qed.

Lemma thread_label_Some (t : string) (x : F64.float) :
  t = "stud" \/ t = "anchor" \/ t = "hole" -> is_Some (thread_label t x).
Proof.
  unfold thread_label. intros [-> | [-> | ->]]; cbn [String.eqb Ascii.eqb Bool.eqb];
    match goal with |- context [if ?b then _ else _] => destruct b end;
    eexists; reflexivity.
Qed.

Lemma thread_label_duty (t : string) (x : F64.float) (l : string) :
  thread_label t x = Some l ->
  (t = "stud" /\ (l = "Light Duty Stud" \/ l = "Heavy Duty Stud"))
  \/ (t = "anchor" /\ (l = "Standard Anchor" \/ l = "Heavy Duty Anchor"))
  \/ (t = "hole" /\ (l = "Standard Hole" \/ l = "Large Hole")).
Proof.
  unfold thread_label. intros H.
  destruct (String.eqb t "stud") eqn:E1.
  { apply String.eqb_eq in E1. left. split; [exact E1|].
    destruct (F64.leb x (F64.of_Z 20)); injection H as <-; [left | right]; reflexivity. }
  destruct (String.eqb t "anchor") eqn:E2.
  { apply String.eqb_eq in E2. right. left. split; [exact E2|].
    destruct (F64.leb x (F64.of_Z 25)); injection H as <-; [left | right]; reflexivity. }
  destruct (String.eqb t "hole") eqn:E3; [|discriminate H].
  apply String.eqb_eq in E3. right. right. split; [exact E3|].
  destruct (F64.leb x (F64.of_Z 20)); injection H as <-; [left | right]; reflexivity.
Qed.

(** [classify_thread] returns labels exactly when the duty type of the value
    is stud, anchor or hole and the value has a digit. *)
Theorem classify_thread_labelled_iff (v : string) :
  classify_thread v <> None
  <-> (thread_type v = "stud" \/ thread_type v = "anchor" \/ thread_type v = "hole")
      /\ existsb is_digit (s v) = true.
Proof.
  unfold classify_thread. rewrite list_or_none_None. split.
  - intros H. apply set_choose_L in H. destruct H as [l Hl].
    apply elem_of_thread_classes in Hl. destruct Hl as [m [Hm Hlab]]. split.
    + apply thread_label_duty in Hlab. tauto.
    + destruct (existsb is_digit (s v)) eqn:E; [reflexivity|].
      apply (finditer_size_nil false) in E. rewrite E in Hm.
      apply elem_of_nil in Hm. contradiction.
  - intros [Ht Hd] Hempty.
    destruct (finditer (size_pattern false) (s v)) as [|m ms] eqn:E.
    { apply (finditer_size_nil false) in E. congruence. }
    destruct (thread_label_Some (thread_type v) (thread_mm m) Ht) as [l Hl].
    assert (l ∈ thread_classes v) as Hin.
    { apply elem_of_thread_classes. exists m. rewrite E.
      split; [apply list_elem_of_here | exact Hl]. }
    rewrite Hempty in Hin. apply not_elem_of_empty in Hin. contradiction.
Qed.

(** The labels of a value all belong to its one duty type, so there are at
    most two of them. *)
Theorem classify_thread_one_duty_type (v : string) (ls : list string) :
  classify_thread v = Some ls ->
  (length ls <= 2)%nat
  /\ ((thread_type v = "stud"
       /\ Forall (fun l => l = "Light Duty Stud" \/ l = "Heavy Duty Stud") ls)
      \/ (thread_type v = "anchor"
          /\ Forall (fun l => l = "Standard Anchor" \/ l = "Heavy Duty Anchor") ls)
      \/ (thread_type v = "hole"
          /\ Forall (fun l => l = "Standard Hole" \/ l = "Large Hole") ls)).
Proof.
  intros Hls.
  assert (forall l, l ∈ ls ->
            (thread_type v = "stud" /\ (l = "Light Duty Stud" \/ l = "Heavy Duty Stud"))
            \/ (thread_type v = "anchor"
                /\ (l = "Standard Anchor" \/ l = "Heavy Duty Anchor"))
            \/ (thread_type v = "hole" /\ (l = "Standard Hole" \/ l = "Large Hole")))
    as Hall.
  { intros l Hl. apply (elem_of_list_or_none _ _ l Hls) in Hl.
    apply elem_of_thread_classes in Hl. destruct Hl as [m [_ Hlab]].
    apply thread_label_duty in Hlab. exact Hlab. }
  assert (ls <> []) as Hne.
  { unfold classify_thread, list_or_none in Hls.
    destruct (decide (thread_classes v = ∅)) as [|Hn]; [discriminate|].
    injection Hls as <-. intros Hnil. apply Hn.
    apply elements_empty_inv in Hnil. apply leibniz_equiv, Hnil. }
  assert (forall a b : string,
            Forall (fun l => l = a \/ l = b) ls -> (length ls <= 2)%nat) as Hlen.
  { intros a b Hab. unfold classify_thread, list_or_none in Hls.
    destruct (decide (thread_classes v = ∅)); [discriminate|].
    injection Hls as <-.
    assert (thread_classes v ⊆ {[a; b]}) as Hsub.
    { intros l Hl. apply elem_of_elements in Hl.
      rewrite Forall_forall in Hab. destruct (Hab l Hl) as [-> | ->]; set_solver. }
    apply subseteq_size in Hsub. etransitivity; [exact Hsub|].
    rewrite size_union_alt, !size_singleton.
    pose proof (subseteq_size ({[b]} ∖ {[a]}) ({[b]} : gset string)) as Hd.
    rewrite size_singleton in Hd.
    assert (({[b]} ∖ {[a]} : gset string) ⊆ {[b]}) as Hdiff.
    { intros y Hy. apply elem_of_difference in Hy. apply Hy. }
    specialize (Hd Hdiff). lia. }
  destruct ls as [|l0 ls']; [contradiction|].
  destruct (Hall l0 (list_elem_of_here _ _)) as [[Ht _] | [[Ht _] | [Ht _]]].
  - assert (Forall (fun l => l = "Light Duty Stud" \/ l = "Heavy Duty Stud") (l0 :: ls'))
      as HF.
    { apply Forall_forall. intros l Hl.
      destruct (Hall l Hl) as [[_ H] | [[Ht' _] | [Ht' _]]]; [exact H | |];
        rewrite Ht in Ht'; discriminate. }
    split; [eapply Hlen, HF | left; split; assumption].
  - assert (Forall (fun l => l = "Standard Anchor" \/ l = "Heavy Duty Anchor") (l0 :: ls'))
      as HF.
    { apply Forall_forall. intros l Hl.
      destruct (Hall l Hl) as [[Ht' _] | [[_ H] | [Ht' _]]]; [| exact H |];
        rewrite Ht in Ht'; discriminate. }
    split; [eapply Hlen, HF | right; left; split; assumption].
  - assert (Forall (fun l => l = "Standard Hole" \/ l = "Large Hole") (l0 :: ls'))
      as HF.
    { apply Forall_forall. intros l Hl.
      destruct (Hall l Hl) as [[Ht' _] | [[Ht' _] | [_ H]]]; [| | exact H];
        rewrite Ht in Ht'; discriminate. }
    split; [eapply Hlen, HF | right; right; split; assumption].
Qed.

End SizeMore.

Section SizeMoreWitness.

Import Str Re Config.

Lemma size_match_well_formed_witness :
  exists n ip fp,
    group (Match 0 (s "6 in") [Some (s "6"); Some (s "in")]) 1 = Some n
    /\ numeral n ip fp.
Proof.
  assert (Match 0 (s "6 in") [Some (s "6"); Some (s "in")]
          ∈ finditer (size_pattern true) (s "6 inch pipe")) as Hm.
  { vm_compute. apply list_elem_of_here. }
  destruct (size_match_well_formed true "6 inch pipe" _ Hm) as [n [ip [fp [H1 [H2 _]]]]].
  exists n, ip, fp. split; assumption.
Defined.

Lemma no_digit_no_classification_witness :
  existsb is_digit (s "") = false
  /\ classify_diameter "" = None /\ classify_thread "" = None.
Proof.
  split; [reflexivity|]. apply (no_digit_no_classification ""). reflexivity.
Defined.

Lemma classify_thread_one_duty_type_witness :
  classify_thread "M8x1.25 stud, M24 stud" = Some ["Light Duty Stud"; "Heavy Duty Stud"]
  /\ (length ["Light Duty Stud"; "Heavy Duty Stud"] <= 2)%nat.
Proof.
  assert (classify_thread "M8x1.25 stud, M24 stud"
          = Some ["Light Duty Stud"; "Heavy Duty Stud"]) as H.
  { vm_compute. reflexivity. }
  split; [exact H|].
  exact (proj1 (classify_thread_one_duty_type _ _ H)).
Defined.

End SizeMoreWitness.

(** ** Duty type, inches, material: what decides *)

Section DecisionFacts.

Import Str Re Config.

(** At one place at most one duty keyword starts, and [kw_at] finds it. *)
Lemma kw_at_prefix (t : str) (k : string) :
  k ∈ ["stud"; "anchor"; "hole"; "bolt"] ->
  prefixb (s k) t = true -> kw_at t = Some k.
Proof.
  intros Hk Hp. unfold kw_at.
  destruct t as [|c t].
  { repeat (apply elem_of_cons in Hk; destruct Hk as [-> | Hk]; [discriminate Hp|]).
    apply elem_of_nil in Hk. contradiction. }
  unfold s in *. cbn [of_string list_ascii_of_string prefixb] in Hp |- *.
  repeat (apply elem_of_cons in Hk; destruct Hk as [-> | Hk];
          [cbn [of_string list_ascii_of_string prefixb] in Hp;
           apply andb_true_iff in Hp; destruct Hp as [Hc Hp];
           apply eqb_char_eq in Hc; subst c; cbn [eqb_char Ascii.eqb Bool.eqb andb];
           unfold eqb_char in Hp |- *; cbn [Ascii.eqb Bool.eqb andb] in Hp |- *;
           rewrite ?Hp; reflexivity|]).
  apply elem_of_nil in Hk. contradiction.
Qed.

(** [first_kw] returns the keyword that starts leftmost. *)
Lemma first_kw_leftmost (t : str) (k : string) :
  first_kw t = Some k ->
  exists pre post,
    t = pre ++ s k ++ post
    /\ forall (k' : string) (pre' post' : str),
         k' ∈ ["stud"; "anchor"; "hole"; "bolt"] ->
         t = pre' ++ s k' ++ post' ->
         (length pre <= length pre')%nat /\ (length pre' = length pre -> k' = k).
Proof.
  revert k. induction t as [|c t IH]; intros k; cbn [first_kw].
  - change (kw_at []) with (@None string). discriminate.
  - destruct (kw_at (c :: t)) as [k0|] eqn:E.
    + intros [= ->]. destruct (kw_at_Some _ _ E) as [Hk Hp].
      apply prefixb_spec in Hp. destruct Hp as [post Hpost].
      exists [], post. split; [exact Hpost|].
      intros k' pre' post' Hk' Ht. split; [cbn; lia|].
      intros Hlen. destruct pre' as [|x pre']; [|discriminate Hlen].
      cbn [app] in Ht.
      assert (kw_at (c :: t) = Some k') as E'.
      { apply kw_at_prefix; [exact Hk'|]. apply prefixb_spec. exists post'. exact Ht. }
      congruence.
    + intros H. destruct (IH k H) as [pre [post [Ht Hmin]]].
      exists (c :: pre), post. split; [cbn [app]; f_equal; exact Ht|].
      intros k' pre' post' Hk' Ht'. destruct pre' as [|x pre'].
      * exfalso. cbn [app] in Ht'.
        assert (kw_at (c :: t) = Some k') as E'.
        { apply kw_at_prefix; [exact Hk'|]. apply prefixb_spec. exists post'. exact Ht'. }
        congruence.
      * cbn [app] in Ht'. injection Ht' as _ Ht'.
        destruct (Hmin k' pre' post' Hk' Ht') as [Hle Heq].
        split; [cbn [length]; lia|]. cbn [length]. intros Hl. apply Heq. lia.
Qed.

(** The duty type of a value is the keyword among stud, anchor, hole, bolt
    that starts leftmost in its lower-case form, and "unknown" when none
    occurs: a later keyword does not count, so "Hole for M8 stud" is a
    hole. *)
Theorem duty_type_is_leftmost_keyword (v : string) :
  (thread_type v = "unknown"
   /\ forall k : string, k ∈ ["stud"; "anchor"; "hole"; "bolt"] ->
                         contains (s k) (lower (s v)) = false)
  \/ (exists (k : string) (pre post : str),
        thread_type v = k /\ k ∈ ["stud"; "anchor"; "hole"; "bolt"]
        /\ lower (s v) = pre ++ s k ++ post
        /\ forall (k' : string) (pre' post' : str),
             k' ∈ ["stud"; "anchor"; "hole"; "bolt"] ->
             lower (s v) = pre' ++ s k' ++ post' ->
             (length pre <= length pre')%nat /\ (length pre' = length pre -> k' = k)).
Proof.
  rewrite thread_type_first_kw.
  destruct (first_kw (lower (s v))) as [k|] eqn:E.
  - right. destruct (first_kw_leftmost _ _ E) as [pre [post [Ht Hmin]]].
    exists k, pre, post. split; [reflexivity|].
    split; [apply (first_kw_Some _ _ E)|]. split; assumption.
  - left. split; [reflexivity|]. intros k Hk.
    destruct (contains (s k) (lower (s v))) eqn:Ec; [|reflexivity].
    exfalso. apply contains_spec in Ec. destruct Ec as [pre [post Ht]].
    revert E. rewrite Ht. clear Ht.
    induction pre as [|c pre IH]; cbn [app].
    + assert (kw_at (s k ++ post) = Some k) as Hkw.
      { apply kw_at_prefix; [exact Hk|]. apply prefixb_spec. exists post. reflexivity. }
      destruct (s k ++ post); cbn [first_kw]; rewrite Hkw; discriminate.
    + cbn [first_kw]. destruct (kw_at (c :: pre ++ s k ++ post)); [discriminate|].
      exact IH.
Qed.

Lemma first_kw_stud_after (n : string) (ip fp : str) (tail : string) :
  numeral (s n) ip fp ->
  first_kw (lower (of_string tail)) = Some "stud" ->
  thread_type (n +:+ tail) = "stud".
Proof.
  intros Hn Ht. rewrite thread_type_first_kw. unfold s at 1.
  rewrite of_string_app. fold (s n).
  rewrite first_kw_after by (eapply numeral_digit_or_point, Hn).
  rewrite Ht. reflexivity.
Qed.

(** Sizes in inches. For every numeral n: [classify_diameter] buckets n as
    it stands when "inch" or "IN" follows; [classify_thread] multiplies n by
    25.4 when "in" follows, and takes n for millimetres when "IN" follows,
    its pattern being case-sensitive. *)
Theorem sizes_in_inches (n : string) (ip fp : str) :
  numeral (s n) ip fp ->
  classify_diameter (n +:+ " inch")
  = option_map (fun l => [l]) (diameter_band (F64.of_decimal ip fp))
  /\ classify_diameter (n +:+ "IN")
     = option_map (fun l => [l]) (diameter_band (F64.of_decimal ip fp))
  /\ classify_thread (n +:+ "in stud")
     = Some [if F64.leb (F64.mul (F64.of_decimal ip fp) f_25_4) (F64.of_Z 20)
             then "Light Duty Stud" else "Heavy Duty Stud"]
  /\ classify_thread (n +:+ "IN stud")
     = Some [if F64.leb (F64.of_decimal ip fp) (F64.of_Z 20)
             then "Light Duty Stud" else "Heavy Duty Stud"].
Proof.
  intros Hn. split; [|split; [|split]].
  - unfold classify_diameter, diameter_classes.
    unfold s at 1. rewrite of_string_app. fold (s n).
    change (of_string " inch") with ([" "%char] ++ of_string "inch").
    rewrite (finditer_size_one true (s n) ip fp [" "%char] (of_string "inch") Hn);
      try reflexivity; try exact I.
    cbn [fold_left]. rewrite list_or_none_add_opt. f_equal. f_equal.
    unfold diameter_inches, size_and_unit. cbn [group m_groups nth group_text].
    rewrite (float_of_text_numeral _ _ _ Hn). reflexivity.
  - unfold classify_diameter, diameter_classes.
    unfold s at 1. rewrite of_string_app. fold (s n).
    rewrite <- (app_nil_l (of_string "IN")).
    rewrite (finditer_size_one true (s n) ip fp [] (of_string "IN") Hn);
      try reflexivity; try exact I.
    cbn [fold_left]. rewrite list_or_none_add_opt. f_equal. f_equal.
    unfold diameter_inches, size_and_unit. cbn [group m_groups nth group_text].
    rewrite (float_of_text_numeral _ _ _ Hn). reflexivity.
  - unfold classify_thread, thread_classes.
    rewrite (first_kw_stud_after n ip fp "in stud" Hn eq_refl).
    unfold s at 1. rewrite of_string_app. fold (s n).
    rewrite <- (app_nil_l (of_string "in stud")).
    rewrite (finditer_size_one false (s n) ip fp [] (of_string "in stud") Hn);
      try reflexivity; try exact I.
    cbn [fold_left]. rewrite list_or_none_add_opt.
    unfold thread_mm, size_and_unit. cbn [group m_groups nth group_text].
    rewrite (float_of_text_numeral _ _ _ Hn).
    change (unit_at false (of_string "in stud")) with (Some (s "in")). cbn iota.
    assert (existsb (str_eqb match s "in" with [] => s "mm" | _ :: _ => s "in" end)
              [s "in"; s "inch"] = true) as -> by reflexivity.
    unfold thread_label. cbn [String.eqb Ascii.eqb Bool.eqb option_map].
    destruct (F64.leb (F64.mul (F64.of_decimal ip fp) f_25_4) (F64.of_Z 20)); reflexivity.
  - unfold classify_thread, thread_classes.
    rewrite (first_kw_stud_after n ip fp "IN stud" Hn eq_refl).
    unfold s at 1. rewrite of_string_app. fold (s n).
    rewrite <- (app_nil_l (of_string "IN stud")).
    rewrite (finditer_size_one false (s n) ip fp [] (of_string "IN stud") Hn);
      try reflexivity; try exact I.
    cbn [fold_left]. rewrite list_or_none_add_opt.
    unfold thread_mm, size_and_unit. cbn [group m_groups nth group_text].
    rewrite (float_of_text_numeral _ _ _ Hn).
    change (unit_at false (of_string "IN stud")) with (@None str). cbn iota.
    change (existsb (str_eqb (s "mm")) [s "in"; s "inch"]) with false. cbn iota.
    unfold thread_label. cbn [String.eqb Ascii.eqb Bool.eqb].
    destruct (F64.leb (F64.of_decimal ip fp) (F64.of_Z 20)); reflexivity.
Qed.

Lemma sizes_in_inches_witness :
  numeral (s "0.5") (s "0") (s "5")
  /\ classify_thread ("0.5" +:+ "in stud") = Some ["Light Duty Stud"]
  /\ classify_thread ("1" +:+ "in stud") = Some ["Heavy Duty Stud"].
Proof.
  assert (numeral (s "0.5") (s "0") (s "5")) as Hn.
  { apply (numeral_dec (s "0") (s "5")); (discriminate || reflexivity). }
  assert (numeral (s "1") (s "1") []) as Hn1.
  { apply numeral_int; (discriminate || reflexivity). }
  split; [exact Hn|]. split.
  - rewrite (proj1 (proj2 (proj2 (sizes_in_inches "0.5" _ _ Hn)))).
    vm_compute. reflexivity.
  - rewrite (proj1 (proj2 (proj2 (sizes_in_inches "1" _ _ Hn1)))).
    vm_compute. reflexivity.
Defined.

Lemma stainless_has_ss (x : str) :
  contains (s "STAINLESS") x = true -> contains (s "SS") x = true.
Proof. apply (contains_mid (s "STAINLE") (s "SS") []). Qed.

Lemma aluminum_has_al (x : str) :
  contains (s "ALUMINUM") x = true -> contains (s "AL") x = true.
Proof. apply (contains_mid [] (s "AL") (s "UMINUM")). Qed.

(** What decides the material class: of the upper-cased value, whether it
    holds "SS" (then the grades 304 and 316, in this order), else "AL" (then
    6061), else "BRONZE", else "PEEK". The tests for "STAINLESS", "ALUMINUM" and
    "BRASS" change nothing; a value is left unclassified exactly when it
    holds none of "SS", "AL", "BRONZE", "PEEK". *)
Theorem classify_material_decided_by (v : string) :
  classify_material v
  = (let value := upper (s v) in
     if contains (s "SS") value then
       if contains (s "304") value then Some "Standard Stainless"
       else if contains (s "316") value then Some "Marine Grade Stainless"
       else Some "General Stainless"
     else if contains (s "AL") value then
       if contains (s "6061") value then Some "Aircraft Grade Aluminum"
       else Some "General Aluminum"
     else if contains (s "BRONZE") value then Some "High Strength/Corrosion Resistant"
     else if contains (s "PEEK") value then Some "High Performance Plastic"
     else None)
  /\ (classify_material v = None
      <-> contains (s "SS") (upper (s v)) = false
          /\ contains (s "AL") (upper (s v)) = false
          /\ contains (s "BRONZE") (upper (s v)) = false
          /\ contains (s "PEEK") (upper (s v)) = false).
Proof.
  assert (classify_material v
          = (let value := upper (s v) in
             if contains (s "SS") value then
               if contains (s "304") value then Some "Standard Stainless"
               else if contains (s "316") value then Some "Marine Grade Stainless"
               else Some "General Stainless"
             else if contains (s "AL") value then
               if contains (s "6061") value then Some "Aircraft Grade Aluminum"
               else Some "General Aluminum"
             else if contains (s "BRONZE") value then
               Some "High Strength/Corrosion Resistant"
             else if contains (s "PEEK") value then Some "High Performance Plastic"
             else None)) as Heq.
  { unfold classify_material. cbv zeta.
    pose proof (stainless_has_ss (upper (s v))) as Hst.
    pose proof (aluminum_has_al (upper (s v))) as Hal.
    pose proof (brass_has_ss (upper (s v))) as Hbr.
    destruct (contains (s "SS") (upper (s v))) eqn:Ess.
    - rewrite orb_true_r. reflexivity.
    - destruct (contains (s "STAINLESS") (upper (s v)));
        [specialize (Hst eq_refl); discriminate Hst|]. cbn [orb].
      destruct (contains (s "AL") (upper (s v))) eqn:Eal.
      + rewrite orb_true_r. reflexivity.
      + destruct (contains (s "ALUMINUM") (upper (s v)));
          [specialize (Hal eq_refl); discriminate Hal|]. cbn [orb].
        destruct (contains (s "BRASS") (upper (s v)));
          [specialize (Hbr eq_refl); discriminate Hbr|]. reflexivity. }
  split; [exact Heq|]. rewrite Heq. cbv zeta.
  destruct (contains (s "SS") (upper (s v))).
  { split; [|intros [H _]; discriminate H].
    destruct (contains (s "304") _); [discriminate|].
    destruct (contains (s "316") _); discriminate. }
  destruct (contains (s "AL") (upper (s v))).
  { split; [|intros [_ [H _]]; discriminate H].
    destruct (contains (s "6061") _); discriminate. }
  destruct (contains (s "BRONZE") (upper (s v))).
  { split; [discriminate | intros [_ [_ [H _]]]; discriminate H]. }
  destruct (contains (s "PEEK") (upper (s v))).
  { split; [discriminate | intros [_ [_ [_ H]]]; discriminate H]. }
  split; [intros _; repeat split | reflexivity].
Qed.

End DecisionFacts.

(** ** Chat session: transcript, counter and engine *)

Section ChatMore.

Import Chat.

Context {uploaded_file engine : Type}.
Variable index_documents : list uploaded_file -> outcome engine.
Variable query : engine -> string -> outcome string.

Implicit Types (st : session_state engine) (files : list uploaded_file).

Lemma count_role_app (r : string) (a b : list message) :
  count_role r (a ++ b) = (count_role r a + count_role r b)%nat.
Proof. unfold count_role. rewrite List.filter_app, length_app. reflexivity. Qed.

Lemma upload_part_keeps st files :
  messages (state (upload_part index_documents st files)) = messages st
  /\ question_count (state (upload_part index_documents st files)) = question_count st
  /\ (forall e, query_engine st = Some e ->
                upload_part index_documents st files = Ran st [] None)
  /\ existsb is_queryb (effects (upload_part index_documents st files)) = false.
Proof.
  unfold upload_part. destruct files as [|f files]; [repeat split|].
  destruct (query_engine st) as [e|] eqn:E; [repeat split|].
  destruct (index_documents (f :: files)); repeat split;
    try (intros ? H; discriminate H).
Qed.

(** What the prompt handler adds to the session. *)
Lemma prompt_part_adds st (p : string) :
  exists added,
    messages (state (prompt_part (uploaded_file := uploaded_file) query st p))
    = messages st ++ added
    /\ (length added <= 2)%nat
    /\ question_count (state (prompt_part (uploaded_file := uploaded_file) query st p))
       = (question_count st + count_role "assistant" added)%nat
    /\ (count_role "assistant" added <= count_role "user" added)%nat
    /\ (count_role "assistant" added
        <= length (List.filter is_queryb
                     (effects (prompt_part (uploaded_file := uploaded_file) query st p))))%nat
    /\ (length (List.filter is_queryb
                  (effects (prompt_part (uploaded_file := uploaded_file) query st p)))
        <= 1)%nat
    /\ query_engine (state (prompt_part (uploaded_file := uploaded_file) query st p))
       = query_engine st.
Proof.
  unfold prompt_part. destruct (limit <=? question_count st)%nat.
  { exists []. rewrite app_nil_r. cbn. repeat split; lia. }
  destruct (query_engine st) as [e|] eqn:E.
  - destruct (query e p) as [answer | ex].
    + exists [Message "user" p; Message "assistant" answer].
      cbn. rewrite <- app_assoc. repeat split; lia.
    + exists [Message "user" p]. cbn. repeat split; lia.
  - exists [Message "user" p]. cbn. repeat split; lia.
Qed.

Lemma display_part_no_query st :
  List.filter is_queryb (display_part (uploaded_file := uploaded_file) st) = [].
Proof.
  unfold display_part. induction (messages st) as [|m ms IH]; [reflexivity|].
  cbn. exact IH.
Qed.

Lemma no_query_filter (l : list (effect uploaded_file)) :
  existsb is_queryb l = false -> List.filter is_queryb l = [].
Proof.
  induction l as [|e l IH]; [reflexivity|]. cbn [existsb List.filter].
  intros H. apply orb_false_iff in H. destruct H as [He H].
  rewrite He. apply IH, H.
Qed.

Lemma run_adds st files (prompt : option string) :
  exists added,
    messages (state (run index_documents query st files prompt)) = messages st ++ added
    /\ (length added <= 2)%nat
    /\ question_count (state (run index_documents query st files prompt))
       = (question_count st + count_role "assistant" added)%nat
    /\ (count_role "assistant" added <= count_role "user" added)%nat
    /\ (count_role "assistant" added
        <= length (List.filter is_queryb
                     (effects (run index_documents query st files prompt))))%nat
    /\ (length (List.filter is_queryb
                  (effects (run index_documents query st files prompt))) <= 1)%nat.
Proof.
  destruct (upload_part_keeps st files) as [Hm [Hc [_ Hq]]].
  apply no_query_filter in Hq.
  assert (exists added,
            messages (state (upload_part index_documents st files)) = messages st ++ added
            /\ (length added <= 2)%nat
            /\ question_count (state (upload_part index_documents st files))
               = (question_count st + count_role "assistant" added)%nat
            /\ (count_role "assistant" added <= count_role "user" added)%nat
            /\ (count_role "assistant" added <= 0)%nat) as Hnone.
  { exists []. rewrite app_nil_r, Hm, Hc. cbn. repeat split; lia. }
  unfold run. destruct (raised (upload_part index_documents st files)).
  { destruct Hnone as [added [H1 [H2 [H3 [H4 H5]]]]]. exists added.
    rewrite Hq. cbn [length]. repeat split; (assumption || lia). }
  assert (forall tail,
            List.filter is_queryb
              (effects (upload_part index_documents st files)
               ++ display_part (state (upload_part index_documents st files)) ++ tail)
            = List.filter is_queryb tail) as Hshown.
  { intros tail. rewrite !List.filter_app, Hq, display_part_no_query. reflexivity. }
  destruct prompt as [p|].
  2: { destruct Hnone as [added [H1 [H2 [H3 [H4 H5]]]]]. exists added. cbn [state effects].
       rewrite <- (app_nil_r (display_part _)), Hshown. cbn [List.filter length].
       repeat split; (assumption || lia). }
  destruct (String.eqb p "").
  { destruct Hnone as [added [H1 [H2 [H3 [H4 H5]]]]]. exists added. cbn [state effects].
    rewrite <- (app_nil_r (display_part _)), Hshown. cbn [List.filter length].
    repeat split; (assumption || lia). }
  destruct (prompt_part_adds (state (upload_part index_documents st files)) p)
    as [added [H1 [H2 [H3 [H4 [H5 [H6 _]]]]]]].
  exists added. cbn [state effects]. rewrite <- app_assoc, Hshown.
  rewrite H1, H3, Hm, Hc. repeat split; (assumption || lia).
Qed.

(** A run only adds to the transcript, at most a question and its answer;
    it makes at most one query, and the counter goes up by one exactly when
    an answer is added, which takes a query. *)
Theorem run_extends_transcript st files (prompt : option string) :
  exists added,
    messages (state (run index_documents query st files prompt)) = messages st ++ added
    /\ (length added <= 2)%nat
    /\ question_count (state (run index_documents query st files prompt))
       = (question_count st + count_role "assistant" added)%nat
    /\ (count_role "assistant" added <= count_role "user" added)%nat
    /\ (count_role "assistant" added
        <= length (List.filter is_queryb
                     (effects (run index_documents query st files prompt))))%nat
    /\ (length (List.filter is_queryb
                  (effects (run index_documents query st files prompt))) <= 1)%nat.
Proof. apply run_adds. Qed.

(** In every reachable state the counter is the number of answers in the
    transcript, and there are at most as many answers as questions. *)
Theorem question_count_counts_answers st :
  reachable index_documents query st ->
  question_count st = count_role "assistant" (messages st)
  /\ (count_role "assistant" (messages st) <= count_role "user" (messages st))%nat.
Proof.
  induction 1 as [|st files prompt _ [IH1 IH2]]; [split; reflexivity|].
  destruct (run_adds st files prompt) as [added [H1 [_ [H3 [H4 _]]]]].
  rewrite H1, H3, !count_role_app. split; lia.
Qed.

(** Once the documents are indexed the engine stays: a later run indexes
    nothing, whatever files are in the uploader, and keeps the engine. *)
Theorem engine_is_set_once st files (prompt : option string) (e : engine) :
  query_engine st = Some e ->
  query_engine (state (run index_documents query st files prompt)) = Some e
  /\ existsb is_indexedb (effects (run index_documents query st files prompt)) = false.
Proof.
  intros He. destruct (upload_part_keeps st files) as [_ [_ [Hup _]]].
  unfold run. rewrite (Hup e He). cbn [raised state effects app].
  assert (existsb is_indexedb (display_part (uploaded_file := uploaded_file) st) = false)
    as Hd.
  { unfold display_part. induction (messages st) as [|m ms IH]; [reflexivity | exact IH]. }
  destruct prompt as [p|]; [|split; assumption].
  destruct (String.eqb p ""); [split; assumption|].
  cbn [state effects]. rewrite existsb_app, Hd. cbn [orb].
  unfold prompt_part. destruct (limit <=? question_count st)%nat; [split; [exact He | reflexivity]|].
  rewrite He. destruct (query e p); cbn; split; reflexivity.
Qed.

End ChatMore.

Section ChatMoreDemo.

Import Chat.

Lemma question_count_counts_answers_witness :
  reachable demo_index demo_query (demo_session 3)
  /\ question_count (demo_session 3) = count_role "assistant" (messages (demo_session 3))
  /\ (count_role "assistant" (messages (demo_session 3))
      <= count_role "user" (messages (demo_session 3)))%nat.
Proof.
  split; [apply demo_session_reachable|].
  exact (question_count_counts_answers demo_index demo_query (demo_session 3)
           (demo_session_reachable 3)).
Defined.

Lemma engine_is_set_once_witness :
  query_engine (demo_session 1) = Some tt
  /\ query_engine (state (run demo_index demo_query (demo_session 1)
                            ["manual.pdf"] (Some "How wide?"))) = Some tt
  /\ existsb is_indexedb
       (effects (run demo_index demo_query (demo_session 1)
                   ["manual.pdf"] (Some "How wide?"))) = false.
Proof.
  split; [reflexivity|].
  exact (engine_is_set_once demo_index demo_query (demo_session 1)
           ["manual.pdf"] (Some "How wide?") tt eq_refl).
Defined.

End ChatMoreDemo.

(** ** The text of the pages *)

Section GatherFacts.

Import Str Gather.

Lemma split_lines_nonempty (t : str) : split_lines t <> [].
Proof.
  destruct t as [|c t]; cbn [split_lines]; [discriminate|].
  destruct (eqb_char c Re.newline); [discriminate|].
  destruct (split_lines t); discriminate.
Qed.

(** Joining the lines of a text gives the text back. *)
Lemma join_split_lines (t : str) : join_lines (split_lines t) = t.
Proof.
  induction t as [|c t IH]; [reflexivity|]. cbn [split_lines].
  destruct (eqb_char c Re.newline) eqn:E.
  - apply eqb_char_eq in E. subst c.
    pose proof (split_lines_nonempty t) as Hne.
    destruct (split_lines t) as [|l ls]; [contradiction|].
    cbn [join_lines app] in *. rewrite IH. reflexivity.
  - pose proof (split_lines_nonempty t) as Hne.
    destruct (split_lines t) as [|l ls]; [contradiction|].
    destruct ls as [|l' ls]; cbn [join_lines] in *; rewrite <- IH; reflexivity.
Qed.

Lemma join_lines_app (a b : list str) :
  a <> [] -> b <> [] ->
  join_lines (a ++ b) = join_lines a ++ Re.newline :: join_lines b.
Proof.
  intros Ha Hb. induction a as [|l a IH]; [contradiction|].
  destruct a as [|l' a].
  - cbn [app join_lines]. destruct b as [|l2 b]; [contradiction | reflexivity].
  - change ((l :: l' :: a) ++ b) with (l :: (l' :: a) ++ b).
    cbn [join_lines app]. cbn [join_lines app] in IH.
    rewrite IH by discriminate. rewrite <- app_assoc. reflexivity.
Qed.

(** No line holds a newline. *)
Lemma split_lines_no_newline (t : str) :
  Forall (fun line => forallb (fun c => negb (eqb_char c Re.newline)) line = true)
    (split_lines t).
Proof.
  induction t as [|c t IH]; [repeat constructor|]. cbn [split_lines].
  destruct (eqb_char c Re.newline) eqn:E.
  - constructor; [reflexivity | exact IH].
  - destruct (split_lines t) as [|l ls]; [repeat constructor; cbn; rewrite E; reflexivity|].
    inversion IH as [|? ? Hl Hls]; subst. constructor; [|exact Hls].
    cbn [forallb]. rewrite E, Hl. reflexivity.
Qed.

(** Splitting the joined lines gives the lines back. *)
Lemma split_join_lines (lines : list str) :
  lines <> [] ->
  Forall (fun line => forallb (fun c => negb (eqb_char c Re.newline)) line = true) lines ->
  split_lines (join_lines lines) = lines.
Proof.
  intros Hne Hall. induction Hall as [|l ls Hl Hls IH]; [contradiction|]. clear Hne.
  assert (forall tail, split_lines tail <> [] ->
            split_lines (l ++ tail)
            = match split_lines tail with
              | first :: others => (l ++ first) :: others
              | [] => []
              end) as Hpre.
  { intros tail Ht. clear IH Hls. induction l as [|c l IHl].
    - cbn [app]. destruct (split_lines tail); [contradiction | reflexivity].
    - cbn [forallb] in Hl. apply andb_true_iff in Hl. destruct Hl as [Hc Hl].
      apply negb_true_iff in Hc. cbn [app split_lines]. rewrite Hc, (IHl Hl).
      destruct (split_lines tail); [contradiction | reflexivity]. }
  destruct ls as [|l' ls].
  - cbn [join_lines]. rewrite <- (app_nil_r l) at 1.
    rewrite Hpre by discriminate. cbn [split_lines]. rewrite app_nil_r. reflexivity.
  - change (join_lines (l :: l' :: ls)) with (l ++ Re.newline :: join_lines (l' :: ls)).
    rewrite Hpre.
    + cbn [split_lines]. change (eqb_char Re.newline Re.newline) with true. cbn iota.
      rewrite IH by discriminate. rewrite app_nil_r. reflexivity.
    + cbn [split_lines]. change (eqb_char Re.newline Re.newline) with true. discriminate.
Qed.

Lemma gather_page_fst (acc : list str * list str) (text : option str) :
  fst (gather_page acc text)
  = fst acc ++ match text with
               | Some (c :: t) => split_lines (c :: t)
               | _ => []
               end.
Proof.
  destruct text as [[|c t]|]; cbn [gather_page fst]; rewrite ?app_nil_r; reflexivity.
Qed.

Lemma note_fold (lines notes : list str) :
  fold_left
    (fun notes line => if is_note_line line then notes ++ [strip line] else notes)
    lines notes
  = notes ++ map strip (List.filter is_note_line lines).
Proof.
  revert notes. induction lines as [|l lines IH]; intros notes; cbn [fold_left List.filter].
  - rewrite app_nil_r. reflexivity.
  - rewrite IH. destruct (is_note_line l); [|reflexivity].
    cbn [map]. rewrite <- app_assoc. reflexivity.
Qed.

Lemma gather_page_snd (acc : list str * list str) (text : option str) :
  snd (gather_page acc text)
  = snd acc ++ map strip
                 (List.filter is_note_line
                    match text with
                    | Some (c :: t) => split_lines (c :: t)
                    | _ => []
                    end).
Proof.
  destruct text as [[|c t]|]; cbn [gather_page snd List.filter map];
    rewrite ?app_nil_r; try reflexivity.
  apply note_fold.
Qed.

Lemma gather_from (pages : list (option str)) (acc : list str * list str) :
  fst (fold_left gather_page pages acc)
  = fst acc ++ flat_map split_lines (page_texts pages)
  /\ snd (fold_left gather_page pages acc)
     = snd acc ++ map strip
                    (List.filter is_note_line (flat_map split_lines (page_texts pages))).
Proof.
  revert acc. induction pages as [|text pages IH]; intros acc; cbn [fold_left].
  - cbn. rewrite !app_nil_r. split; reflexivity.
  - destruct (IH (gather_page acc text)) as [H1 H2].
    rewrite H1, H2, gather_page_fst, gather_page_snd. clear.
    unfold page_texts. cbn [flat_map].
    destruct text as [[|c t]|]; cbn [app flat_map]; rewrite ?app_nil_r;
      try (split; reflexivity).
    rewrite List.filter_app, map_app, <- !app_assoc. split; reflexivity.
Qed.

Lemma join_flat_split (texts : list str) :
  join_lines (flat_map split_lines texts) = join_lines texts.
Proof.
  induction texts as [|t texts IH]; [reflexivity|]. cbn [flat_map].
  destruct texts as [|t' texts].
  - cbn [flat_map]. rewrite app_nil_r. apply join_split_lines.
  - rewrite join_lines_app.
    + rewrite join_split_lines, IH. reflexivity.
    + apply split_lines_nonempty.
    + cbn [flat_map]. pose proof (split_lines_nonempty t') as H.
      destruct (split_lines t'); [contradiction | discriminate].
Qed.

(** [text_blob] is the texts of the pages that have one, joined by
    newlines; split at the newlines again it gives the lines gathered from
    the pages, except for a document without any text: the blob is then
    empty and splits into one empty line, while no line was gathered. *)
Theorem text_blob_joins_pages (pages : list (option str)) :
  text_blob pages = join_lines (page_texts pages)
  /\ split_lines (text_blob pages)
     = match page_texts pages with
       | [] => [[]]
       | _ :: _ => all_text pages
       end.
Proof.
  unfold text_blob, all_text, gather.
  destruct (gather_from pages ([], [])) as [H _]. cbn [fst app] in H. rewrite H.
  split; [apply join_flat_split|].
  destruct (page_texts pages) as [|t ts] eqn:Hts; [reflexivity|].
  rewrite <- Hts. assert (page_texts pages <> []) as Hne by (rewrite Hts; discriminate).
  clear Hts H. apply split_join_lines.
  - destruct (page_texts pages) as [|t' ts']; [contradiction|]. cbn [flat_map].
    pose proof (split_lines_nonempty t') as Ht.
    destruct (split_lines t'); [contradiction | discriminate].
  - clear. induction (page_texts pages) as [|t ts IH]; [constructor|].
    cbn [flat_map]. apply Forall_app. split; [apply split_lines_no_newline | apply IH].
Qed.

(** The note lines are the lines of the pages that hold NOTE, WELD, COATING
    or SURFACE in some letter case, in the order of the document, each
    stripped of the white space at its ends. *)
Theorem note_lines_spec (pages : list (option str)) :
  note_lines pages = map strip (List.filter is_note_line (all_text pages))
  /\ Forall (fun line => stops is_space line /\ stops is_space (rev line))
       (note_lines pages).
Proof.
  unfold note_lines, all_text, gather.
  destruct (gather_from pages ([], [])) as [H1 H2]. cbn [fst snd app] in H1, H2.
  rewrite H1, H2. split; [reflexivity|].
  apply Forall_forall. intros line Hl. apply list_elem_of_In, in_map_iff in Hl.
  destruct Hl as [l [<- _]]. apply strip_stops.
Qed.

End GatherFacts.

(** ** Weld notes: what the regex pass can store *)

Section WeldNotesFacts.

Import Str Re Config Extraction.

Lemma upper_lower_char (c : ascii) : upper_char (lower_char c) = upper_char c.
Proof. destruct c as [[] [] [] [] [] [] [] []]; reflexivity. Qed.

Lemma lits_prefix_upper (l t : str) :
  lits_prefix true l t = true -> upper (take (length l) t) = upper l.
Proof.
  revert t. induction l as [|c l IH]; intros t H; [reflexivity|].
  destruct t as [|x t]; [discriminate|].
  cbn [lits_prefix] in H. apply andb_true_iff in H. destruct H as [Hc H].
  unfold lit_matches in Hc. apply eqb_char_eq in Hc.
  cbn [length take]. change (upper (x :: take (length l) t))
    with (upper_char x :: upper (take (length l) t)).
  rewrite (IH _ H), <- (upper_lower_char x), <- Hc, upper_lower_char. reflexivity.
Qed.

(** A run of single characters records no group. *)
Lemma repeat_greedy_caps (test : ascii -> bool) (n : nat) (st st' : mstate) :
  repeat_greedy (step_if test) n st Some = Some st' -> caps st' = caps st.
Proof.
  revert st. induction n as [|n IH]; intros st; cbn [repeat_greedy].
  - intros H. injection H as <-. reflexivity.
  - unfold orelse.
    destruct (step_if test st
                (fun st'0 => if (pos st <? pos st'0)%nat
                             then repeat_greedy (step_if test) n st'0 Some else None))
      as [r|] eqn:E.
    + intros H. injection H as ->. unfold step_if in E.
      destruct (rest st) as [|c tl]; [discriminate|].
      destruct (test c); [|discriminate]. cbn [pos] in E.
      destruct (pos st <? S (pos st))%nat; [|discriminate].
      apply IH in E. exact E.
    + intros H. injection H as <-. reflexivity.
Qed.

Lemma weld_tail_caps (st st' : mstate) :
  rmatch true (seqs [WordB; Star AnyChar]) st Some = Some st' -> caps st' = caps st.
Proof.
  cbn [seqs fold_right rmatch]. destruct (at_boundary st); [|intros H; discriminate H].
  apply repeat_greedy_caps.
Qed.

(** Group 1 of a weld note is absent, or reads "ING" in some letter case. *)
Lemma match_at_weld (pv : option ascii) (text : str) (i : nat) (m : rmatch_obj) :
  match_at (Pattern weld_notes_re true 1) pv text i = Some m ->
  group m 1 = None \/ exists g, group m 1 = Some g /\ upper g = s "ING".
Proof.
  unfold match_at. cbn [tree ignorecase ngroups]. unfold weld_notes_re.
  change (seqs [WordB; word "WELD"; Opt (Group 1 (word "ING")); WordB; Star AnyChar])
    with (Seq WordB (Seq (word "WELD") (Seq (Opt (Group 1 (word "ING")))
                                            (seqs [WordB; Star AnyChar])))).
  remember (seqs [WordB; Star AnyChar]) as tail eqn:Htail.
  cbn [rmatch].
  destruct (at_boundary (MState pv text i [])); [|intros H; discriminate H].
  rewrite word_lits, rmatch_lits. cbn [rest].
  destruct (lits_prefix true (of_string "WELD") text) eqn:Hw; [|intros H; discriminate H].
  set (st1 := moved _ _ _).
  unfold orelse. rewrite word_lits, rmatch_lits.
  assert (forall st r, rmatch true tail st Some = Some r -> caps r = caps st) as HK.
  { subst tail. apply weld_tail_caps. }
  clear Htail.
  destruct (lits_prefix true (of_string "ING") (rest st1)) eqn:Hi.
  - set (st2 := set_cap 1 _ _).
    destruct (rmatch true tail st2 Some) as [r|] eqn:E2.
    + intros H. injection H as <-. right.
      apply HK in E2. rewrite E2.
      cbn [group m_groups seq map nth st2 set_cap caps get_cap Nat.eqb option_map].
      eexists. split; [reflexivity|].
      replace (slice i text _) with (take 3 (drop 4 text)).
      * apply (lits_prefix_upper (of_string "ING")). exact Hi.
      * unfold slice, st1, moved. cbn [fst snd pos rest length of_string].
        apply lits_prefix_length in Hw. cbn [length of_string] in Hw. rewrite Hw.
        apply lits_prefix_length in Hi. cbn [length of_string rest st1 moved] in Hi.
        rewrite Hi.
        change (length (of_string "ING")) with 3%nat.
        change (length (of_string "WELD")) with 4%nat.
        replace (3 + (4 + i) - (4 + i))%nat with 3%nat by lia.
        replace (4 + i - i)%nat with 4%nat by lia. reflexivity.
    + destruct (rmatch true tail st1 Some) as [r|] eqn:E1; [|intros H; discriminate H].
      intros H. injection H as <-. left.
      apply HK in E1. rewrite E1. reflexivity.
  - destruct (rmatch true tail st1 Some) as [r|] eqn:E1; [|intros H; discriminate H].
    intros H. injection H as <-. left.
    apply HK in E1. rewrite E1. reflexivity.
Qed.

Lemma scan_match_at (p : pattern) (t : str) (skip : nat) (pv : option ascii)
    (i : nat) (m : rmatch_obj) :
  m ∈ scan p skip pv t i -> exists pv' t' i', match_at p pv' t' i' = Some m.
Proof.
  revert skip pv i. induction t as [|c t IH]; intros skip pv i.
  - destruct skip as [|skip]; cbn [scan].
    + destruct (match_at p pv [] i) as [m'|] eqn:E.
      * intros H. apply elem_of_cons in H. destruct H as [-> | H].
        -- exists pv, [], i. exact E.
        -- apply elem_of_nil in H. contradiction.
      * intros H. apply elem_of_nil in H. contradiction.
    + intros H. apply elem_of_nil in H. contradiction.
  - destruct skip as [|skip]; cbn [scan].
    + destruct (match_at p pv (c :: t) i) as [m'|] eqn:E.
      * intros H. apply elem_of_cons in H. destruct H as [-> | H].
        -- exists pv, (c :: t), i. exact E.
        -- eapply IH, H.
      * apply IH.
    + apply IH.
Qed.

Lemma weld_notes_pattern (p : pattern) :
  ("weld_notes", p) ∈ patterns -> p = Pattern weld_notes_re true 1.
Proof.
  unfold patterns. intros H.
  repeat (apply elem_of_cons in H; destruct H as [H | H];
          [apply pair_equal_spec in H; destruct H as [H1 H2];
           first [discriminate H1 | exact H2]|]).
  apply elem_of_nil in H. contradiction.
Qed.

Lemma elem_of_weld_notes (text_blob x : string) :
  x ∈ extracted_for "weld_notes" text_blob -> x = "".
Proof.
  intros H. apply elem_of_extracted_for in H.
  destruct H as [p [Hp [m [Hm [Hk ->]]]]].
  apply weld_notes_pattern in Hp. subst p.
  unfold findall in Hm. apply list_elem_of_In, in_map_iff in Hm.
  destruct Hm as [m0 [<- Hm0]]. apply list_elem_of_In in Hm0.
  apply scan_match_at in Hm0. destruct Hm0 as [pv [t [i Hm0]]].
  apply match_at_weld in Hm0. unfold kept, stored_text in *.
  unfold found_of in *. cbn [ngroups match_text] in *.
  destruct Hm0 as [E | [g [E Hg]]]; rewrite E in *; [reflexivity|].
  cbn [group_text] in Hk. contradiction.
Qed.

(** The weld notes of the regex pass are never the notes: whatever the
    text, the set of the field is absent or holds the empty string alone.
    A match on WELD stores the empty text of the group that did not take
    part; a match on WELDING stores the group, which reads ING and is
    dropped. *)
Theorem weld_notes_stores_nothing (text_blob : string) :
  extracted_for "weld_notes" text_blob = ∅
  \/ extracted_for "weld_notes" text_blob = {[ "" ]}.
Proof.
  destruct (decide ("" ∈ extracted_for "weld_notes" text_blob)) as [Hin | Hout].
  - right. apply set_eq. intros x. rewrite elem_of_singleton. split.
    + apply elem_of_weld_notes.
    + intros ->. exact Hin.
  - left. apply set_eq. intros x. split.
    + intros Hx. pose proof (elem_of_weld_notes _ _ Hx) as ->. contradiction.
    + intros Hx. apply not_elem_of_empty in Hx. contradiction.
Qed.

End WeldNotesFacts.

(** ** Patterns whose first group spans the match *)

Section WholeMatchFacts.

Import Str Re Config Extraction.

(** A successful match has called its continuation. *)
Lemma repeat_greedy_continues
    (body : mstate -> (mstate -> option mstate) -> option mstate) :
  (forall st k res, body st k = Some res -> exists st', k st' = Some res) ->
  forall n st k res,
    repeat_greedy body n st k = Some res -> exists st', k st' = Some res.
Proof.
  intros Hbody. induction n as [|n IH]; intros st k res; cbn [repeat_greedy].
  - intros H. exists st. exact H.
  - unfold orelse.
    destruct (body st (fun st' => if (pos st <? pos st')%nat
                                  then repeat_greedy body n st' k else None))
      as [r|] eqn:E.
    + intros H. injection H as ->. apply Hbody in E. destruct E as [st' E].
      destruct (pos st <? pos st')%nat; [|discriminate E]. apply IH in E. exact E.
    + intros H. exists st. exact H.
Qed.

Lemma step_if_continues (test : ascii -> bool) (st : mstate)
    (k : mstate -> option mstate) (res : mstate) :
  step_if test st k = Some res -> exists st', k st' = Some res.
Proof.
  unfold step_if. destruct (rest st) as [|c tl]; [intros H; discriminate H|].
  destruct (test c); [|intros H; discriminate H].
  intros H. eexists. exact H.
Qed.

Lemma rmatch_continues (icase : bool) (r : regex) :
  forall st k res, rmatch icase r st k = Some res -> exists st', k st' = Some res.
Proof.
  induction r as [| c | | | | ranges | | r1 IH1 r2 IH2 | r1 IH1 r2 IH2
                  | r1 IH1 | r1 IH1 | r1 IH1 | n r1 IH1];
    intros st k res; cbn [rmatch]; try apply step_if_continues.
  - intros H. exists st. exact H.
  - destruct (at_boundary st); [|intros H; discriminate H].
    intros H. exists st. exact H.
  - intros H. apply IH1 in H. destruct H as [st1 H]. apply IH2 in H. exact H.
  - unfold orelse. destruct (rmatch icase r1 st k) as [r|] eqn:E.
    + intros H. injection H as ->. apply IH1 in E. exact E.
    + apply IH2.
  - apply repeat_greedy_continues. exact IH1.
  - intros H. apply IH1 in H. destruct H as [st1 H].
    apply (repeat_greedy_continues _ IH1) in H. exact H.
  - unfold orelse. destruct (rmatch icase r1 st k) as [r|] eqn:E.
    + intros H. injection H as ->. apply IH1 in E. exact E.
    + intros H. exists st. exact H.
  - intros H. apply IH1 in H. destruct H as [st1 H]. eexists. exact H.
Qed.

(** For a pattern of the form [\b(...)\b], group 1 is the whole match. *)
Lemma match_at_wrapped (body : regex) (icase : bool) (n : nat)
    (pv : option ascii) (text : str) (i : nat) (m : rmatch_obj) :
  match_at (Pattern (seqs [WordB; Group 1 body; WordB]) icase (S n)) pv text i = Some m ->
  group m 1 = Some (m_text m).
Proof.
  unfold match_at. cbn [tree ignorecase ngroups seqs fold_right rmatch].
  destruct (at_boundary (MState pv text i [])); [|intros H; discriminate H].
  destruct (rmatch icase body _ _) as [r|] eqn:E; [|intros H; discriminate H].
  intros H. injection H as <-.
  apply rmatch_continues in E. destruct E as [st' E]. cbn [pos] in E.
  destruct (at_boundary _) in E; [|discriminate E]. injection E as <-.
  cbn [group m_groups m_text seq map nth set_cap caps pos get_cap Nat.eqb option_map].
  unfold slice. cbn [fst snd]. rewrite Nat.sub_diag. reflexivity.
Qed.

Lemma patterns_functional (label : string) (p p' : pattern) :
  (label, p) ∈ patterns -> (label, p') ∈ patterns -> p = p'.
Proof.
  unfold patterns. intros H H'.
  repeat (apply elem_of_cons in H; destruct H as [H | H]);
    try (apply elem_of_nil in H; contradiction);
    apply pair_equal_spec in H; destruct H as [-> ->];
    repeat (apply elem_of_cons in H'; destruct H' as [H' | H']);
    try (apply elem_of_nil in H'; contradiction);
    apply pair_equal_spec in H'; destruct H' as [H1 H2];
    first [discriminate H1 | symmetry; exact H2].
Qed.

Lemma match_text_first_group (p : pattern) (m : rmatch_obj) (t : str) :
  (2 <= ngroups p)%nat -> group m 1 = Some t -> match_text (found_of p m) = t.
Proof.
  unfold found_of. destruct (ngroups p) as [|[|n]]; [lia | lia |]. intros _.
  cbn [group nth]. destruct (m_groups m) as [|g gs]; [intros H; discriminate H|].
  cbn [nth map match_text]. intros ->. reflexivity.
Qed.

Lemma wrapped_fields (label : string) (p : pattern) :
  (label, p) ∈ patterns ->
  label = "material" \/ label = "finish" \/ label = "threads" ->
  (2 <= ngroups p)%nat
  /\ forall pv text i m, match_at p pv text i = Some m -> group m 1 = Some (m_text m).
Proof.
  intros Hp [-> | [-> | ->]].
  - rewrite (patterns_functional _ _ (Pattern material_re true 2) Hp)
      by (unfold patterns; apply list_elem_of_here).
    split; [cbn; lia | apply match_at_wrapped].
  - rewrite (patterns_functional _ _ (Pattern finish_re true 4) Hp)
      by (unfold patterns; apply list_elem_of_further, list_elem_of_here).
    split; [cbn; lia | apply match_at_wrapped].
  - rewrite (patterns_functional _ _ (Pattern threads_re true 4) Hp)
      by (unfold patterns; do 4 apply list_elem_of_further; apply list_elem_of_here).
    split; [cbn; lia | apply match_at_wrapped].
Qed.

(** For material, finish and threads, whose patterns are one group between
    word boundaries, the regex pass stores the whole matched substring,
    stripped: the set of the field holds exactly the stripped texts of the
    matches of the pattern that do not read "ING". *)
Theorem whole_match_fields (label : string) (p : pattern) (text_blob x : string) :
  (label, p) ∈ patterns ->
  label = "material" \/ label = "finish" \/ label = "threads" ->
  (x ∈ extracted_for label text_blob
   <-> exists m, m ∈ finditer p (s text_blob)
                 /\ upper (m_text m) <> s "ING"
                 /\ x = to_string (strip (m_text m))).
Proof.
  intros Hp Hl. destruct (wrapped_fields label p Hp Hl) as [Hn Hg].
  assert (forall m, m ∈ finditer p (s text_blob) ->
                    match_text (found_of p m) = m_text m) as Hm.
  { intros m H. apply scan_match_at in H. destruct H as [pv [t [i H]]].
    apply match_text_first_group; [exact Hn | eapply Hg, H]. }
  rewrite elem_of_extracted_for. split.
  - intros [p' [Hp' [f [Hf [Hk ->]]]]].
    rewrite (patterns_functional _ _ _ Hp' Hp) in Hf. clear Hp'.
    unfold findall in Hf. apply list_elem_of_In, in_map_iff in Hf.
    destruct Hf as [m [<- Hin]]. apply list_elem_of_In in Hin.
    unfold kept, stored_text in *. rewrite (Hm m Hin) in *.
    exists m. split; [exact Hin | split; [exact Hk | reflexivity]].
  - intros [m [Hin [Hk ->]]]. exists p. split; [exact Hp|].
    exists (found_of p m). split.
    + unfold findall. apply list_elem_of_In, in_map_iff. exists m.
      split; [reflexivity | apply list_elem_of_In, Hin].
    + unfold kept, stored_text. rewrite (Hm m Hin). split; [exact Hk | reflexivity].
Qed.

End WholeMatchFacts.

Section WholeMatchWitness.

Import Str Re Config Extraction.

Lemma whole_match_fields_witness :
  "M8x1.25" ∈ extracted_for "threads" "M8x1.25 stud"
  <-> exists m, m ∈ finditer (Pattern threads_re true 4) (s "M8x1.25 stud")
                /\ upper (m_text m) <> s "ING"
                /\ "M8x1.25" = to_string (strip (m_text m)).
Proof.
  apply (whole_match_fields "threads" (Pattern threads_re true 4) "M8x1.25 stud" "M8x1.25").
  - unfold patterns. do 4 apply list_elem_of_further. apply list_elem_of_here.
  - right. right. reflexivity.
Defined.

End WholeMatchWitness.

(** ** Outlines of the regex matches *)

Section AnnotateFacts.

Import Str Re Config Extraction Annotate.

Lemma first_category_label (text : str) (category : string) :
  first_category text = Some category -> category ∈ map fst patterns.
Proof.
  unfold first_category.
  destruct (List.find _ patterns) as [item|] eqn:E; [|intros H; discriminate H].
  apply find_some in E. destruct E as [E _].
  intros H. injection H as <-. apply list_elem_of_In, in_map, E.
Qed.

(** A word is outlined in the colour of the first category whose pattern is
    found in it. The colour is the grey of the fallback exactly for
    surface_roughness and weld_notes, which [category_colors] does not have,
    and it is never the teal of weld_requirements, which is no category of
    the patterns. *)
Theorem outline_colors {coord : Type} (minus plus : coord -> Z -> coord)
    (w : pdf_word coord) (r : rectangle coord) :
  draw_word minus plus w = Some r ->
  exists category,
    first_category (upper (s (w_text w))) = Some category
    /\ outline r = color_of category
    /\ (outline r = grey <-> category = "surface_roughness" \/ category = "weld_notes")
    /\ outline r <> (0, 128, 128)%Z.
Proof.
  unfold draw_word.
  destruct (first_category (upper (s (w_text w)))) as [category|] eqn:E;
    [|intros H; discriminate H].
  intros H. injection H as <-. exists category. cbn [outline].
  split; [reflexivity|]. split; [reflexivity|].
  apply first_category_label in E. cbn in E.
  repeat (apply elem_of_cons in E; destruct E as [-> | E]);
    try (apply elem_of_nil in E; contradiction);
    (split; [split; [intros H; vm_compute in H; try discriminate H; tauto
                    | intros [H | H]; try discriminate H; reflexivity]
            | intros H; vm_compute in H; discriminate H]).
Qed.

End AnnotateFacts.

Section AnnotateWitness.

Import Str Re Config Extraction Annotate.

Lemma outline_colors_witness :
  exists category,
    first_category (upper (s "Weld")) = Some category
    /\ grey = color_of category
    /\ (grey = grey <-> category = "surface_roughness" \/ category = "weld_notes")
    /\ grey <> (0, 128, 128)%Z.
Proof.
  apply (outline_colors Z.sub Z.add (Word "Weld" 10 20 30 40)%Z
           (Rectangle (BBox 4 14 36 46)%Z grey 6)).
  vm_compute. reflexivity.
Defined.

End AnnotateWitness.
